(** * A shallow embedding of the ADIYOGI execution engine and result pipeline

    Sources embedded here:
    - [src/services/results/ResultProcessor.js]: the result pipeline
      (parsers, validation, deduplication, sorting, [processResults]);
    - [src/services/execution/ToolExecutor.js]: the tool registry, the
      process runner [runTool], the per-tool driver [executeSingleTool],
      batching in [createConcurrentBatches]/[executeMultipleTools], the
      coordinator [executeTools] and the execution-slot counter.

    JavaScript strings are modelled as Rocq [string]s whose characters are
    UTF-16 code units below 256; JavaScript values reaching the pipeline as
    the JSON-like [jsval] below. *)

From Stdlib Require Import String Ascii List ZArith Bool Lia Sorted Permutation.
Import ListNotations.
Open Scope string_scope.
Open Scope list_scope.
Open Scope nat_scope.
Set Warnings "-register-all".

(* ------------------------------------------------------------------ *)
(** ** String helpers (String.prototype methods on code units < 256) *)

Module JsString.

Definition code (c : ascii) : nat := nat_of_ascii c.

(** Characters removed by [String.prototype.trim] in this range: TAB, LF,
    VT, FF, CR, SPACE and NO-BREAK SPACE (U+00A0). *)
Definition is_ws (c : ascii) : bool :=
  let n := code c in
  (9 <=? n) && (n <=? 13) || (n =? 32) || (n =? 160).

Fixpoint drop_ws (l : list ascii) : list ascii :=
  match l with
  | [] => []
  | c :: r => if is_ws c then drop_ws r else l
  end.

(** [s.trim()] *)
Definition trim (s : string) : string :=
  string_of_list_ascii
    (rev (drop_ws (rev (drop_ws (list_ascii_of_string s))))).

(** [s.split(sep)] for a one-character separator: every piece is kept,
    empty ones included, so [""] splits into [[""]]. *)
Fixpoint split_char (sep : ascii) (s : string) : list string :=
  match s with
  | EmptyString => [EmptyString]
  | String c r =>
      if Ascii.eqb c sep then EmptyString :: split_char sep r
      else match split_char sep r with
           | [] => [String c EmptyString]
           | p :: ps => String c p :: ps
           end
  end.

Definition nl : ascii := ascii_of_nat 10.

(** [s.startsWith(p)] *)
Definition startsWith (s p : string) : bool := String.prefix p s.

(** [s.includes(sub)] *)
Fixpoint includes (s sub : string) : bool :=
  String.prefix sub s ||
  match s with
  | EmptyString => false
  | String _ r => includes r sub
  end.

(** [s.endsWith(p)] *)
Definition endsWith (s p : string) : bool :=
  let n := String.length s in
  let m := String.length p in
  (m <=? n) && String.eqb (substring (n - m) m s) p.

(** [s.toLowerCase()] on ASCII letters. *)
Definition lower_char (c : ascii) : ascii :=
  let n := code c in
  if (65 <=? n) && (n <=? 90) then ascii_of_nat (n + 32) else c.

Fixpoint toLowerCase (s : string) : string :=
  match s with
  | EmptyString => EmptyString
  | String c r => String (lower_char c) (toLowerCase r)
  end.

Definition is_digit (c : ascii) : bool :=
  let n := code c in (48 <=? n) && (n <=? 57).
Definition is_alpha (c : ascii) : bool :=
  let n := code c in ((65 <=? n) && (n <=? 90)) || ((97 <=? n) && (n <=? 122)).
Definition is_alnum (c : ascii) : bool := is_alpha c || is_digit c.

Fixpoint all_chars (p : ascii -> bool) (s : string) : bool :=
  match s with
  | EmptyString => true
  | String c r => p c && all_chars p r
  end.

(** [/^[a-zA-Z0-9.-]+$/.test(s)] *)
Definition domain_char (c : ascii) : bool :=
  is_alnum c || Ascii.eqb c "." || Ascii.eqb c "-".
Definition domainRegex_test (s : string) : bool :=
  negb (String.eqb s "") && all_chars domain_char s.

End JsString.

(* ------------------------------------------------------------------ *)
(** ** JavaScript values and exceptions *)

Module Js.
Import JsString.

(** JSON-like JavaScript values.  Arrays and objects carry the identity of
    their heap cell: [Set] and [===] compare them by reference. *)
Inductive jsval : Type :=
| JUndef
| JNull
| JBool (b : bool)
| JNum (z : Z)
| JStr (s : string)
| JArr (ref : nat) (elems : list jsval)
| JObj (ref : nat) (fields : list (string * jsval)).

(** A computation that may throw an [Error] with the given message. *)
Definition Exc (A : Type) : Type := (string + A)%type.
Definition ret {A} (a : A) : Exc A := inr a.
Definition throw {A} (msg : string) : Exc A := inl msg.
Definition bind {A B} (m : Exc A) (k : A -> Exc B) : Exc B :=
  match m with inl e => inl e | inr a => k a end.

Notation "x <- m ;; k" := (bind m (fun x => k))
  (at level 61, m at next level, right associativity).

Fixpoint filterM {A} (p : A -> Exc bool) (l : list A) : Exc (list A) :=
  match l with
  | [] => ret []
  | x :: r => b <- p x ;; r' <- filterM p r ;; ret (if b then x :: r' else r')
  end.

Fixpoint mapM {A B} (f : A -> Exc B) (l : list A) : Exc (list B) :=
  match l with
  | [] => ret []
  | x :: r => y <- f x ;; r' <- mapM f r ;; ret (y :: r')
  end.

(** Decimal rendering of an integer (Number.prototype.toString). *)
Fixpoint digits_rev (fuel : nat) (n : Z) (acc : string) : string :=
  match fuel with
  | O => acc
  | S f =>
      let acc' := String (ascii_of_nat (48 + Z.to_nat (n mod 10))) acc in
      if (n / 10 =? 0)%Z then acc' else digits_rev f (n / 10) acc'
  end.
Definition Z_to_string (z : Z) : string :=
  let fuel := S (Z.to_nat (Z.log2 (Z.abs z))) in
  if (z <? 0)%Z then ("-" ++ digits_rev fuel (- z) "")%string
  else digits_rev fuel z "".

Fixpoint lookup_field (k : string) (fs : list (string * jsval)) : option jsval :=
  match fs with
  | [] => None
  | (k', v) :: r => if String.eqb k k' then Some v else lookup_field k r
  end.

Definition to_primitive_error : string := "Cannot convert object to primitive value".

(** [ToString(v)].  An object with an own [toString] property (never
    callable in a JSON-like value) falls through to [valueOf], which
    returns the object itself: a TypeError.  Arrays join their elements with
    [","], [undefined] and [null] giving the empty string. *)
Fixpoint ToString (v : jsval) : Exc string :=
  match v with
  | JUndef => ret "undefined"
  | JNull => ret "null"
  | JBool b => ret (if b then "true" else "false")
  | JNum z => ret (Z_to_string z)
  | JStr s => ret s
  | JArr _ es =>
      let fix join (l : list jsval) : Exc string :=
        match l with
        | [] => ret ""
        | e :: r =>
            s <- (match e with JUndef | JNull => ret "" | _ => ToString e end) ;;
            match r with
            | [] => ret s
            | _ => t <- join r ;; ret (s ++ "," ++ t)%string
            end
        end in
      join es
  | JObj _ fs =>
      match lookup_field "toString" fs with
      | Some _ => throw to_primitive_error
      | None => ret "[object Object]"
      end
  end.

(** [ToNumber] of a string: decimal integer literals (optional sign,
    surrounding white space); [None] stands for NaN.  Hexadecimal, exponent
    and fractional literals lie outside the integer model of numbers. *)
Fixpoint digits_value (s : string) (acc : Z) : option Z :=
  match s with
  | EmptyString => Some acc
  | String c r =>
      if is_digit c then digits_value r (acc * 10 + Z.of_nat (code c - 48))%Z
      else None
  end.
Definition string_to_number (s : string) : option Z :=
  let t := trim s in
  match t with
  | EmptyString => Some 0%Z
  | String c r =>
      if Ascii.eqb c "-" then
        match r with EmptyString => None | _ => option_map Z.opp (digits_value r 0) end
      else if Ascii.eqb c "+" then
        match r with EmptyString => None | _ => digits_value r 0 end
      else digits_value t 0
  end.

(** [ToNumber(v)]; objects go through [ToPrimitive], i.e. [ToString]. *)
Definition ToNumber (v : jsval) : Exc (option Z) :=
  match v with
  | JUndef => ret None
  | JNull => ret (Some 0%Z)
  | JBool b => ret (Some (if b then 1 else 0)%Z)
  | JNum z => ret (Some z)
  | JStr s => ret (string_to_number s)
  | JArr _ _ | JObj _ _ => s <- ToString v ;; ret (string_to_number s)
  end.

(** Truthiness, as in [if (v)] and [!v]. *)
Definition truthy (v : jsval) : bool :=
  match v with
  | JUndef | JNull => false
  | JBool b => b
  | JNum z => negb (z =? 0)%Z
  | JStr s => negb (String.eqb s "")
  | JArr _ _ | JObj _ _ => true
  end.

(** [v === JStr s] *)
Definition is_str (v : jsval) (s : string) : bool :=
  match v with JStr t => String.eqb t s | _ => false end.

(** [SameValueZero], the equality of [Set]. *)
Definition sameValueZero (a b : jsval) : bool :=
  match a, b with
  | JUndef, JUndef | JNull, JNull => true
  | JBool x, JBool y => Bool.eqb x y
  | JNum x, JNum y => (x =? y)%Z
  | JStr x, JStr y => String.eqb x y
  | JArr i _, JArr j _ | JObj i _, JObj j _ => Nat.eqb i j
  | _, _ => false
  end.

(** Reading a property for destructuring: absent means [undefined]. *)
Definition get_prop (o : jsval) (k : string) : jsval :=
  match o with
  | JObj _ fs => match lookup_field k fs with Some v => v | None => JUndef end
  | _ => JUndef
  end.

End Js.

(* ------------------------------------------------------------------ *)
(** ** The result pipeline: [src/services/results/ResultProcessor.js] *)

Module ResultProcessor.
Import JsString Js.

(** [output.split('\n').map(line => line.trim())] *)
Definition trimmed_lines (output : string) : list string :=
  map trim (split_char nl output).

(** [this.domainRegex] *)
Definition domainRegex_test := JsString.domainRegex_test.

(** [this.ipRegex]: four dot-separated octets, each matching
    [25[0-5]|2[0-4][0-9]|[01]?[0-9][0-9]?], anchored at both ends. *)
Definition octet_ok (o : string) : bool :=
  match o with
  | String a EmptyString => is_digit a
  | String a (String b EmptyString) => is_digit a && is_digit b
  | String a (String b (String c EmptyString)) =>
      is_digit a && is_digit b && is_digit c &&
      (Ascii.eqb a "0" || Ascii.eqb a "1" ||
       (Ascii.eqb a "2" && ((code b <? 53) || (Ascii.eqb b "5" && (code c <=? 53)))))
  | _ => false
  end.
Definition ipRegex_test (s : string) : bool :=
  match split_char "." s with
  | [a; b; c; d] => octet_ok a && octet_ok b && octet_ok c && octet_ok d
  | _ => false
  end.

(** [parseDomainsOutput(output, baseDomain)]; [line.includes(baseDomain)]
    converts [baseDomain] with [ToString], which may throw. *)
Definition parseDomainsOutput (output : string) (baseDomain : jsval)
  : Exc (list jsval) :=
  if String.eqb output "" then ret [] else
  kept <- filterM (fun line =>
      if String.eqb line "" || startsWith line "#" || startsWith line "//"
         || startsWith line "=" then ret false
      else if negb (includes line ".") then ret false
      else b <- ToString baseDomain ;;
           ret (includes line b && negb (includes line " ") &&
                (3 <? String.length line) && (String.length line <? 253) &&
                domainRegex_test line))
    (trimmed_lines output) ;;
  ret (map (fun d => JStr (toLowerCase d)) kept).

(** [this.urlRegex = /https?:\/\/[^\s]+/g], matched globally. *)
Fixpoint take_nonws (s : string) : string * string :=
  match s with
  | EmptyString => (EmptyString, EmptyString)
  | String c r =>
      if is_ws c then (EmptyString, s)
      else let (run, rest) := take_nonws r in (String c run, rest)
  end.

Definition try_url (s : string) : option (string * string) :=
  let attempt (scheme : string) :=
    if String.prefix scheme s then
      let (run, rest) := take_nonws (substring (String.length scheme)
                                       (String.length s) s) in
      if String.eqb run "" then None else Some ((scheme ++ run)%string, rest)
    else None in
  match attempt "https://" with
  | Some m => Some m
  | None => attempt "http://"
  end.

Fixpoint url_scan (fuel : nat) (s : string) : list string :=
  match fuel with
  | O => []
  | S f =>
      match s with
      | EmptyString => []
      | String _ r =>
          match try_url s with
          | Some (m, rest) => m :: url_scan f rest
          | None => url_scan f r
          end
      end
  end.

Definition parseUrlsOutput (output : string) : list jsval :=
  if String.eqb output "" then [] else
  map JStr (filter (fun u => (0 <? String.length u) && (String.length u <? 2048))
                   (map trim (url_scan (S (String.length output)) output))).

(** [this.emailRegex = /[a-zA-Z0-9._%+-]+@[a-zA-Z0-9.-]+\.[a-zA-Z]{2,}/g].
    The local part is the maximal run of local characters and must be
    followed by [@]; in the host part the greedy [[a-zA-Z0-9.-]+] backs off
    to the last dot that is followed by two or more letters. *)
Definition local_char (c : ascii) : bool :=
  is_alnum c || Ascii.eqb c "." || Ascii.eqb c "_" || Ascii.eqb c "%"
  || Ascii.eqb c "+" || Ascii.eqb c "-".

Fixpoint take_while (p : ascii -> bool) (s : string) : string * string :=
  match s with
  | EmptyString => (EmptyString, EmptyString)
  | String c r =>
      if p c then let (run, rest) := take_while p r in (String c run, rest)
      else (EmptyString, s)
  end.

(** Length of the host part matched from the run [h] of host characters:
    the largest [p + 1 + k] with [1 <= p], [h[p] = '.'] and [k >= 2] letters
    after it. *)
Fixpoint host_end (h : string) (p : nat) : option nat :=
  let try_at (q : nat) :=
    match get q h with
    | Some c =>
        if Ascii.eqb c "." then
          let k := String.length (fst (take_while is_alpha
                      (substring (S q) (String.length h) h))) in
          if 2 <=? k then Some (S q + k) else None
        else None
    | None => None
    end in
  match p with
  | O => None
  | S q => match try_at p with Some e => Some e | None => host_end h q end
  end.

Definition try_email (s : string) : option (string * string) :=
  let (loc, rest) := take_while local_char s in
  match loc, rest with
  | String _ _, String at_ r =>
      if Ascii.eqb at_ "@" then
        let (h, _) := take_while domain_char r in
        match host_end h (String.length h - 1) with
        | Some e => Some ((loc ++ "@" ++ substring 0 e h)%string,
                          substring e (String.length r) r)
        | None => None
        end
      else None
  | _, _ => None
  end.

Fixpoint email_scan (fuel : nat) (s : string) : list string :=
  match fuel with
  | O => []
  | S f =>
      match s with
      | EmptyString => []
      | String _ r =>
          match try_email s with
          | Some (m, rest) => m :: email_scan f rest
          | None => email_scan f r
          end
      end
  end.

Definition parseEmailsOutput (output : string) : list jsval :=
  if String.eqb output "" then [] else
  map JStr (filter (fun e => (0 <? String.length e) && (String.length e <? 320))
                   (map (fun e => trim (toLowerCase e))
                        (email_scan (S (String.length output)) output))).

Definition parseIPsOutput (output : string) : list jsval :=
  if String.eqb output "" then [] else
  map JStr (filter (fun line => negb (String.eqb line "") && ipRegex_test line)
                   (trimmed_lines output)).

Definition parseTextOutput (output : string) : list jsval :=
  if String.eqb output "" then [] else
  map JStr (filter (fun line => 0 <? String.length line) (trimmed_lines output)).

End ResultProcessor.

Module Pipeline.
Import JsString Js ResultProcessor.

Section Pipeline.

(** [JSON.parse]: [None] when it throws a SyntaxError. *)
Variable JSON_parse : string -> option jsval.
(** [String.prototype.localeCompare], which depends on the host locale. *)
Variable localeCompare : string -> string -> Z.

(** [parseJsonOutput(output)] *)
Definition parseJsonOutput (output : string) : list jsval :=
  if String.eqb output "" then [] else
  match JSON_parse output with
  | None => parseTextOutput output
  | Some (JArr _ es) => es
  | Some ((JObj _ _ | JNull) as parsed) => [parsed]   (* typeof null === 'object' *)
  | Some _ => []
  end.

Definition is_string (v : jsval) : bool :=
  match v with JStr _ => true | _ => false end.

(** [validateResults(results, outputType, domain)]; [results] is always
    an array where it is called, so the [Array.isArray] guard is passed. *)
Definition validateResults (results : list jsval) (outputType domain : jsval)
  : Exc (list jsval) :=
  if is_str outputType "domains" then
    filterM (fun r => match r with
                      | JStr s =>
                          if includes s "." then
                            d <- ToString domain ;;
                            ret (includes s d && domainRegex_test s)
                          else ret false
                      | _ => ret false
                      end) results
  else if is_str outputType "urls" then
    ret (filter (fun r => match r with
                          | JStr s => startsWith s "http://" || startsWith s "https://"
                          | _ => false end) results)
  else if is_str outputType "emails" then
    ret (filter (fun r => match r with
                          | JStr s => includes s "@" && includes s "."
                          | _ => false end) results)
  else if is_str outputType "ips" then
    ret (filter (fun r => match r with
                          | JStr s => ipRegex_test s
                          | _ => false end) results)
  else
    ret (filter (fun r => match r with
                          | JStr s => 0 <? String.length s
                          | _ => false end) results).

(** [deduplicateResults(results)] = [[...new Set(results)]]: a [Set] keeps
    the first insertion of each value and iterates in insertion order. *)
Definition set_add (acc : list jsval) (x : jsval) : list jsval :=
  if existsb (sameValueZero x) acc then acc else acc ++ [x].
Definition deduplicateResults (results : list jsval) : list jsval :=
  fold_left set_add results [].

(** [Array.prototype.sort(cmp)], a stable sort: each element is inserted
    after every element that does not compare greater than it. *)
Fixpoint insert_by {A} (cmp : A -> A -> Z) (x : A) (l : list A) : list A :=
  match l with
  | [] => [x]
  | y :: r => if (0 <? cmp y x)%Z then x :: l else y :: insert_by cmp x r
  end.
Definition sort_by {A} (cmp : A -> A -> Z) (l : list A) : list A :=
  fold_left (fun acc x => insert_by cmp x acc) l [].

(** Code-unit order of two strings, as the default [sort] uses. *)
Fixpoint code_unit_compare (a b : string) : Z :=
  match a, b with
  | EmptyString, EmptyString => 0%Z
  | EmptyString, _ => (-1)%Z
  | _, EmptyString => 1%Z
  | String x a', String y b' =>
      if code x <? code y then (-1)%Z else if code y <? code x then 1%Z
      else code_unit_compare a' b'
  end.

(** [results.sort()]: [undefined] goes last; the others are compared by
    their [ToString] (computed once two or more of them are compared). *)
Definition default_sort (results : list jsval) : Exc (list jsval) :=
  let undefs := filter (fun v => match v with JUndef => true | _ => false end) results in
  let defined := filter (fun v => match v with JUndef => false | _ => true end) results in
  match defined with
  | [] | [_] => ret (defined ++ undefs)
  | _ =>
      keyed <- mapM (fun v => s <- ToString v ;; ret (s, v)) defined ;;
      ret (map snd (sort_by (fun a b => code_unit_compare (fst a) (fst b)) keyed)
           ++ undefs)
  end.

(** The comparator for [domains]: length first, then [localeCompare].
    Results of type [domains] are strings. *)
Definition domains_cmp (a b : jsval) : Z :=
  match a, b with
  | JStr x, JStr y =>
      if negb (String.length x =? String.length y) then
        (Z.of_nat (String.length x) - Z.of_nat (String.length y))%Z
      else localeCompare x y
  | _, _ => 0%Z
  end.

(** [parseInt(num, 10)]: leading white space, optional sign, the longest
    prefix of decimal digits; [None] is NaN. *)
Definition parseInt10 (s : string) : option Z :=
  let t := trim s in
  let '(sign, body) :=
    match t with
    | String c r => if Ascii.eqb c "-" then ((-1)%Z, r)
                    else if Ascii.eqb c "+" then (1%Z, r) else (1%Z, t)
    | EmptyString => (1%Z, t)
    end in
  let ds := fst (take_while is_digit body) in
  match ds with
  | EmptyString => None
  | _ => option_map (Z.mul sign) (digits_value ds 0)
  end.

(** [.toString().padStart(3, '0')] of a parsed octet. *)
Definition pad3 (s : string) : string :=
  (match 3 - String.length s with
   | 0 => "" | 1 => "0" | 2 => "00" | _ => "000" end ++ s)%string.
Definition octet_key (num : string) : string :=
  pad3 (match parseInt10 num with Some z => Z_to_string z | None => "NaN" end).
Definition ip_key (a : string) : string :=
  fold_right String.append "" (map octet_key (split_char "." a)).

Definition ips_cmp (a b : jsval) : Z :=
  match a, b with
  | JStr x, JStr y => localeCompare (ip_key x) (ip_key y)
  | _, _ => 0%Z
  end.

(** [sortResults(results, outputType)] *)
Definition sortResults (results : list jsval) (outputType : jsval)
  : Exc (list jsval) :=
  if is_str outputType "domains" then ret (sort_by domains_cmp results)
  else if is_str outputType "ips" then ret (sort_by ips_cmp results)
  else default_sort results.

(** The object returned by [processResults] (its timing [metadata] left
    out). *)
Record PipelineResult : Type := {
  pr_tool : string;
  pr_domain : jsval;
  pr_results : list jsval;
  pr_count : nat;
  pr_outputType : option jsval;
  pr_processed : bool;
  pr_error : option string
}.

(** [createEmptyResult(tool, domain)] *)
Definition createEmptyResult (tool : string) (domain : jsval) : PipelineResult :=
  {| pr_tool := tool; pr_domain := domain; pr_results := []; pr_count := 0;
     pr_outputType := None; pr_processed := true; pr_error := None |}.

(** The [switch (outputType)] on the parsers. *)
Definition parse_by_type (outputType : jsval) (raw : string) (domain : jsval)
  : Exc (list jsval) :=
  if is_str outputType "domains" then parseDomainsOutput raw domain
  else if is_str outputType "urls" then ret (parseUrlsOutput raw)
  else if is_str outputType "emails" then ret (parseEmailsOutput raw)
  else if is_str outputType "ips" then ret (parseIPsOutput raw)
  else if is_str outputType "json" then ret (parseJsonOutput raw)
  else ret (parseTextOutput raw).

(** [results.slice(0, n)] with [n] already converted by [ToNumber]. *)
Definition slice_to (results : list jsval) (n : option Z) : list jsval :=
  let len := Z.of_nat (length results) in
  let e := match n with
           | None => 0%Z
           | Some k => if (k <? 0)%Z then Z.max (len + k) 0 else Z.min k len
           end in
  firstn (Z.to_nat e) results.

(** [if (maxResults && results.length > maxResults) results = results.slice(0, maxResults)] *)
Definition truncate (results : list jsval) (maxResults : jsval) : Exc (list jsval) :=
  if truthy maxResults then
    n <- ToNumber maxResults ;;
    match n with
    | Some k => if (k <? Z.of_nat (length results))%Z
                then n' <- ToNumber maxResults ;; ret (slice_to results n')
                else ret results
    | None => ret results
    end
  else ret results.

Definition with_default (v d : jsval) : jsval :=
  match v with JUndef => d | _ => v end.

(** The body of the [try] block of [processResults]. *)
Definition process_body (tool : string) (rawOutput domain : jsval)
  (outputType maxResults deduplicate validate sort : jsval) : Exc PipelineResult :=
  match rawOutput with
  | JStr raw =>
      if String.eqb raw "" then ret (createEmptyResult tool domain) else
      results <- parse_by_type outputType raw domain ;;
      results <- (if truthy validate then validateResults results outputType domain
                  else ret results) ;;
      let results := if truthy deduplicate then deduplicateResults results
                     else results in
      results <- (if truthy sort then sortResults results outputType
                  else ret results) ;;
      results <- truncate results maxResults ;;
      ret {| pr_tool := tool; pr_domain := domain; pr_results := results;
             pr_count := length results; pr_outputType := Some outputType;
             pr_processed := true; pr_error := None |}
  | _ => ret (createEmptyResult tool domain)
  end.

Definition destructure_null_error : string :=
  "Cannot read properties of null (reading 'outputType')".

(** [processResults(tool, rawOutput, domain, options = {})]: the
    destructuring of [options] precedes the [try]; the [catch] turns an
    exception of the body into an empty, unprocessed result. *)
Definition processResults (tool : string) (rawOutput domain options : jsval)
  : Exc PipelineResult :=
  match options with
  | JNull => throw destructure_null_error
  | _ =>
      let outputType := with_default (get_prop options "outputType") (JStr "domains") in
      let maxResults := with_default (get_prop options "maxResults") (JNum 10000) in
      let deduplicate := with_default (get_prop options "deduplicate") (JBool true) in
      let validate := with_default (get_prop options "validate") (JBool true) in
      let sort := with_default (get_prop options "sort") (JBool true) in
      match process_body tool rawOutput domain outputType maxResults
                         deduplicate validate sort with
      | inr r => ret r
      | inl msg =>
          ret {| pr_tool := tool; pr_domain := domain; pr_results := [];
                 pr_count := 0; pr_outputType := None; pr_processed := false;
                 pr_error := Some msg |}
      end
  end.

End Pipeline.
End Pipeline.

(* ------------------------------------------------------------------ *)
(** ** The execution engine: [src/services/execution/ToolExecutor.js] *)

Module ToolExecutor.
Import JsString Js.

Definition dq : string := String (ascii_of_nat 34) EmptyString.

(** A tool configuration object.  Every key is optional, as in the object
    literals of the registry: a fallback only lists the keys it overrides. *)
Inductive ToolSpec : Type :=
  mkSpec (command : option string) (args : option (list string))
         (category : option string) (timeout : option Z)
         (outputType : option string) (description : option string)
         (fallback : option ToolSpec).

Definition spec_command (t : ToolSpec) := let '(mkSpec c _ _ _ _ _ _) := t in c.
Definition spec_args (t : ToolSpec) := let '(mkSpec _ a _ _ _ _ _) := t in a.
Definition spec_timeout (t : ToolSpec) := let '(mkSpec _ _ _ tm _ _ _) := t in tm.
Definition spec_outputType (t : ToolSpec) := let '(mkSpec _ _ _ _ o _ _) := t in o.
Definition spec_fallback (t : ToolSpec) := let '(mkSpec _ _ _ _ _ _ f) := t in f.

Definition override {A} (top base : option A) : option A :=
  match top with Some _ => top | None => base end.

(** [{ ...toolConfig, ...toolConfig.fallback }]: the keys of the fallback
    replace those of the primary configuration. *)
Definition merge_spec (primary fb : ToolSpec) : ToolSpec :=
  let '(mkSpec c a cat tm o d f) := primary in
  let '(mkSpec c' a' cat' tm' o' d' f') := fb in
  mkSpec (override c' c) (override a' a) (override cat' cat) (override tm' tm)
         (override o' o) (override d' d) (override f' f).

(** The [toolConfigs] table of [getToolConfiguration]. *)
Definition toolConfigs : list (string * ToolSpec) := [
  ("subfinder", mkSpec
      (Some "subfinder")
      (Some ["-d"; "{domain}"; "-all"; "'-r"; "-o"; "{outputFile}"])
      (Some "subdomain")
      (Some 180000%Z)
      (Some "domains")
      (None)
      (Some (mkSpec
      (None)
      (None)
      (None)
      (None)
      (None)
      (Some "Not working")
      (None))));
  ("assetfinder", mkSpec
      (Some "assetfinder")
      (Some ["--subs-only"; "{domain}"])
      (Some "subdomain")
      (Some 120000%Z)
      (Some "domains")
      (None)
      (None));
  ("amass", mkSpec
      (Some "amass")
      (Some ["enum"; "-passive"; "-d"; "{domain}"; "-o"; "{outputFile}"])
      (Some "subdomain")
      (Some 300000%Z)
      (Some "domains")
      (None)
      (None));
  ("findomain", mkSpec
      (Some "findomain")
      (Some ["-t"; "{domain}"; "-o"])
      (Some "subdomain")
      (Some 120000%Z)
      (Some "domains")
      (None)
      (None));
  ("sublist3r", mkSpec
      (Some "sublist3r")
      (Some ["-d"; "{domain}"; "-o"; "{outputFile}"])
      (Some "subdomain")
      (Some 180000%Z)
      (Some "domains")
      (None)
      (None));
  ("theharvester", mkSpec
      (Some "theHarvester")
      (Some ["-d"; "{domain}"; "-b"; "all"; "-f"; "{outputFile}"])
      (Some "subdomain")
      (Some 240000%Z)
      (Some "domains")
      (None)
      (None));
  ("crtsh", mkSpec
      (Some "curl")
      (Some ["-s"; "https://crt.sh/?q=%.{domain}&output=json"])
      (Some "subdomain")
      (Some 60000%Z)
      (Some "domains")
      (None)
      (None));
  ("gobuster", mkSpec
      (Some "gobuster")
      (Some ["dns"; "-d"; "{domain}"; "-w"; "/usr/share/wordlists/subdomains.txt"; "-o"; "{outputFile}"])
      (Some "active")
      (Some 300000%Z)
      (Some "domains")
      (None)
      (None));
  ("ffuf", mkSpec
      (Some "ffuf")
      (Some ["-w"; "/usr/share/wordlists/subdomains.txt"; "-u"; "http://FUZZ.{domain}"; "-o"; "{outputFile}"])
      (Some "active")
      (Some 240000%Z)
      (Some "domains")
      (None)
      (None));
  ("dig", mkSpec
      (Some "dig")
      (Some ["{domain}"; "ANY"; "+noall"; "+answer"])
      (Some "dns")
      (Some 30000%Z)
      (Some "text")
      (None)
      (None));
  ("whois", mkSpec
      (Some "whois")
      (Some ["{domain}"])
      (Some "dns")
      (Some 30000%Z)
      (Some "text")
      (None)
      (None));
  ("nslookup", mkSpec
      (Some "nslookup")
      (Some ["{domain}"])
      (Some "dns")
      (Some 30000%Z)
      (Some "text")
      (None)
      (Some (mkSpec
      (Some "sh")
      (Some ["-c"; "dig +short {domain} A > {outputFile} && dig +short {domain} AAAA >> {outputFile} && dig +short {domain} MX >> {outputFile} && dig +short {domain} NS >> {outputFile} && dig +short {domain} TXT >> {outputFile}"])
      (None)
      (None)
      (None)
      (None)
      (None))));
  ("host", mkSpec
      (Some "host")
      (Some ["{domain}"])
      (Some "dns")
      (Some 30000%Z)
      (Some "text")
      (None)
      (Some (mkSpec
      (Some "sh")
      (Some ["-c"; ("dig +short {domain} A | while read ip; do echo " ++ dq ++ "{domain} has address $ip" ++ dq ++ "; done > {outputFile} && dig +short {domain} MX | while read mx; do echo " ++ dq ++ "{domain} mail is handled by $mx" ++ dq ++ "; done >> {outputFile}")%string])
      (None)
      (None)
      (None)
      (None)
      (None))));
  ("linkfinder", mkSpec
      (Some "linkfinder")
      (Some ["-i"; "https://{domain}"; "-o"; "cli"])
      (Some "javascript")
      (Some 120000%Z)
      (Some "text")
      (None)
      (Some (mkSpec
      (Some "sh")
      (Some ["-c"; ("curl -s " ++ dq ++ "https://{domain}" ++ dq ++ " | grep -oE 'https?://[^" ++ dq ++ "\s<>]+' | sort -u > {outputFile} && curl -s " ++ dq ++ "https://{domain}/robots.txt" ++ dq ++ " | grep -E '^(Allow|Disallow):' | cut -d':' -f2 | sed 's/^ *//' >> {outputFile} && curl -s " ++ dq ++ "https://{domain}/sitemap.xml" ++ dq ++ " | grep -oE '<loc>[^<]+</loc>' | sed 's/<[^>]*>//g' >> {outputFile}")%string])
      (None)
      (None)
      (None)
      (None)
      (None))));
  ("jsparser", mkSpec
      (Some "jsparser")
      (Some ["-u"; "https://{domain}"])
      (Some "javascript")
      (Some 90000%Z)
      (Some "text")
      (None)
      (Some (mkSpec
      (Some "sh")
      (Some ["-c"; ("curl -s " ++ dq ++ "https://{domain}" ++ dq ++ " | grep -oE 'src=" ++ dq ++ "[^" ++ dq ++ "]*\.js[^" ++ dq ++ "]*" ++ dq ++ "' | cut -d'" ++ dq ++ "' -f2 > {outputFile} && curl -s " ++ dq ++ "https://{domain}" ++ dq ++ " | grep -oE 'href=" ++ dq ++ "[^" ++ dq ++ "]*\.js[^" ++ dq ++ "]*" ++ dq ++ "' | cut -d'" ++ dq ++ "' -f2 >> {outputFile} && curl -s " ++ dq ++ "https://{domain}" ++ dq ++ " | grep -oE 'https?://[^" ++ dq ++ "\s<>]+\.js' >> {outputFile}")%string])
      (None)
      (None)
      (None)
      (None)
      (None))));
  ("shodan", mkSpec
      (Some "shodan")
      (Some ["host"; "{domain}"])
      (Some "osint")
      (Some 60000%Z)
      (Some "text")
      (None)
      (Some (mkSpec
      (Some "sh")
      (Some ["-c"; ("curl -s " ++ dq ++ "https://api.shodan.io/shodan/host/search?key=demo&query={domain}" ++ dq ++ " | grep -oE '" ++ dq ++ "ip_str" ++ dq ++ ":" ++ dq ++ "[^" ++ dq ++ "]*" ++ dq ++ "' | cut -d'" ++ dq ++ "' -f4 > {outputFile} && dig +short {domain} A >> {outputFile} && whois {domain} | grep -E '^(Organization|OrgName|org-name):' >> {outputFile}")%string])
      (None)
      (None)
      (None)
      (None)
      (None))));
  ("spiderfoot", mkSpec
      (Some "spiderfoot")
      (Some ["-s"; "{domain}"; "-t"; "SUBDOMAIN"])
      (Some "osint")
      (Some 180000%Z)
      (Some "text")
      (None)
      (Some (mkSpec
      (Some "sh")
      (Some ["-c"; ("dig +short {domain} NS > {outputFile} && dig +short {domain} MX >> {outputFile} && dig +short {domain} A >> {outputFile} && whois {domain} | head -20 >> {outputFile} && curl -s " ++ dq ++ "https://api.hackertarget.com/reverseiplookup/?q={domain}" ++ dq ++ " >> {outputFile}")%string])
      (None)
      (None)
      (None)
      (None)
      (None))))
].

Fixpoint lookup_tool (k : string) (t : list (string * ToolSpec)) : option ToolSpec :=
  match t with
  | [] => None
  | (k', v) :: r => if String.eqb k k' then Some v else lookup_tool k r
  end.

(** Keys every object inherits from [Object.prototype]: [toolConfigs[tool]]
    is then a truthy value with none of the keys of a tool configuration. *)
Definition object_prototype_keys : list string :=
  ["constructor"; "__proto__"; "toString"; "toLocaleString"; "valueOf";
   "hasOwnProperty"; "isPrototypeOf"; "propertyIsEnumerable";
   "__defineGetter__"; "__defineSetter__"; "__lookupGetter__"; "__lookupSetter__"].

Definition empty_spec : ToolSpec := mkSpec None None None None None None None.

(** [getToolConfiguration(tool)] *)
Definition getToolConfiguration (tool : string) : Exc ToolSpec :=
  match lookup_tool tool toolConfigs with
  | Some c => ret c
  | None =>
      if existsb (String.eqb tool) object_prototype_keys then ret empty_spec
      else throw ("Unknown tool: " ++ tool)%string
  end.

(** [/^(?:[a-zA-Z0-9](?:[a-zA-Z0-9-]{0,61}[a-zA-Z0-9])?\.)*[a-zA-Z0-9](?:[a-zA-Z0-9-]{0,61}[a-zA-Z0-9])?$/]:
    dot-separated labels of 1 to 63 letters, digits or hyphens that begin
    and end with a letter or digit. *)
Definition label_ok (l : string) : bool :=
  let n := String.length l in
  (1 <=? n) && (n <=? 63) &&
  all_chars (fun c => is_alnum c || Ascii.eqb c "-") l &&
  match get 0 l, get (n - 1) l with
  | Some a, Some b => is_alnum a && is_alnum b
  | _, _ => false
  end.
Definition validate_domainRegex (d : string) : bool :=
  forallb label_ok (split_char "." d).

(** The [maliciousPatterns]: [/[;&|`$(){}[\]]/], [/\.\./] and [/\x00/]. *)
Definition shell_char (c : ascii) : bool :=
  existsb (Ascii.eqb c) [";"; "&"; "|"; "`"; "$"; "("; ")"; "{"; "}"; "["; "]"]%char.
Definition malicious (s : string) : bool :=
  negb (all_chars (fun c => negb (shell_char c)) s) || includes s ".."
  || negb (all_chars (fun c => negb (Nat.eqb (code c) 0)) s).

(** [validateInputs(tool, domain, options)] (names as strings; an empty
    string is falsy). *)
Definition validateInputs (tool domain : string) : Exc unit :=
  if String.eqb tool "" then throw "Invalid tool name"
  else if String.eqb domain "" then throw "Invalid domain"
  else if negb (validate_domainRegex domain) then throw "Invalid domain format"
  else if malicious domain || malicious tool then
    throw "Potentially malicious input detected"
  else ret tt.

(** [s.replace(new RegExp(`{key}`, 'g'), value)]: [{key}] is read as a
    literal; the values substituted here contain no [$]. *)
Fixpoint replace_all_fuel (fuel : nat) (pat rep s : string) : string :=
  match fuel with
  | O => s
  | S f =>
      if String.prefix pat s then
        (rep ++ replace_all_fuel f pat rep
                  (substring (String.length pat) (String.length s) s))%string
      else match s with
           | EmptyString => EmptyString
           | String c r => String c (replace_all_fuel f pat rep r)
           end
  end.
Definition replace_all (pat rep s : string) : string :=
  replace_all_fuel (S (String.length s)) pat rep s.

Definition undefined_map_error : string :=
  "Cannot read properties of undefined (reading 'map')".

(** [processCommandArgs(args, { domain, outputFile, executionId })] *)
Definition processCommandArgs (args : option (list string))
  (domain outputFile executionId : string) : Exc (list string) :=
  match args with
  | None => throw undefined_map_error
  | Some a =>
      ret (map (fun arg =>
             replace_all "{executionId}" executionId
               (replace_all "{outputFile}" outputFile
                  (replace_all "{domain}" domain arg))) a)
  end.

(** The files of the results directory: path and contents. *)
Definition FS : Type := list (string * string).

Fixpoint fs_read (fs : FS) (p : string) : option string :=
  match fs with
  | [] => None
  | (q, c) :: r => if String.eqb p q then Some c else fs_read r p
  end.
Definition fs_remove (fs : FS) (p : string) : FS :=
  filter (fun e => negb (String.eqb (fst e) p)) fs.
Definition fs_write (fs : FS) (p c : string) : FS := (p, c) :: fs_remove fs p.
Definition fs_exists (fs : FS) (p : string) : bool :=
  match fs_read fs p with Some _ => true | None => false end.

(** What a spawned process does, as far as [runTool] can observe it:
    - [SpawnError errno msg]: the [error] event (the binary cannot be
      started), which the child follows with [close] and the exit code
      [errno], the negative error number ([-2] for [ENOENT]);
    - [Exit code out file]: the [close] event before the timeout, with the
      captured stdout and, when the process created it, the output file;
    - [Overrun file]: still running when the timeout fires, having written
      the output file or not. *)
Inductive Proc : Type :=
| SpawnError (errno : Z) (msg : string)
| Exit (code : Z) (stdout : string) (file : option string)
| Overrun (file : option string).

(** The execution context of one [executeSingleTool] call. *)
Record Context : Type := {
  ctx_tool : string;
  ctx_domain : string;
  ctx_executionId : string;
  ctx_outputFile : string;
  ctx_fallbackAttempted : bool
}.

Definition set_fallbackAttempted (c : Context) : Context :=
  {| ctx_tool := ctx_tool c; ctx_domain := ctx_domain c;
     ctx_executionId := ctx_executionId c; ctx_outputFile := ctx_outputFile c;
     ctx_fallbackAttempted := true |}.

(** The value [runTool] resolves with (signal and stderr left out). *)
Record RunOutput : Type := {
  ro_code : Z;
  ro_stdout : string;
  ro_output : string;
  ro_outputFile : string
}.

(** [config.execution.timeout] *)
Definition default_timeout : Z := 300000.

Definition spawn_type_error : string :=
  ("The " ++ dq ++ "file" ++ dq ++ " argument must be of type string. Received undefined")%string.

Section Runner.

(** The operating system: what the process spawned with a command and an
    argument vector does. *)
Variable os : string -> list string -> Proc.

(** Whether [runTool(cfg, ctx)] leaves a process running: its arguments
    are built, its command is a string and the spawn does not fail.
    Otherwise its promise rejects at once (a thrown [processCommandArgs],
    a [spawn] that throws, or the [error] event on the next tick). *)
Definition starts_process (cfg : ToolSpec) (ctx : Context) : bool :=
  match processCommandArgs (spec_args cfg) (ctx_domain ctx) (ctx_outputFile ctx)
          (ctx_executionId ctx) with
  | inl _ => false
  | inr args =>
      match spec_command cfg with
      | None => false
      | Some cmd => match os cmd args with SpawnError _ _ => false | _ => true end
      end
  end.

(** [runTool(toolConfig, context)].  Besides the settled promise and the
    files, it returns the [(command, args)] of every [spawn] it made.  The
    [fuel] bounds the recursive fallback call; two levels always suffice
    ([runTool_fuel_stable]).

    On a spawn error with a fallback, the [error] handler starts the
    fallback and hands its promise to [resolve]/[reject]; the failed
    primary child then emits [close] with its [errno], and that handler
    resolves the same promise after reading the output file.  A fallback
    that rejects at once (see [starts_process]) settles the promise first.
    A fallback that starts a process is still running when the primary's
    [close] handler resolves with the code [errno], the empty stdout and
    the output file as it is then (or the empty stdout when there is
    none); the file system returned is the one at that moment. *)
Fixpoint runTool_fuel (fuel : nat) (cfg : ToolSpec) (ctx : Context) (fs : FS)
  : Exc RunOutput * Context * FS * list (string * list string) :=
  match fuel with
  | O => (throw "fuel", ctx, fs, [])
  | S f =>
      match processCommandArgs (spec_args cfg) (ctx_domain ctx)
              (ctx_outputFile ctx) (ctx_executionId ctx) with
      | inl e => (inl e, ctx, fs, [])
      | inr args =>
          let tmo := match spec_timeout cfg with
                     | Some t => if (t =? 0)%Z then default_timeout else t
                     | None => default_timeout
                     end in
          match spec_command cfg with
          | None => (throw spawn_type_error, ctx, fs, [])
          | Some cmd =>
              let here := [(cmd, args)] in
              match os cmd args with
              | SpawnError errno msg =>
                  match spec_fallback cfg with
                  | Some fb =>
                      if negb (ctx_fallbackAttempted ctx) then
                        let '(r, ctx', fs', tr) :=
                          runTool_fuel f (merge_spec cfg fb)
                                       (set_fallbackAttempted ctx) fs in
                        if starts_process (merge_spec cfg fb) (set_fallbackAttempted ctx)
                        then
                          let output := match fs_read fs (ctx_outputFile ctx) with
                                        | Some c => c
                                        | None => EmptyString
                                        end in
                          (ret {| ro_code := errno; ro_stdout := EmptyString;
                                  ro_output := output; ro_outputFile := ctx_outputFile ctx |},
                           ctx', fs, here ++ tr)
                        else (r, ctx', fs', here ++ tr)
                      else (throw msg, ctx, fs, here)
                  | None => (throw msg, ctx, fs, here)
                  end
              | Exit code out file =>
                  let fs' := match file with
                             | Some c => fs_write fs (ctx_outputFile ctx) c
                             | None => fs end in
                  let output := match fs_read fs' (ctx_outputFile ctx) with
                                | Some c => c     (* fs.readFile succeeded *)
                                | None => out     (* no file: stdout *)
                                end in
                  (ret {| ro_code := code; ro_stdout := out; ro_output := output;
                          ro_outputFile := ctx_outputFile ctx |}, ctx, fs', here)
              | Overrun file =>
                  let fs' := match file with
                             | Some c => fs_write fs (ctx_outputFile ctx) c
                             | None => fs end in
                  (throw ("Tool execution timeout after " ++ Z_to_string tmo ++ "ms")%string,
                   ctx, fs', here)
              end
          end
      end
  end.

Definition runTool (cfg : ToolSpec) (ctx : Context) (fs : FS) :=
  runTool_fuel 2 cfg ctx fs.

End Runner.

(** [ToolExecutor.parseTextOutput(output)] *)
Definition parseTextOutput (output : string) : list string :=
  if String.eqb output "" then [] else
  filter (fun line => 0 <? String.length line) (ResultProcessor.trimmed_lines output).

Definition tab : ascii := ascii_of_nat 9.

Fixpoint find_str (p : string -> bool) (l : list string) : option string :=
  match l with
  | [] => None
  | x :: r => if p x then Some x else find_str p r
  end.

(** The domain candidate of a line: the first tab-separated field, or,
    when the line has a space, the first space-separated part containing a
    dot and the base domain ([parts[0]] when there is none). *)
Definition extract_domain (line baseDomain : string) : string :=
  let d := if includes line (String tab EmptyString)
           then hd EmptyString (split_char tab line) else line in
  if includes line " " then
    let parts := split_char " " line in
    match find_str (fun part => includes part "." && includes part baseDomain) parts with
    | Some x => if String.eqb x "" then hd EmptyString parts else x
    | None => hd EmptyString parts
    end
  else d.

(** [.replace(/[\[\](){}]/g, '').replace(/^[^a-zA-Z0-9]+/, '').replace(/[^a-zA-Z0-9.-]+$/, '')] *)
Fixpoint remove_brackets (s : string) : string :=
  match s with
  | EmptyString => EmptyString
  | String c r =>
      if existsb (Ascii.eqb c) ["["; "]"; "("; ")"; "{"; "}"]%char
      then remove_brackets r else String c (remove_brackets r)
  end.
Fixpoint drop_while (p : ascii -> bool) (s : string) : string :=
  match s with
  | EmptyString => EmptyString
  | String c r => if p c then drop_while p r else s
  end.
Definition rev_string (s : string) : string :=
  string_of_list_ascii (rev (list_ascii_of_string s)).
Definition clean_domain (d : string) : string :=
  let d1 := remove_brackets d in
  let d2 := drop_while (fun c => negb (is_alnum c)) d1 in
  rev_string (drop_while (fun c => negb (domain_char c)) (rev_string d2)).

Definition noise_tokens : list string :=
  ["Found"; "Error"; "timeout"; "connection"; "failed"; "not found"].

Definition keep_domain_line (baseDomain line : string) : bool :=
  if String.eqb line "" || startsWith line "#" || startsWith line "//"
     || startsWith line ";" then false
  else if existsb (includes line) noise_tokens then false
  else
    let domain := clean_domain (extract_domain line baseDomain) in
    includes domain "." &&
    (includes domain baseDomain || endsWith domain ("." ++ baseDomain)) &&
    (3 <? String.length domain) && domainRegex_test domain &&
    negb (startsWith domain ".") && negb (endsWith domain ".").

(** [.filter((domain, index, arr) => arr.indexOf(domain) === index)] *)
Definition first_occurrences (l : list string) : list string :=
  fold_left (fun acc x => if existsb (String.eqb x) acc then acc else acc ++ [x]) l [].

(** [ToolExecutor.parseDomainsOutput(output, baseDomain)], ending with the
    default [sort()] on strings (code-unit order). *)
Definition parseDomainsOutput (output baseDomain : string) : list string :=
  if String.eqb output "" then [] else
  Pipeline.sort_by Pipeline.code_unit_compare
    (first_occurrences
       (map (fun line => clean_domain (extract_domain line baseDomain))
            (filter (keep_domain_line baseDomain)
                    (ResultProcessor.trimmed_lines output)))).

(** The object [ToolExecutor.processResults] resolves with ([metadata]
    reduced to the output type). *)
Record Processed : Type := {
  pd_results : list string;
  pd_count : nat;
  pd_rawOutput : string;
  pd_outputType : option string;
  pd_error : option string
}.

(** [processResults(tool, result, context)]: parse by the declared output
    type, then [fs.unlink(outputFile)] (a failing unlink is only logged). *)
Definition processResults (tool : string) (result : RunOutput) (ctx : Context)
  (fs : FS) : Processed * FS :=
  let output := ro_output result in
  match getToolConfiguration tool with
  | inr cfg =>
      let parsed :=
        match spec_outputType cfg with
        | Some o => if String.eqb o "domains"
                    then parseDomainsOutput output (ctx_domain ctx)
                    else parseTextOutput output
        | None => parseTextOutput output
        end in
      let fs' := fs_remove fs (ro_outputFile result) in
      ({| pd_results := parsed; pd_count := length parsed; pd_rawOutput := output;
          pd_outputType := spec_outputType cfg; pd_error := None |}, fs')
  | inl msg =>
      ({| pd_results := []; pd_count := 0; pd_rawOutput := output;
          pd_outputType := None; pd_error := Some msg |}, fs)
  end.

(** A per-tool result object as [executeMultipleTools] collects it; a key
    the object lacks is [None]. *)
Record ToolResult : Type := {
  tr_success : bool;
  tr_tool : option string;
  tr_domain : option string;
  tr_results : list string;
  tr_count : option nat;
  tr_rawOutput : option string;
  tr_error : option string
}.

(** [createExecutionContext]: the output file
    [path.join(config.paths.results, `${tool}_${domain}_${timestamp}_${executionId}.txt`)]. *)
Definition createExecutionContext (results_dir tool domain executionId : string)
  (timestamp : Z) : Context :=
  {| ctx_tool := tool; ctx_domain := domain; ctx_executionId := executionId;
     ctx_outputFile := (results_dir ++ "/" ++ tool ++ "_" ++ domain ++ "_"
                        ++ Z_to_string timestamp ++ "_" ++ executionId ++ ".txt")%string;
     ctx_fallbackAttempted := false |}.

Section Driver.

Variable os : string -> list string -> Proc.
(** [config.paths.results] *)
Variable results_dir : string.

(** [executeSingleTool(tool, domain, options, parentExecutionId)] after
    its execution slot is acquired; [executionId] and [timestamp] are the
    values it generates.  The [catch] builds a failure object with
    [results: []] and no [count]. *)
Definition executeSingleTool (tool domain executionId : string) (timestamp : Z)
  (fs : FS) : ToolResult * FS :=
  let fail (msg : string) (fs0 : FS) :=
    ({| tr_success := false; tr_tool := Some tool; tr_domain := Some domain;
        tr_results := []; tr_count := None; tr_rawOutput := None;
        tr_error := Some msg |}, fs0) in
  match getToolConfiguration tool with
  | inl msg => fail msg fs
  | inr cfg =>
      match validateInputs tool domain with
      | inl msg => fail msg fs
      | inr _ =>
          let ctx := createExecutionContext results_dir tool domain executionId timestamp in
          let '(r, ctx', fs1, _) := runTool os cfg ctx fs in
          match r with
          | inl msg => fail msg fs1
          | inr result =>
              let '(pd, fs2) := processResults tool result ctx' fs1 in
              ({| tr_success := true; tr_tool := Some tool; tr_domain := Some domain;
                  tr_results := pd_results pd; tr_count := Some (pd_count pd);
                  tr_rawOutput := Some (pd_rawOutput pd); tr_error := pd_error pd |},
               fs2)
          end
      end
  end.

End Driver.

(** [tools.slice(i, j)] *)
Definition slice {A} (i j : nat) (l : list A) : list A := firstn (j - i) (skipn i l).

Fixpoint batch_loop {A} (fuel i batchSize : nat) (tools : list A) : list (list A) :=
  match fuel with
  | O => []
  | S f =>
      if i <? length tools
      then slice i (i + batchSize) tools :: batch_loop f (i + batchSize) batchSize tools
      else []
  end.

(** [createConcurrentBatches(tools)] with [this.maxConcurrent]; [None] when
    the loop [for (i = 0; i < tools.length; i += batchSize)] never ends
    (a batch size of 0 on a non-empty list).  Otherwise it makes at most
    [tools.length] iterations. *)
Definition createConcurrentBatches {A} (maxConcurrent : nat) (tools : list A)
  : option (list (list A)) :=
  let batchSize := Nat.min maxConcurrent (length tools) in
  if (batchSize =? 0) && (0 <? length tools) then None
  else Some (batch_loop (S (length tools)) 0 batchSize tools).

(** The outcome of one promise of [Promise.allSettled]. *)
Inductive Settled : Type :=
| Fulfilled (r : ToolResult)
| Rejected (msg : string).

Fixpoint set_nth {A} (k : nat) (x : A) (l : list A) : list A :=
  match l, k with
  | [], _ => []
  | _ :: r, O => x :: r
  | y :: r, S k' => y :: set_nth k' x r
  end.

(** [Promise.allSettled] over [n] promises that settle in the order given
    by [completions] (position, outcome): each outcome is stored at the
    position of its promise; it resolves once every position is filled. *)
Definition all_settled (n : nat) (completions : list (nat * Settled))
  : option (list Settled) :=
  let slots := fold_left (fun acc c => set_nth (fst c) (Some (snd c)) acc)
                         completions (repeat None n) in
  if forallb (fun o => match o with Some _ => true | None => false end) slots
  then Some (map (fun o => match o with Some v => v | None => Rejected EmptyString end) slots)
  else None.

(** The [for (const result of batchResults)] body. *)
Definition settled_to_result (s : Settled) : ToolResult :=
  match s with
  | Fulfilled r => r
  | Rejected msg =>
      {| tr_success := false; tr_tool := None; tr_domain := None; tr_results := [];
         tr_count := None; tr_rawOutput := None; tr_error := Some msg |}
  end.

Section Coordinator.

Variable os : string -> list string -> Proc.
Variable results_dir : string.
(** [this.maxConcurrent] *)
Variable maxConcurrent : nat.

(** One batch: the tools of [batch] run concurrently and finish in the
    order [order] (positions in the batch); the [k]-th tool of the call
    uses execution id [ids k] and timestamp [ts k]. *)
Definition run_batch (domain : string) (ids : nat -> string) (ts : nat -> Z)
  (offset : nat) (batch : list string) (order : list nat) (fs : FS)
  : list (nat * Settled) * FS :=
  fold_left (fun acc k =>
      let '(done_, fs0) := acc in
      let '(r, fs1) := executeSingleTool os results_dir (nth k batch EmptyString)
                         domain (ids (offset + k)) (ts (offset + k)) fs0 in
      (done_ ++ [(k, Fulfilled r)], fs1))
    order ([], fs).

Fixpoint run_batches (domain : string) (ids : nat -> string) (ts : nat -> Z)
  (order : nat -> list nat) (b offset : nat) (batches : list (list string)) (fs : FS)
  : option (list ToolResult * FS) :=
  match batches with
  | [] => Some ([], fs)
  | batch :: rest =>
      let '(completions, fs1) := run_batch domain ids ts offset batch (order b) fs in
      match all_settled (length batch) completions with
      | None => None
      | Some batchResults =>
          match run_batches domain ids ts order (S b) (offset + length batch) rest fs1 with
          | None => None
          | Some (results, fs2) => Some (map settled_to_result batchResults ++ results, fs2)
          end
      end
  end.

(** [executeMultipleTools(tools, domain, options, parentExecutionId)];
    [order b] is the completion order of batch [b].  [None]: the call
    never returns. *)
Definition executeMultipleTools (tools : list string) (domain : string)
  (ids : nat -> string) (ts : nat -> Z) (order : nat -> list nat) (fs : FS)
  : option (list ToolResult * FS) :=
  match createConcurrentBatches maxConcurrent tools with
  | None => None
  | Some batches => run_batches domain ids ts order 0 0 batches fs
  end.

(** The [ExecutionResult] of [executeTools] (ids, timing and metadata left
    out). *)
Record ExecutionResult : Type := {
  ex_success : bool;
  ex_results : list ToolResult;
  ex_error : option string
}.

(** [executeTools(tools, domain, options)]; [executeMultipleTools] has no
    path that throws, so the [catch] branch is never taken. *)
Definition executeTools (tools : list string) (domain : string)
  (ids : nat -> string) (ts : nat -> Z) (order : nat -> list nat) (fs : FS)
  : option (ExecutionResult * FS) :=
  match executeMultipleTools tools domain ids ts order fs with
  | None => None
  | Some (results, fs') =>
      Some ({| ex_success := true; ex_results := results; ex_error := None |}, fs')
  end.

End Coordinator.

End ToolExecutor.

(* ------------------------------------------------------------------ *)
(** ** Execution slots: [waitForExecutionSlot] and the counter

    Every [executeSingleTool] call runs
    [await this.waitForExecutionSlot(); this.concurrentExecutions++; ...]
    where [waitForExecutionSlot] loops
    [while (this.concurrentExecutions >= this.maxConcurrent) await sleep(100)].
    The test of the loop and the increment are separated by the [await] on
    the promise [waitForExecutionSlot] returns, so other calls run between
    them.  A task is one [executeSingleTool] call on the shared executor. *)

Module Slots.

Inductive phase : Type :=
| Checking   (* about to test the [while] condition *)
| Sleeping   (* awaiting the 100 ms timer *)
| Resuming   (* the loop has exited; the increment is pending *)
| Holding    (* [concurrentExecutions++] done, process not spawned yet *)
| Spawned    (* its external process is running *)
| Finished.  (* the [finally] block has decremented the counter *)

Record state : Type := {
  counter : nat;          (* [this.concurrentExecutions] *)
  tasks : list phase
}.

Definition set_phase (s : state) (i : nat) (p : phase) (dc : nat -> nat) : state :=
  {| counter := dc (counter s); tasks := ToolExecutor.set_nth i p (tasks s) |}.

(** One scheduling step of task [i]. *)
Inductive step (maxConcurrent : nat) : state -> state -> Prop :=
| st_check_full s i : nth_error (tasks s) i = Some Checking ->
    maxConcurrent <= counter s -> step maxConcurrent s (set_phase s i Sleeping id)
| st_check_free s i : nth_error (tasks s) i = Some Checking ->
    counter s < maxConcurrent -> step maxConcurrent s (set_phase s i Resuming id)
| st_wake s i : nth_error (tasks s) i = Some Sleeping ->
    step maxConcurrent s (set_phase s i Checking id)
| st_increment s i : nth_error (tasks s) i = Some Resuming ->
    step maxConcurrent s (set_phase s i Holding S)
| st_spawn s i : nth_error (tasks s) i = Some Holding ->
    step maxConcurrent s (set_phase s i Spawned id)
| st_finish s i p : nth_error (tasks s) i = Some p -> (p = Holding \/ p = Spawned) ->
    step maxConcurrent s (set_phase s i Finished pred).

Inductive reachable (maxConcurrent : nat) (s0 : state) : state -> Prop :=
| reach_refl : reachable maxConcurrent s0 s0
| reach_step s s' : reachable maxConcurrent s0 s -> step maxConcurrent s s' ->
    reachable maxConcurrent s0 s'.

(** [n] calls that have just entered [executeSingleTool] on an idle executor. *)
Definition init (n : nat) : state := {| counter := 0; tasks := repeat Checking n |}.

(** The number of external processes running. *)
Definition running_processes (s : state) : nat :=
  length (filter (fun p => match p with Spawned => true | _ => false end) (tasks s)).

(** An executable version of [step], driven by the task to move. *)
Definition step_fn (maxConcurrent : nat) (s : state) (i : nat) : option state :=
  match nth_error (tasks s) i with
  | Some Checking =>
      if maxConcurrent <=? counter s then Some (set_phase s i Sleeping id)
      else Some (set_phase s i Resuming id)
  | Some Sleeping => Some (set_phase s i Checking id)
  | Some Resuming => Some (set_phase s i Holding S)
  | Some Holding => Some (set_phase s i Spawned id)
  | _ => None
  end.

Fixpoint run_schedule (maxConcurrent : nat) (s : state) (sched : list nat) : option state :=
  match sched with
  | [] => Some s
  | i :: r =>
      match step_fn maxConcurrent s i with
      | Some s' => run_schedule maxConcurrent s' r
      | None => None
      end
  end.

(** Two overlapping [executeTools] calls of five tools each under the
    configured [maxConcurrent = 5]: every call tests the loop condition
    synchronously when [batch.map] starts it, then the ten increments run
    as the awaits resume, then the ten processes are spawned. *)
Definition two_calls_schedule : list nat := seq 0 10 ++ seq 0 10 ++ seq 0 10.

End Slots.

(* ------------------------------------------------------------------ *)
(** ** Reference formulations used to state the properties *)

Module SpecDefs.

(** The elements of [l] whose value occurs neither in [seen] nor earlier in
    [l], in the order of [l]. *)
Definition first_occurrences_after (seen l : list string) : list string :=
  map fst (filter (fun p => negb (existsb (String.eqb (fst p)) (seen ++ firstn (snd p) l)))
                  (combine l (seq 0 (length l)))).

(** The subsequence of first occurrences: [l[i]] is kept iff it does not
    occur in [l[0..i)]. *)
Definition first_occurrences_spec (l : list string) : list string :=
  first_occurrences_after [] l.

(** [o] is a completion order of [n] promises settling concurrently:
    every position [0 .. n-1] settles, each once. *)
Definition completion_order_ok (o : list nat) (n : nat) : bool :=
  Nat.eqb (length o) n && forallb (fun k => existsb (Nat.eqb k) o) (seq 0 n).

(** [order b] is a completion order for the [b]-th batch, from [b] on. *)
Fixpoint orders_ok_from (order : nat -> list nat) (b : nat) (batches : list (list string))
  : bool :=
  match batches with
  | [] => true
  | batch :: rest =>
      completion_order_ok (order b) (length batch) && orders_ok_from order (S b) rest
  end.

(** [order] gives a completion order for every batch of
    [createConcurrentBatches(tools)]. *)
Definition orders_ok (maxConcurrent : nat) (tools : list string) (order : nat -> list nat)
  : bool :=
  match ToolExecutor.createConcurrentBatches maxConcurrent tools with
  | Some batches => orders_ok_from order 0 batches
  | None => false
  end.

(** The outcome the [k]-th promise of a batch at [offset] settles with:
    the result of running its tool on some file-system state. *)
Definition settles_as (os : string -> list string -> ToolExecutor.Proc) (dir domain : string)
  (ids : nat -> string) (ts : nat -> Z) (offset : nat) (batch : list string)
  (k : nat) (s : ToolExecutor.Settled) : Prop :=
  exists fs0, s = ToolExecutor.Fulfilled
                    (fst (ToolExecutor.executeSingleTool os dir (nth k batch EmptyString)
                            domain (ids (offset + k)) (ts (offset + k)) fs0)).

End SpecDefs.

(* ------------------------------------------------------------------ *)
(** ** The other methods of [ResultProcessor]: filtering, formatting and
    analysis *)

Module ResultTools.
Import JsString Js.

(** [String.prototype.toLowerCase] on code units below 256: [A-Z] and the
    Latin-1 capitals U+00C0 to U+00DE other than U+00D7 move up by 32. *)
Definition lower_latin1 (c : ascii) : ascii :=
  let n := code c in
  if ((65 <=? n) && (n <=? 90)) || ((192 <=? n) && (n <=? 222) && negb (n =? 215))
  then ascii_of_nat (n + 32) else c.

Fixpoint toLowerCase_latin1 (s : string) : string :=
  match s with
  | EmptyString => EmptyString
  | String c r => String (lower_latin1 c) (toLowerCase_latin1 r)
  end.

(** [array.join(sep)]: [undefined] and [null] elements give the empty
    string, the others their [ToString], from left to right. *)
Fixpoint join (sep : string) (l : list jsval) : Exc string :=
  match l with
  | [] => ret EmptyString
  | e :: r =>
      s <- (match e with JUndef | JNull => ret EmptyString | _ => ToString e end) ;;
      match r with
      | [] => ret s
      | _ => t <- join sep r ;; ret (s ++ sep ++ t)%string
      end
  end.

Definition newline : string := String nl EmptyString.

Section Format.

(** [JSON.stringify(results, null, 2)] of an array of JSON-like values. *)
Variable JSON_stringify : list jsval -> string.

(** [formatResults(results, format = 'json')]: [format.toLowerCase()]
    throws a TypeError when [format] is not a string. *)
Definition formatResults (results format : jsval) : Exc string :=
  match results with
  | JArr _ es =>
      f <- (match format with
            | JUndef => ret "json"
            | JStr s => ret (toLowerCase_latin1 s)
            | JNull => throw "Cannot read properties of null (reading 'toLowerCase')"
            | _ => throw "format.toLowerCase is not a function"
            end) ;;
      if String.eqb f "json" then ret (JSON_stringify es)
      else if String.eqb f "csv" then join "," es
      else if String.eqb f "txt" || String.eqb f "text" then join newline es
      else if String.eqb f "html" then
        items <- mapM (fun r => s <- ToString r ;;
                                ret (JStr ("  <li>" ++ s ++ "</li>")%string)) es ;;
        body <- join newline items ;;
        ret ("<ul>" ++ newline ++ body ++ newline ++ "</ul>")%string
      else join newline es
  | _ => ret EmptyString
  end.

End Format.

(** A plain object built by the counting helpers: its own properties in
    insertion order.  The values are the ones [bump] writes: numbers, or
    strings once [+ 1] met an inherited member. *)
Definition obj : Type := list (string * jsval).

(** [o[k] = v] on a data property: in place when [k] is present, at the
    end otherwise. *)
Fixpoint set_field (k : string) (v : jsval) (o : obj) : obj :=
  match o with
  | [] => [(k, v)]
  | (k', v') :: r => if String.eqb k k' then (k', v) :: r else (k', v') :: set_field k v r
  end.

(** The primitive value ([ToPrimitive]) of the member a plain object
    inherits from [Object.prototype] under [k]: [o.__proto__] is
    [Object.prototype] itself, the other members are built-in functions. *)
Definition inherited_string (k : string) : option string :=
  if String.eqb k "__proto__" then Some "[object Object]"
  else if String.eqb k "constructor" then Some "function Object() { [native code] }"
  else if existsb (String.eqb k) ToolExecutor.object_prototype_keys
  then Some ("function " ++ k ++ "() { [native code] }")%string
  else None.

(** [o[k] = (o[k] || 0) + 1].  Assigning a string to [__proto__] is
    ignored by its setter. *)
Definition bump (o : obj) (k : string) : obj :=
  let cur := match lookup_field k o with
             | Some v => v
             | None => match inherited_string k with Some s => JStr s | None => JUndef end
             end in
  let nv := match cur with
            | JNum n => JNum (n + 1)
            | JStr s => if String.eqb s EmptyString then JNum 1 else JStr (s ++ "1")
            | _ => JNum 1
            end in
  if String.eqb k "__proto__" then o else set_field k nv o.

(** [xs.forEach(x => { o[key(x)] = (o[key(x)] || 0) + 1 })] on a fresh [{}]. *)
Definition count_into (key : string -> string) (xs : list string) : obj :=
  fold_left (fun o x => bump o (key x)) xs [].

(** Array-index keys: canonical decimal numerals below 2^32 - 1. *)
Definition array_index (k : string) : option Z :=
  match k with
  | EmptyString => None
  | String c r =>
      if Ascii.eqb c "0" && negb (String.eqb r EmptyString) then None
      else match digits_value k 0 with
           | Some z => if (z <? 4294967295)%Z then Some z else None
           | None => None
           end
  end.

Definition is_index_key (kv : string * jsval) : bool :=
  match array_index (fst kv) with Some _ => true | None => false end.

(** [Object.entries(o)]: array-index keys in ascending numeric order, then
    the other keys in insertion order. *)
Definition object_entries (o : obj) : obj :=
  Pipeline.sort_by (fun a b => match array_index (fst a), array_index (fst b) with
                               | Some x, Some y => (x - y)%Z
                               | _, _ => 0%Z
                               end)
                   (filter is_index_key o)
  ++ filter (fun kv => negb (is_index_key kv)) o.

(** [ToNumber] of a count. *)
Definition count_number (v : jsval) : option Z :=
  match v with
  | JNum z => Some z
  | JStr s => string_to_number s
  | _ => None
  end.

(** The comparator [([,a], [,b]) => b - a]; a NaN result counts as [+0]. *)
Definition count_desc (a b : string * jsval) : Z :=
  match count_number (snd b), count_number (snd a) with
  | Some y, Some x => (y - x)%Z
  | _, _ => 0%Z
  end.

(** [Object.entries(o).sort(([,a], [,b]) => b - a).slice(0, 10)
       .reduce((obj, [key, value]) => ({ ...obj, [key]: value }), {})] *)
Definition top_entries (o : obj) : obj :=
  fold_left (fun acc kv => set_field (fst kv) (snd kv) (object_entries acc))
            (firstn 10 (Pipeline.sort_by count_desc (object_entries o))) [].

(** [parts[parts.length - 1]] of [domain.split('.')] *)
Definition tld_of (domain : string) : string :=
  last (split_char "." domain) EmptyString.

(** [getTopLevelDomains(domains)] *)
Definition getTopLevelDomains (domains : list string) : obj :=
  top_entries (count_into tld_of domains).

(** [domain.split('.').length] as a property key *)
Definition level_of (domain : string) : string :=
  Z_to_string (Z.of_nat (length (split_char "." domain))).

(** [getSubdomainLevels(domains)] *)
Definition getSubdomainLevels (domains : list string) : obj :=
  count_into level_of domains.

(** [url.split(':')[0]] *)
Definition protocol_of (url : string) : string :=
  hd EmptyString (split_char ":" url).

(** [getProtocols(urls)] *)
Definition getProtocols (urls : list string) : obj :=
  count_into protocol_of urls.

(** [url.match(/:(\d+)/)]: the capture group of the leftmost match. *)
Fixpoint first_port (url : string) : option string :=
  match url with
  | EmptyString => None
  | String c r =>
      if Ascii.eqb c ":" then
        match fst (ResultProcessor.take_while is_digit r) with
        | EmptyString => first_port r
        | ds => Some ds
        end
      else first_port r
  end.

(** [getPorts(urls)] *)
Definition getPorts (urls : list string) : obj :=
  fold_left (fun o u => match first_port u with Some p => bump o p | None => o end) urls [].

(** [ip.split('.').slice(0, 3).join('.')] *)
Definition subnet_of (ip : string) : string :=
  String.concat "." (firstn 3 (split_char "." ip)).

(** [getSubnets(ips)] *)
Definition getSubnets (ips : list string) : obj :=
  top_entries (count_into subnet_of ips).

(** The object [analyzePatterns] returns: the keys it sets. *)
Record Patterns : Type := {
  pt_topLevelDomains : option obj;
  pt_subdomainLevels : option obj;
  pt_protocols : option obj;
  pt_ports : option obj;
  pt_subnets : option obj
}.

Definition no_patterns : Patterns :=
  {| pt_topLevelDomains := None; pt_subdomainLevels := None; pt_protocols := None;
     pt_ports := None; pt_subnets := None |}.

(** [analyzePatterns(results, outputType)] on an array of strings. *)
Definition analyzePatterns (results : list string) (outputType : jsval) : Patterns :=
  match results with
  | [] => no_patterns
  | _ =>
      if is_str outputType "domains" then
        {| pt_topLevelDomains := Some (getTopLevelDomains results);
           pt_subdomainLevels := Some (getSubdomainLevels results);
           pt_protocols := None; pt_ports := None; pt_subnets := None |}
      else if is_str outputType "urls" then
        {| pt_topLevelDomains := None; pt_subdomainLevels := None;
           pt_protocols := Some (getProtocols results);
           pt_ports := Some (getPorts results); pt_subnets := None |}
      else if is_str outputType "ips" then
        {| pt_topLevelDomains := None; pt_subdomainLevels := None;
           pt_protocols := None; pt_ports := None;
           pt_subnets := Some (getSubnets results) |}
      else no_patterns
  end.

(** The object [analyzeResults] returns. *)
Record Analysis : Type := {
  an_totalCount : nat;
  an_uniqueCount : nat;
  an_duplicateCount : nat;
  an_averageLength : nat;
  an_minLength : nat;
  an_maxLength : nat;
  an_patterns : Patterns
}.

(** [createEmptyAnalysis()] *)
Definition createEmptyAnalysis : Analysis :=
  {| an_totalCount := 0; an_uniqueCount := 0; an_duplicateCount := 0;
     an_averageLength := 0; an_minLength := 0; an_maxLength := 0;
     an_patterns := no_patterns |}.

(** [Math.round(sum / n)] for [n > 0]: the floor of [sum / n + 1/2].  The
    double quotient rounds to the same integer while [sum < 2^52]. *)
Definition round_div (sum n : nat) : nat := (2 * sum + n) / (2 * n).

(** [Math.min(...xs)] and [Math.max(...xs)] on a non-empty list (the
    spread itself fails on arrays longer than the engine's argument
    limit). *)
Definition list_min (xs : list nat) : nat :=
  match xs with [] => 0 | x :: r => fold_left Nat.min r x end.
Definition list_max (xs : list nat) : nat :=
  match xs with [] => 0 | x :: r => fold_left Nat.max r x end.

(** [analyzeResults(results, outputType = 'text')]; [None] is a value that
    is not an array, [Some rs] an array of strings. *)
Definition analyzeResults (results : option (list string)) (outputType : jsval)
  : Analysis :=
  match results with
  | None => createEmptyAnalysis
  | Some rs =>
      let n := length rs in
      let lens := map String.length rs in
      let unique := length (Pipeline.deduplicateResults (map JStr rs)) in
      {| an_totalCount := n;
         an_uniqueCount := unique;
         an_duplicateCount := n - unique;
         an_averageLength := if 0 <? n then round_div (fold_left Nat.add lens 0) n else 0;
         an_minLength := if 0 <? n then list_min lens else 0;
         an_maxLength := if 0 <? n then list_max lens else 0;
         an_patterns := analyzePatterns rs
                          (Pipeline.with_default outputType (JStr "text")) |}
  end.

Section Filter.

(** [new RegExp(pattern, 'i')]: its [test] method, or the error of the
    constructor. *)
Variable RegExp_i : jsval -> Exc (string -> bool).

(** [for (const excludePattern of criteria.exclude) { ... }] *)
Fixpoint exclude_all (ps : list jsval) (l : list string) : Exc (list string) :=
  match ps with
  | [] => ret l
  | p :: ps' => re <- RegExp_i p ;; exclude_all ps' (filter (fun r => negb (re r)) l)
  end.

(** [criteria.include.some(p => new RegExp(p, 'i').test(result))] *)
Fixpoint some_match (ps : list jsval) (r : string) : Exc bool :=
  match ps with
  | [] => ret false
  | p :: ps' => re <- RegExp_i p ;; if re r then ret true else some_match ps' r
  end.

(** [result.length >= x] and [result.length <= x]: [x] goes through
    [ToNumber]; a comparison with NaN is false. *)
Definition length_at_least (x : jsval) (r : string) : Exc bool :=
  n <- ToNumber x ;;
  ret (match n with Some k => (k <=? Z.of_nat (String.length r))%Z | None => false end).
Definition length_at_most (x : jsval) (r : string) : Exc bool :=
  n <- ToNumber x ;;
  ret (match n with Some k => (Z.of_nat (String.length r) <=? k)%Z | None => false end).

(** [filterResults(results, criteria = {})]; [None] is a value that is not
    an array, [Some rs] an array of strings. *)
Definition filterResults (results : option (list string)) (criteria : jsval)
  : Exc (list string) :=
  match results with
  | None => ret []
  | Some rs =>
      match criteria with
      | JNull => throw "Cannot read properties of null (reading 'pattern')"
      | _ =>
          let c := Pipeline.with_default criteria (JObj 0 []) in
          f1 <- (if truthy (get_prop c "pattern")
                 then re <- RegExp_i (get_prop c "pattern") ;; ret (filter re rs)
                 else ret rs) ;;
          f2 <- (if truthy (get_prop c "minLength")
                 then filterM (length_at_least (get_prop c "minLength")) f1
                 else ret f1) ;;
          f3 <- (if truthy (get_prop c "maxLength")
                 then filterM (length_at_most (get_prop c "maxLength")) f2
                 else ret f2) ;;
          f4 <- (match get_prop c "exclude" with
                 | JArr _ ps => exclude_all ps f3
                 | _ => ret f3
                 end) ;;
          match get_prop c "include" with
          | JArr _ ps => filterM (some_match ps) f4
          | _ => ret f4
          end
      end
  end.

End Filter.

End ResultTools.

(* ------------------------------------------------------------------ *)
(** ** The process table of [ToolExecutor]: [activeProcesses],
    [killProcess], [killExecution], [cleanupStaleProcesses],
    [killAllProcesses] and [getStats] *)

Module ProcessTable.

(** A value of [this.activeProcesses]: the child process (by its pid) and
    the [tool], [domain] and [startTime] stored with it by [runTool]. *)
Record Entry : Type := {
  en_process : nat;
  en_tool : string;
  en_domain : string;
  en_startTime : Z
}.

(** The executor's state.  [activeProcesses] is a [Map] (its entries in
    insertion order); [killed] holds the processes whose [killed] flag is
    set, [exited] those that have exited; [signals] lists every signal
    delivered, in order; [timers] the pending [killTimeout] timers of
    [killProcess]; [cleanupInterval] whether the interval that
    [this.processCleanupInterval] refers to runs ([false] while it is
    [null]). *)
Record Executor : Type := {
  activeProcesses : list (string * Entry);
  killed : list nat;
  exited : list nat;
  signals : list (nat * string);
  timers : list nat;
  cleanupInterval : bool;
  concurrentExecutions : nat;
  maxConcurrent : nat
}.

Definition mkExecutor a k e s t i c m : Executor :=
  {| activeProcesses := a; killed := k; exited := e; signals := s; timers := t;
     cleanupInterval := i; concurrentExecutions := c; maxConcurrent := m |}.

Definition set_active (st : Executor) (a : list (string * Entry)) : Executor :=
  mkExecutor a (killed st) (exited st) (signals st) (timers st) (cleanupInterval st)
             (concurrentExecutions st) (maxConcurrent st).

Definition mem (p : nat) (l : list nat) : bool := existsb (Nat.eqb p) l.

(** [process.kill(sig)]: no effect on a process that has exited; a
    delivered signal sets [process.killed]. *)
Definition send (st : Executor) (pid : nat) (sig : string) : Executor :=
  if mem pid (exited st) then st
  else mkExecutor (activeProcesses st) (pid :: killed st) (exited st)
                  (signals st ++ [(pid, sig)]) (timers st) (cleanupInterval st)
                  (concurrentExecutions st) (maxConcurrent st).

(** [killProcess(process)]: [SIGTERM], and a timer that sends [SIGKILL]
    after [killTimeout] unless [process.killed] is set by then. *)
Definition killProcess (st : Executor) (pid : nat) : Executor :=
  if mem pid (killed st) then st
  else
    let st1 := send st pid "SIGTERM" in
    mkExecutor (activeProcesses st1) (killed st1) (exited st1) (signals st1)
               (timers st1 ++ [pid]) (cleanupInterval st1)
               (concurrentExecutions st1) (maxConcurrent st1).

(** The oldest pending [killTimeout] timer fires:
    [if (!process.killed) process.kill('SIGKILL')]. *)
Definition fire_timer (st : Executor) : Executor :=
  match timers st with
  | [] => st
  | pid :: rest =>
      let st1 := mkExecutor (activeProcesses st) (killed st) (exited st) (signals st)
                            rest (cleanupInterval st) (concurrentExecutions st)
                            (maxConcurrent st) in
      if mem pid (killed st1) then st1 else send st1 pid "SIGKILL"
  end.

(** A child process exits. *)
Definition process_exit (st : Executor) (pid : nat) : Executor :=
  mkExecutor (activeProcesses st) (killed st) (pid :: exited st) (signals st)
             (timers st) (cleanupInterval st) (concurrentExecutions st) (maxConcurrent st).

Fixpoint map_get (k : string) (m : list (string * Entry)) : option Entry :=
  match m with
  | [] => None
  | (k', e) :: r => if String.eqb k k' then Some e else map_get k r
  end.
Definition map_delete (k : string) (m : list (string * Entry)) : list (string * Entry) :=
  filter (fun ie => negb (String.eqb (fst ie) k)) m.

(** [killExecution(executionId)] *)
Definition killExecution (st : Executor) (executionId : string) : Executor :=
  match map_get executionId (activeProcesses st) with
  | Some e =>
      let st1 := killProcess st (en_process e) in
      set_active st1 (map_delete executionId (activeProcesses st1))
  | None => st
  end.

(** [config.execution.timeout + 60000] *)
Definition staleThreshold : Z := (ToolExecutor.default_timeout + 60000)%Z.

(** [cleanupStaleProcesses()] at time [now].  A [Map] iteration visits the
    entries present when it reaches them; the loop only deletes the entry
    it is visiting, so it visits the entries of the map it started on. *)
Definition cleanupStaleProcesses (now : Z) (st : Executor) : Executor :=
  fold_left (fun s ie =>
               if (staleThreshold <? now - en_startTime (snd ie))%Z
               then killExecution s (fst ie) else s)
            (activeProcesses st) st.

(** [killAllProcesses()]: kill every process, [clear()] the map and stop
    the cleanup interval. *)
Definition killAllProcesses (st : Executor) : Executor :=
  let st1 := fold_left (fun s ie => killProcess s (en_process (snd ie)))
                       (activeProcesses st) st in
  mkExecutor [] (killed st1) (exited st1) (signals st1) (timers st1) false
             (concurrentExecutions st1) (maxConcurrent st1).

(** [startProcessCleanup()]: [setInterval] of [cleanupStaleProcesses]
    every 30 s, stored in [this.processCleanupInterval]. *)
Definition startProcessCleanup (st : Executor) : Executor :=
  mkExecutor (activeProcesses st) (killed st) (exited st) (signals st) (timers st) true
             (concurrentExecutions st) (maxConcurrent st).

Record Stats : Type := {
  stats_activeProcesses : nat;
  stats_concurrentExecutions : nat;
  stats_maxConcurrent : nat;
  stats_queueLength : nat
}.

(** [getStats()]; [this.executionQueue] is created empty and never
    written. *)
Definition getStats (st : Executor) : Stats :=
  {| stats_activeProcesses := length (activeProcesses st);
     stats_concurrentExecutions := concurrentExecutions st;
     stats_maxConcurrent := maxConcurrent st;
     stats_queueLength := 0 |}.

End ProcessTable.

(** Events of the process table, for reasoning about call sequences. *)

Module ProcessEvents.
Import ProcessTable.

(** [this.activeProcesses.set(executionId, entry)]: in place when the key
    is present, at the end otherwise. *)
Fixpoint map_set (k : string) (v : Entry) (m : list (string * Entry)) : list (string * Entry) :=
  match m with
  | [] => [(k, v)]
  | (k', v') :: r => if String.eqb k k' then (k', v) :: r else (k', v') :: map_set k v r
  end.

(** What can happen to the process table: [runTool] stores a process
    ([activeProcesses.set]); [executeSingleTool]'s [finally] deletes its
    entry; [runTool]'s timeout calls [killProcess(process)]; the [timeout]
    option of [spawn] sends [SIGTERM] itself; a [killTimeout] timer fires;
    a process exits; [killExecution], [cleanupStaleProcesses] (at a time
    [now]) and [killAllProcesses] run; [initializeExecutor] reaches
    [startProcessCleanup()] once [await this.ensureDirectories()] has
    resolved (once per executor, and never when it rejects). *)
Inductive Event : Type :=
| EvRegister (executionId : string) (e : Entry)
| EvDelete (executionId : string)
| EvTimeout (pid : nat)
| EvSpawnTimeout (pid : nat)
| EvKillTimer
| EvExit (pid : nat)
| EvKillExecution (executionId : string)
| EvCleanup (now : Z)
| EvKillAll
| EvStartCleanup.

Definition step (st : Executor) (ev : Event) : Executor :=
  match ev with
  | EvRegister id e => set_active st (map_set id e (activeProcesses st))
  | EvDelete id => set_active st (map_delete id (activeProcesses st))
  | EvTimeout pid => killProcess st pid
  | EvSpawnTimeout pid => send st pid "SIGTERM"
  | EvKillTimer => fire_timer st
  | EvExit pid => process_exit st pid
  | EvKillExecution id => killExecution st id
  | EvCleanup now => cleanupStaleProcesses now st
  | EvKillAll => killAllProcesses st
  | EvStartCleanup => startProcessCleanup st
  end.

Definition run (st : Executor) (evs : list Event) : Executor := fold_left step evs st.

(** The executor the constructor builds: [this.processCleanupInterval =
    null]; the interval starts later, with [EvStartCleanup]. *)
Definition initialExecutor (maxConcurrent : nat) : Executor :=
  mkExecutor [] [] [] [] [] false 0 maxConcurrent.

(** Whether an event is the start of the cleanup interval. *)
Definition is_start_cleanup (ev : Event) : bool :=
  match ev with EvStartCleanup => true | _ => false end.

End ProcessEvents.

(* ------------------------------------------------------------------ *)
(** ** Concrete inputs *)

Module Scenarios.
Import JsString Js ToolExecutor.

(** Scenario B: raw tool output with a comment line and a double-dot name. *)
Definition scenarioB_raw : string :=
  ("www.example.com" ++ String nl "mail.example.com" ++ String nl "#comment"
   ++ String nl "invalid..example.com")%string.

Definition domains_options : jsval := JObj 0 [("outputType", JStr "domains")].

(** [config.paths.results] *)
Definition results_dir : string := "./results".

(** A host with none of the registry's binaries installed: every spawn
    emits [error]. *)
Definition os_missing (cmd : string) (args : list string) : Proc :=
  SpawnError (-2)%Z ("spawn " ++ cmd ++ " ENOENT")%string.

(** A host with [sh] but none of the tools' own binaries: a tool's spawn
    emits [error], while an [sh] fallback writes the output file and exits
    with code 0. *)
Definition os_only_sh (cmd : string) (args : list string) : Proc :=
  if String.eqb cmd "sh" then Exit 0 EmptyString (Some "93.184.216.34")
  else SpawnError (-2)%Z ("spawn " ++ cmd ++ " ENOENT")%string.

(** A process that prints a name on stdout, creates an empty output file
    and exits with code 0. *)
Definition os_empty_file (cmd : string) (args : list string) : Proc :=
  Exit 0 "www.example.com" (Some EmptyString).

(** A process that writes its output file and is still running when the
    timeout fires. *)
Definition os_timeout (cmd : string) (args : list string) : Proc :=
  Overrun (Some "www.example.com").

(** The registry entry of [tool] (the empty configuration if unknown). *)
Definition cfg_of (tool : string) : ToolSpec :=
  match getToolConfiguration tool with inr c => c | inl _ => empty_spec end.

Definition fallback_of (tool : string) : ToolSpec :=
  match spec_fallback (cfg_of tool) with Some f => f | None => empty_spec end.

(** The context [executeSingleTool(tool, example.com)] creates with
    execution id [e1] at time 1. *)
Definition ctx_of (tool : string) : Context :=
  createExecutionContext results_dir tool "example.com" "e1" 1.

(** Six tool names, one of them unknown: two batches under
    [maxConcurrent = 5]. *)
Definition six_tools : list string :=
  ["nosuchtool"; "amass"; "dig"; "whois"; "host"; "nslookup"].

(** The first batch settles in reverse order. *)
Definition reverse_order (b : nat) : list nat :=
  if Nat.eqb b 0 then [4; 3; 2; 1; 0] else [0].

Definition exec_ids (i : nat) : string := ("e" ++ Z_to_string (Z.of_nat i))%string.
Definition exec_ts (i : nat) : Z := Z.of_nat i.

End Scenarios.

(* ================================================================== *)
(** * Properties *)

Module DedupProofs.
Import Js SpecDefs.

Lemma combine_map_r {A B} (f : nat -> B) (l : list A) (m : list nat) :
  combine l (map f m) = map (fun p => (fst p, f (snd p))) (combine l m).
Proof.
  revert m; induction l as [|x r IH]; intros [|y m]; simpl; auto.
  rewrite IH; reflexivity.
Qed.

Lemma after_cons (seen : list string) (x : string) (r : list string) :
  first_occurrences_after seen (x :: r) =
  (if existsb (String.eqb x) seen then [] else [x]) ++
  first_occurrences_after (seen ++ [x]) r.
Proof.
  unfold first_occurrences_after. simpl length. cbn [seq].
  rewrite <- seq_shift. simpl combine.
  rewrite combine_map_r.
  assert (E : forall p : string * nat,
            existsb (String.eqb (fst p)) (seen ++ x :: firstn (snd p) r) =
            existsb (String.eqb (fst p)) ((seen ++ [x]) ++ firstn (snd p) r)).
  { intros p. rewrite <- app_assoc. reflexivity. }
  cbn [filter fst snd firstn]. rewrite app_nil_r, filter_map_swap.
  cbn [fst snd firstn].
  rewrite (filter_ext _ _ (fun p => f_equal negb (E p))).
  destruct (existsb (String.eqb x) seen); cbn [negb map app];
    rewrite map_map; reflexivity.
Qed.

Lemma after_ext (s s' l : list string) :
  (forall y, existsb (String.eqb y) s = existsb (String.eqb y) s') ->
  first_occurrences_after s l = first_occurrences_after s' l.
Proof.
  intros H. unfold first_occurrences_after. f_equal. apply filter_ext.
  intros p. rewrite !existsb_app, H. reflexivity.
Qed.

Lemma after_snoc_known (s l : list string) (x : string) :
  existsb (String.eqb x) s = true ->
  first_occurrences_after (s ++ [x]) l = first_occurrences_after s l.
Proof.
  intros Hx. apply after_ext. intros y. rewrite existsb_app. simpl.
  destruct (String.eqb y x) eqn:E.
  - apply String.eqb_eq in E; subst. rewrite Hx. reflexivity.
  - rewrite orb_false_r. reflexivity.
Qed.

Lemma existsb_JStr (x : string) (acc : list string) :
  existsb (sameValueZero (JStr x)) (map JStr acc) = existsb (String.eqb x) acc.
Proof. induction acc as [|a r IH]; simpl; [reflexivity|]. rewrite IH. reflexivity. Qed.

Lemma fold_set_add_strings (l acc : list string) :
  fold_left Pipeline.set_add (map JStr l) (map JStr acc) =
  map JStr (acc ++ first_occurrences_after acc l).
Proof.
  revert acc; induction l as [|x r IH]; intros acc.
  - simpl. unfold first_occurrences_after. simpl. rewrite app_nil_r. reflexivity.
  - simpl. unfold Pipeline.set_add at 2. rewrite existsb_JStr, after_cons.
    destruct (existsb (String.eqb x) acc) eqn:Hx.
    + rewrite IH, after_snoc_known by exact Hx. reflexivity.
    + replace (map JStr acc ++ [JStr x]) with (map JStr (acc ++ [x]))
        by (rewrite map_app; reflexivity).
      rewrite IH, <- app_assoc. reflexivity.
Qed.

Lemma dedup_strings (l : list string) :
  Pipeline.deduplicateResults (map JStr l) = map JStr (first_occurrences_spec l).
Proof.
  unfold Pipeline.deduplicateResults, first_occurrences_spec.
  exact (fold_set_add_strings l []).
Qed.

Lemma existsb_eqb_In (y : string) (s : list string) :
  existsb (String.eqb y) s = true <-> In y s.
Proof.
  rewrite existsb_exists. split.
  - intros [z [Hz E]]. apply String.eqb_eq in E. subst. exact Hz.
  - intros H. exists y. split; [exact H | apply String.eqb_refl].
Qed.

Lemma after_props (l s : list string) :
  NoDup (first_occurrences_after s l) /\
  (forall y, In y (first_occurrences_after s l) -> existsb (String.eqb y) s = false).
Proof.
  revert s; induction l as [|x r IH]; intros s.
  - unfold first_occurrences_after. simpl. split; [constructor | intros y []].
  - rewrite after_cons. destruct (IH (s ++ [x])) as [Hnd Hout].
    assert (Hout' : forall y, In y (first_occurrences_after (s ++ [x]) r) ->
                    existsb (String.eqb y) s = false /\ y <> x).
    { intros y Hy. specialize (Hout y Hy). rewrite existsb_app in Hout.
      apply orb_false_iff in Hout as [H1 H2]. split; [exact H1|].
      simpl in H2. rewrite orb_false_r in H2. apply String.eqb_neq in H2. exact H2. }
    destruct (existsb (String.eqb x) s) eqn:Hx; simpl.
    + split; [exact Hnd|]. intros y Hy. apply (Hout' y Hy).
    + split.
      * constructor; [|exact Hnd]. intros Hin. apply (Hout' x Hin). reflexivity.
      * intros y [<-|Hy]; [exact Hx|]. apply (Hout' y Hy).
Qed.

Lemma after_nodup (l s : list string) :
  NoDup l -> (forall y, In y l -> existsb (String.eqb y) s = false) ->
  first_occurrences_after s l = l.
Proof.
  revert s; induction l as [|x r IH]; intros s Hnd Hs.
  - reflexivity.
  - rewrite after_cons. inversion Hnd as [|? ? Hxr Hr]; subst.
    rewrite (Hs x (or_introl eq_refl)). simpl. f_equal. apply IH; [exact Hr|].
    intros y Hy. rewrite existsb_app, (Hs y (or_intror Hy)). simpl.
    rewrite orb_false_r. apply String.eqb_neq. intros ->. exact (Hxr Hy).
Qed.

Lemma first_occurrences_spec_idem (l : list string) :
  first_occurrences_spec (first_occurrences_spec l) = first_occurrences_spec l.
Proof.
  unfold first_occurrences_spec. destruct (after_props l []) as [Hnd _].
  apply after_nodup; [exact Hnd|]. intros; reflexivity.
Qed.

(** C10: [deduplicateResults] on an array of strings keeps the first
    occurrence of each value, in input order; applying it twice gives the
    same list as applying it once. *)
Theorem deduplicateResults_first_occurrences_idempotent (l : list string) :
  Pipeline.deduplicateResults (map JStr l) = map JStr (first_occurrences_spec l) /\
  Pipeline.deduplicateResults (Pipeline.deduplicateResults (map JStr l)) =
  Pipeline.deduplicateResults (map JStr l).
Proof.
  split; [apply dedup_strings|].
  rewrite !dedup_strings, first_occurrences_spec_idem. reflexivity.
Qed.

End DedupProofs.

Module ScenarioProofs.
Import JsString Js Scenarios.

(** C7 (as written): processing Scenario B yields exactly
    [["mail.example.com"; "www.example.com"]] with count 2.  False. *)
Lemma scenarioB_claimed_output_fails :
  ~ (exists r, Pipeline.processResults (fun _ => None) Pipeline.code_unit_compare
                 "subfinder" (JStr scenarioB_raw) (JStr "example.com") domains_options
               = inr r /\
               Pipeline.pr_results r = [JStr "mail.example.com"; JStr "www.example.com"] /\
               Pipeline.pr_count r = 2).
Proof.
  intros [r [Hr [Hres Hcnt]]]. vm_compute in Hr. injection Hr as <-.
  discriminate Hcnt.
Qed.

(** C7 (amended): for every [JSON.parse] and every [localeCompare], the
    result pipeline turns Scenario B into
    [["www.example.com"; "mail.example.com"; "invalid..example.com"]]
    (length first) with count 3: the comment line is dropped, the
    double-dot entry kept.  The executor's own [parseDomainsOutput] keeps
    the same three, in code-unit order. *)
Theorem scenarioB_processed_output
  (JSON_parse : string -> option jsval) (localeCompare : string -> string -> Z) :
  (exists r, Pipeline.processResults JSON_parse localeCompare "subfinder"
               (JStr scenarioB_raw) (JStr "example.com") domains_options = inr r /\
             Pipeline.pr_results r =
               [JStr "www.example.com"; JStr "mail.example.com";
                JStr "invalid..example.com"] /\
             Pipeline.pr_count r = 3 /\ Pipeline.pr_error r = None) /\
  ToolExecutor.parseDomainsOutput scenarioB_raw "example.com" =
    ["invalid..example.com"; "mail.example.com"; "www.example.com"].
Proof.
  split; [|vm_compute; reflexivity].
  eexists. split; [reflexivity|]. vm_compute. repeat split; reflexivity.
Qed.

End ScenarioProofs.

Module PipelineProofs.
Import JsString Js ResultProcessor Pipeline.

Lemma bind_inr {A B} (m : Exc A) (k : A -> Exc B) (b : B) :
  bind m k = inr b -> exists a, m = inr a /\ k a = inr b.
Proof. destruct m as [e|a]; simpl; [discriminate | eauto]. Qed.

Lemma process_body_count JSON_parse localeCompare tool rawOutput domain
  outputType maxResults deduplicate validate sort r :
  process_body JSON_parse localeCompare tool rawOutput domain outputType maxResults
    deduplicate validate sort = inr r ->
  pr_count r = length (pr_results r).
Proof.
  unfold process_body. destruct rawOutput; try (intros H; injection H as <-; reflexivity).
  destruct (String.eqb s "").
  - intros H; injection H as <-; reflexivity.
  - intros H.
    apply bind_inr in H as [r1 [_ H]].
    apply bind_inr in H as [r2 [_ H]].
    apply bind_inr in H as [r3 [_ H]].
    apply bind_inr in H as [r4 [_ H]].
    injection H as <-. reflexivity.
Qed.

Lemma processResults_unfold JSON_parse localeCompare tool rawOutput domain options :
  options <> JNull ->
  processResults JSON_parse localeCompare tool rawOutput domain options =
  match process_body JSON_parse localeCompare tool rawOutput domain
          (with_default (get_prop options "outputType") (JStr "domains"))
          (with_default (get_prop options "maxResults") (JNum 10000))
          (with_default (get_prop options "deduplicate") (JBool true))
          (with_default (get_prop options "validate") (JBool true))
          (with_default (get_prop options "sort") (JBool true)) with
  | inr r => ret r
  | inl msg =>
      ret {| pr_tool := tool; pr_domain := domain; pr_results := [];
             pr_count := 0; pr_outputType := None; pr_processed := false;
             pr_error := Some msg |}
  end.
Proof. intros H. destruct options; [reflexivity|exfalso; apply H; reflexivity|..]; reflexivity. Qed.

(** C8 (as written): the pipeline never throws, whatever the options.
    False: [options = null] is destructured before the [try]. *)
Lemma processResults_null_options_throws :
  processResults (fun _ => None) code_unit_compare "subfinder"
    (JStr "a.example.com") (JStr "example.com") JNull
  = inl destructure_null_error.
Proof. reflexivity. Qed.

(** C8 (amended): whenever [options] is not [null] (an object, omitted, or
    any other value), [processResults] returns a result and never throws:
    its [count] is the length of its [results]; an exception raised inside
    the [try] block becomes [results = []], [count = 0] and the exception's
    message as [error]; and [parseJsonOutput] falls back to the line-based
    text parser whenever [JSON.parse] fails. *)
Theorem processResults_total_unless_null_options
  (JSON_parse : string -> option jsval) (localeCompare : string -> string -> Z)
  (tool : string) (rawOutput domain options : jsval) :
  options <> JNull ->
  (exists r,
     processResults JSON_parse localeCompare tool rawOutput domain options = inr r /\
     pr_count r = length (pr_results r) /\
     (forall msg,
        process_body JSON_parse localeCompare tool rawOutput domain
          (with_default (get_prop options "outputType") (JStr "domains"))
          (with_default (get_prop options "maxResults") (JNum 10000))
          (with_default (get_prop options "deduplicate") (JBool true))
          (with_default (get_prop options "validate") (JBool true))
          (with_default (get_prop options "sort") (JBool true)) = inl msg ->
        pr_results r = [] /\ pr_count r = 0 /\ pr_error r = Some msg)) /\
  (forall raw, JSON_parse raw = None ->
     parseJsonOutput JSON_parse raw = parseTextOutput raw).
Proof.
  intros Hnn. split.
  - rewrite (processResults_unfold _ _ _ _ _ _ Hnn).
    destruct (process_body _ _ _ _ _ _ _ _ _ _) as [msg0|r0] eqn:Hb.
    + eexists. split; [reflexivity|]. split; [reflexivity|].
      intros msg Hmsg. injection Hmsg as <-. repeat split.
    + exists r0. split; [reflexivity|]. split; [eapply process_body_count; exact Hb|].
      intros msg Hmsg. discriminate.
  - intros raw Hparse. unfold parseJsonOutput. rewrite Hparse.
    destruct (String.eqb raw "") eqn:E; [|reflexivity].
    apply String.eqb_eq in E; subst. reflexivity.
Qed.

(** The [try] body can throw: a [domain] object with an own [toString]
    property cannot be converted by [line.includes(domain)]; the exception
    comes back as an empty result carrying its message. *)
Lemma processResults_total_witness :
  JObj 0 [("outputType", JStr "domains")] <> JNull /\
  ((exists r,
     processResults (fun _ => None) code_unit_compare "subfinder"
       (JStr "a.example.com") (JObj 1 [("toString", JNum 1)])
       (JObj 0 [("outputType", JStr "domains")]) = inr r /\
     pr_count r = length (pr_results r) /\
     (forall msg,
        process_body (fun _ => None) code_unit_compare "subfinder"
          (JStr "a.example.com") (JObj 1 [("toString", JNum 1)])
          (with_default (get_prop (JObj 0 [("outputType", JStr "domains")]) "outputType") (JStr "domains"))
          (with_default (get_prop (JObj 0 [("outputType", JStr "domains")]) "maxResults") (JNum 10000))
          (with_default (get_prop (JObj 0 [("outputType", JStr "domains")]) "deduplicate") (JBool true))
          (with_default (get_prop (JObj 0 [("outputType", JStr "domains")]) "validate") (JBool true))
          (with_default (get_prop (JObj 0 [("outputType", JStr "domains")]) "sort") (JBool true))
        = inl msg ->
        pr_results r = [] /\ pr_count r = 0 /\ pr_error r = Some msg)) /\
   (forall raw, (fun _ : string => @None jsval) raw = None ->
      parseJsonOutput (fun _ => None) raw = parseTextOutput raw)) /\
  processResults (fun _ => None) code_unit_compare "subfinder"
    (JStr "a.example.com") (JObj 1 [("toString", JNum 1)])
    (JObj 0 [("outputType", JStr "domains")])
  = inr {| pr_tool := "subfinder"; pr_domain := JObj 1 [("toString", JNum 1)];
           pr_results := []; pr_count := 0; pr_outputType := None;
           pr_processed := false; pr_error := Some to_primitive_error |}.
Proof.
  split; [discriminate|]. split.
  - apply processResults_total_unless_null_options. discriminate.
  - reflexivity.
Defined.

End PipelineProofs.

Module RunnerProofs.
Import JsString Js ToolExecutor Scenarios.

Lemma processCommandArgs_set_fallbackAttempted (a : option (list string)) (ctx : Context) :
  processCommandArgs a (ctx_domain (set_fallbackAttempted ctx))
    (ctx_outputFile (set_fallbackAttempted ctx)) (ctx_executionId (set_fallbackAttempted ctx))
  = processCommandArgs a (ctx_domain ctx) (ctx_outputFile ctx) (ctx_executionId ctx).
Proof. reflexivity. Qed.

(** Once [context.fallbackAttempted] is set, [runTool] makes no recursive
    call, so one unit of fuel is as good as any. *)
Lemma runTool_fuel_attempted os n cfg ctx fs :
  ctx_fallbackAttempted ctx = true ->
  runTool_fuel os (S n) cfg ctx fs = runTool_fuel os 1 cfg ctx fs.
Proof.
  intros H. simpl.
  destruct (processCommandArgs _ _ _ _) as [e|args]; [reflexivity|].
  destruct (spec_command cfg) as [cmd|]; [|reflexivity].
  destruct (os cmd args); try reflexivity.
  destruct (spec_fallback cfg); [|reflexivity]. rewrite H. reflexivity.
Qed.

(** The fuel of [runTool] is never exhausted: any fuel of at least two
    gives the result of the recursive JavaScript function. *)
Lemma runTool_fuel_stable os n cfg ctx fs :
  2 <= n -> runTool_fuel os n cfg ctx fs = runTool os cfg ctx fs.
Proof.
  intros Hn. destruct n as [|[|n]]; [lia|lia|]. unfold runTool.
  change (runTool_fuel os (S (S n)) cfg ctx fs = runTool_fuel os 2 cfg ctx fs).
  simpl.
  destruct (processCommandArgs _ _ _ _) as [e|args]; [reflexivity|].
  destruct (spec_command cfg) as [cmd|]; [|reflexivity].
  destruct (os cmd args); reflexivity.
Qed.

(** At most two processes are ever spawned by one [runTool] call. *)
Lemma runTool_at_most_two_spawns os cfg ctx fs :
  length (snd (runTool os cfg ctx fs)) <= 2.
Proof.
  unfold runTool, runTool_fuel.
  destruct (processCommandArgs _ _ _ _) as [e|args]; [simpl; lia|].
  destruct (spec_command cfg) as [cmd|]; [|simpl; lia].
  destruct (os cmd args); try (simpl; lia).
  destruct (spec_fallback cfg) as [fb|]; [|simpl; lia].
  destruct (ctx_fallbackAttempted ctx); [simpl; lia|]. unfold starts_process; simpl.
  destruct (processCommandArgs _ _ _ _) as [e|args2]; [simpl; lia|].
  destruct (spec_command (merge_spec cfg fb)) as [cmd2|]; [|simpl; lia].
  destruct (os cmd2 args2); try (simpl; lia).
  destruct (spec_fallback (merge_spec cfg fb)); simpl; lia.
Qed.

(** C9: when the primary command fails to start and the configuration has
    a fallback, [runTool] spawns exactly one more process, with the
    command and arguments of [{ ...toolConfig, ...toolConfig.fallback }],
    and sets [context.fallbackAttempted]; if that spawn fails too, the call
    rejects with its error and no third spawn happens, whatever fallback
    the merged configuration still carries. *)
Theorem runTool_one_fallback_hop os cfg ctx fs cmd args errno msg fb :
  ctx_fallbackAttempted ctx = false ->
  spec_command cfg = Some cmd ->
  processCommandArgs (spec_args cfg) (ctx_domain ctx) (ctx_outputFile ctx)
    (ctx_executionId ctx) = inr args ->
  os cmd args = SpawnError errno msg ->
  spec_fallback cfg = Some fb ->
  exists r ctx' fs' tr,
    runTool os cfg ctx fs = (r, ctx', fs', (cmd, args) :: tr) /\
    length tr <= 1 /\
    ctx_fallbackAttempted ctx' = true /\
    (forall cmd2 args2,
       spec_command (merge_spec cfg fb) = Some cmd2 ->
       processCommandArgs (spec_args (merge_spec cfg fb)) (ctx_domain ctx)
         (ctx_outputFile ctx) (ctx_executionId ctx) = inr args2 ->
       tr = [(cmd2, args2)] /\
       (forall errno2 msg2, os cmd2 args2 = SpawnError errno2 msg2 -> r = inl msg2)).
Proof.
  intros Hatt Hcmd Hargs Hos Hfb.
  unfold runTool. simpl. rewrite Hargs, Hcmd, Hos, Hfb, Hatt. simpl.
  unfold starts_process; simpl.
  destruct (processCommandArgs (spec_args (merge_spec cfg fb)) (ctx_domain ctx)
              (ctx_outputFile ctx) (ctx_executionId ctx)) as [e|args2] eqn:Ha2.
  - do 4 eexists. split; [reflexivity|]. split; [simpl; lia|].
    split; [reflexivity|]. intros cmd2 args2' _ H. discriminate H.
  - destruct (spec_command (merge_spec cfg fb)) as [cmd2|] eqn:Hc2.
    + destruct (os cmd2 args2) as [errno2 msg2|code out file|file] eqn:Hos2.
      * destruct (spec_fallback (merge_spec cfg fb));
          do 4 eexists; (split; [reflexivity|]); (split; [simpl; lia|]);
          (split; [reflexivity|]); intros c a Hc Ha; injection Hc as <-;
          injection Ha as <-; (split; [reflexivity|]);
          intros e m Hm; rewrite Hos2 in Hm; injection Hm as <- <-; reflexivity.
      * do 4 eexists. split; [reflexivity|]. split; [simpl; lia|].
        split; [reflexivity|]. intros c a Hc Ha. injection Hc as <-.
        injection Ha as <-. split; [reflexivity|].
        intros e m Hm. rewrite Hos2 in Hm. discriminate Hm.
      * do 4 eexists. split; [reflexivity|]. split; [simpl; lia|].
        split; [reflexivity|]. intros c a Hc Ha. injection Hc as <-.
        injection Ha as <-. split; [reflexivity|].
        intros e m Hm. rewrite Hos2 in Hm. discriminate Hm.
    + do 4 eexists. split; [reflexivity|]. split; [simpl; lia|].
      split; [reflexivity|]. intros c a Hc. discriminate Hc.
Qed.

(** [nslookup] on a host without its binaries: the primary and the [sh]
    fallback are both spawned, and the call rejects with the second error. *)
Lemma runTool_one_fallback_hop_witness :
  exists r ctx' fs' tr,
    runTool os_missing (cfg_of "nslookup") (ctx_of "nslookup") [] =
      (r, ctx', fs', ("nslookup", ["example.com"]) :: tr) /\
    length tr <= 1 /\
    ctx_fallbackAttempted ctx' = true /\
    (forall cmd2 args2,
       spec_command (merge_spec (cfg_of "nslookup") (fallback_of "nslookup")) = Some cmd2 ->
       processCommandArgs (spec_args (merge_spec (cfg_of "nslookup") (fallback_of "nslookup")))
         (ctx_domain (ctx_of "nslookup")) (ctx_outputFile (ctx_of "nslookup"))
         (ctx_executionId (ctx_of "nslookup")) = inr args2 ->
       tr = [(cmd2, args2)] /\
       (forall errno2 msg2, os_missing cmd2 args2 = SpawnError errno2 msg2 -> r = inl msg2)).
Proof.
  apply (runTool_one_fallback_hop os_missing (cfg_of "nslookup") (ctx_of "nslookup") []
           "nslookup" ["example.com"] (-2)%Z "spawn nslookup ENOENT" (fallback_of "nslookup"));
    vm_compute; reflexivity.
Defined.

Lemma fs_read_write (fs : FS) (p c : string) : fs_read (fs_write fs p c) p = Some c.
Proof. simpl. rewrite String.eqb_refl. reflexivity. Qed.

Lemma fs_read_remove (fs : FS) (p : string) : fs_read (fs_remove fs p) p = None.
Proof.
  induction fs as [|[q c] r IH]; [reflexivity|]. unfold fs_remove in *. simpl.
  destruct (String.eqb q p) eqn:E; simpl.
  - exact IH.
  - rewrite String.eqb_sym, E. exact IH.
Qed.

(** C6 (as written): a clean exit (code 0) that leaves an EMPTY output file
    does not fall back to stdout: [runTool] returns the empty contents. *)
Lemma runTool_empty_file_is_not_stdout :
  exists r ctx' fs' tr,
    runTool os_empty_file (cfg_of "amass") (ctx_of "amass") [] = (inr r, ctx', fs', tr) /\
    ro_code r = 0%Z /\
    fs_read fs' (ctx_outputFile (ctx_of "amass")) = Some EmptyString /\
    ro_output r = EmptyString /\
    ro_stdout r = "www.example.com" /\
    ro_output r <> ro_stdout r.
Proof.
  do 4 eexists. split; [vm_compute; reflexivity|].
  repeat split; try reflexivity. vm_compute. discriminate.
Qed.

(** C6 (amended): when the spawned process starts and emits [close]
    before the timeout fires, whatever its exit code, [runTool] resolves
    with that exit code and the captured stdout; its [output] is the
    contents of the output file whenever that file exists after the run
    (even when empty) and the captured stdout only when no file exists.
    The file exists after the run iff the process created it or it existed
    before.  (After a timeout or a spawn error the promise has already
    rejected, or follows the fallback, when [close] comes.) *)
Theorem runTool_close_output os cfg ctx fs cmd args code out file :
  spec_command cfg = Some cmd ->
  processCommandArgs (spec_args cfg) (ctx_domain ctx) (ctx_outputFile ctx)
    (ctx_executionId ctx) = inr args ->
  os cmd args = Exit code out file ->
  exists r fs',
    runTool os cfg ctx fs = (inr r, ctx, fs', [(cmd, args)]) /\
    ro_code r = code /\ ro_stdout r = out /\
    fs_read fs' (ctx_outputFile ctx) =
      match file with Some c => Some c | None => fs_read fs (ctx_outputFile ctx) end /\
    ro_output r = match fs_read fs' (ctx_outputFile ctx) with
                  | Some c => c
                  | None => out
                  end.
Proof.
  intros Hcmd Hargs Hos. unfold runTool. simpl. rewrite Hargs, Hcmd, Hos.
  do 2 eexists. split; [reflexivity|]. simpl.
  split; [reflexivity|]. split; [reflexivity|]. split; [|reflexivity].
  destruct file as [c|]; [apply fs_read_write|reflexivity].
Qed.

(** [amass] leaving an empty output file after a clean exit. *)
Lemma runTool_close_output_witness :
  exists r fs',
    runTool os_empty_file (cfg_of "amass") (ctx_of "amass") [] =
      (inr r, ctx_of "amass", fs', [("amass", ["enum"; "-passive"; "-d"; "example.com"; "-o";
                                             ctx_outputFile (ctx_of "amass")])]) /\
    ro_code r = 0%Z /\ ro_stdout r = "www.example.com" /\
    fs_read fs' (ctx_outputFile (ctx_of "amass")) = Some EmptyString /\
    ro_output r = match fs_read fs' (ctx_outputFile (ctx_of "amass")) with
                  | Some c => c
                  | None => "www.example.com"
                  end.
Proof.
  apply (runTool_close_output os_empty_file (cfg_of "amass") (ctx_of "amass") [] "amass"
           ["enum"; "-passive"; "-d"; "example.com"; "-o"; ctx_outputFile (ctx_of "amass")]
           0%Z "www.example.com" (Some EmptyString));
    vm_compute; reflexivity.
Defined.

End RunnerProofs.

Module ExecutorProofs.
Import JsString Js ToolExecutor Scenarios.

Lemma processResults_count tool result ctx fs :
  pd_count (fst (processResults tool result ctx fs)) =
  length (pd_results (fst (processResults tool result ctx fs))).
Proof. unfold processResults. destruct (getToolConfiguration tool); reflexivity. Qed.

(** A resolved [runTool] reports the output file of the context it was
    called with ([set_fallbackAttempted] keeps the path). *)
Lemma runTool_fuel_outputFile os n cfg ctx fs r ctx' fs' tr :
  runTool_fuel os n cfg ctx fs = (inr r, ctx', fs', tr) ->
  ro_outputFile r = ctx_outputFile ctx.
Proof.
  revert cfg ctx fs ctx' fs' tr.
  induction n as [|n IH]; intros cfg ctx fs ctx' fs' tr H; simpl in H; [discriminate H|].
  destruct (processCommandArgs _ _ _ _) as [e|args]; [discriminate H|].
  destruct (spec_command cfg) as [cmd|]; [|discriminate H].
  destruct (os cmd args) as [errno msg|code out file|file].
  - destruct (spec_fallback cfg) as [fb|]; [|discriminate H].
    destruct (negb (ctx_fallbackAttempted ctx)); [|discriminate H].
    destruct (runTool_fuel os n (merge_spec cfg fb) (set_fallbackAttempted ctx) fs)
      as [[[r0 c0] f0] t0] eqn:Hr.
    destruct (starts_process os (merge_spec cfg fb) (set_fallbackAttempted ctx)).
    + injection H as <- _ _ _. reflexivity.
    + injection H as -> -> -> <-. exact (IH _ _ _ _ _ _ Hr).
  - injection H as <- _ _ _. reflexivity.
  - discriminate H.
Qed.

(** The success path of [executeSingleTool] ends with the output file of
    its context removed. *)
Lemma executeSingleTool_success_removes_file os dir tool domain id ts fs :
  tr_success (fst (executeSingleTool os dir tool domain id ts fs)) = true ->
  fs_read (snd (executeSingleTool os dir tool domain id ts fs))
    (ctx_outputFile (createExecutionContext dir tool domain id ts)) = None.
Proof.
  unfold executeSingleTool.
  destruct (getToolConfiguration tool) as [msg|cfg] eqn:Hcfg; [discriminate|].
  destruct (validateInputs tool domain) as [msg|u]; [discriminate|].
  destruct (runTool os cfg (createExecutionContext dir tool domain id ts) fs)
    as [[[r ctx'] fs1] tr] eqn:Hrun.
  destruct r as [msg|res]; [discriminate|]. intros _.
  apply runTool_fuel_outputFile in Hrun.
  unfold processResults. rewrite Hcfg. simpl. rewrite Hrun.
  apply RunnerProofs.fs_read_remove.
Qed.

(** C4: every [executeSingleTool] result carries [count = results.length]
    when it succeeds and NO [count] key at all when it fails; an unknown
    tool name is such a failure. *)
Theorem executeSingleTool_count_only_on_success :
  (forall os dir tool domain id ts fs,
     let r := fst (executeSingleTool os dir tool domain id ts fs) in
     tr_count r = if tr_success r then Some (length (tr_results r)) else None) /\
  (let r := fst (executeSingleTool os_missing results_dir "nosuchtool" "example.com" "e1" 1 []) in
   tr_success r = false /\ tr_results r = [] /\ tr_count r = None /\
   tr_error r = Some "Unknown tool: nosuchtool").
Proof.
  split; [|vm_compute; repeat split; reflexivity].
  intros os dir tool domain id ts fs. unfold executeSingleTool.
  destruct (getToolConfiguration tool) as [msg|cfg]; [reflexivity|].
  destruct (validateInputs tool domain) as [msg|u]; [reflexivity|].
  destruct (runTool os cfg _ fs) as [[[r ctx'] fs1] tr].
  destruct r as [msg|res]; [reflexivity|].
  destruct (processResults tool res ctx' fs1) as [pd fs2] eqn:Hp. simpl.
  pose proof (processResults_count tool res ctx' fs1) as Hc. rewrite Hp in Hc.
  simpl in Hc. rewrite Hc. reflexivity.
Qed.

(** C5: the output file is removed only on the success path.  When
    [amass] writes its output file and then runs past its timeout, the
    call fails with the timeout error and the file is left behind. *)
Theorem executeSingleTool_timeout_leaves_output_file :
  (forall os dir tool domain id ts fs,
     tr_success (fst (executeSingleTool os dir tool domain id ts fs)) = true ->
     fs_read (snd (executeSingleTool os dir tool domain id ts fs))
       (ctx_outputFile (createExecutionContext dir tool domain id ts)) = None) /\
  (let '(r, fs') := executeSingleTool os_timeout results_dir "amass" "example.com" "e1" 1 [] in
   tr_success r = false /\
   tr_error r = Some "Tool execution timeout after 300000ms" /\
   fs_read fs' (ctx_outputFile (ctx_of "amass")) = Some "www.example.com").
Proof.
  split; [exact executeSingleTool_success_removes_file|].
  vm_compute. repeat split; reflexivity.
Qed.

End ExecutorProofs.

Module CoordinatorProofs.
Import JsString Js ToolExecutor Scenarios SpecDefs.

Lemma executeSingleTool_tool os dir tool domain id ts fs :
  tr_tool (fst (executeSingleTool os dir tool domain id ts fs)) = Some tool.
Proof.
  unfold executeSingleTool.
  destruct (getToolConfiguration tool) as [msg|cfg]; [reflexivity|].
  destruct (validateInputs tool domain) as [msg|u]; [reflexivity|].
  destruct (runTool os cfg _ fs) as [[[r ctx'] fs1] tr].
  destruct r as [msg|res]; [reflexivity|].
  destruct (processResults tool res ctx' fs1) as [pd fs2]. reflexivity.
Qed.

Lemma executeSingleTool_failure_error os dir tool domain id ts fs :
  tr_success (fst (executeSingleTool os dir tool domain id ts fs)) = false ->
  exists msg, tr_error (fst (executeSingleTool os dir tool domain id ts fs)) = Some msg.
Proof.
  unfold executeSingleTool.
  destruct (getToolConfiguration tool) as [msg|cfg]; [eexists; reflexivity|].
  destruct (validateInputs tool domain) as [msg|u]; [eexists; reflexivity|].
  destruct (runTool os cfg _ fs) as [[[r ctx'] fs1] tr].
  destruct r as [msg|res]; [eexists; reflexivity|].
  destruct (processResults tool res ctx' fs1) as [pd fs2]. discriminate.
Qed.

(** *** Batches *)

Lemma slice_length {A} (i j : nat) (l : list A) : length (slice i j l) <= j - i.
Proof. unfold slice. rewrite length_firstn. lia. Qed.

Lemma batch_loop_concat {A} (fuel i bs : nat) (tools : list A) :
  1 <= bs -> length tools - i < fuel ->
  concat (batch_loop fuel i bs tools) = skipn i tools.
Proof.
  revert i. induction fuel as [|fuel IH]; intros i Hbs Hf; [lia|]. simpl.
  destruct (i <? length tools) eqn:Hi.
  - apply Nat.ltb_lt in Hi. simpl. rewrite IH by lia. unfold slice.
    replace (i + bs - i) with bs by lia.
    replace (i + bs) with (bs + i) by lia. rewrite <- skipn_skipn.
    apply firstn_skipn.
  - apply Nat.ltb_ge in Hi. symmetry. apply skipn_all2. exact Hi.
Qed.

Lemma batch_loop_sizes {A} (fuel i bs : nat) (tools : list A) :
  Forall (fun b => length b <= bs) (batch_loop fuel i bs tools).
Proof.
  revert i. induction fuel as [|fuel IH]; intros i; simpl; [constructor|].
  destruct (i <? length tools); [|constructor].
  constructor; [|apply IH]. pose proof (slice_length i (i + bs) tools). lia.
Qed.

(** With [maxConcurrent >= 1], [createConcurrentBatches] cuts the tool list
    into consecutive slices of at most [maxConcurrent] names. *)
Lemma createConcurrentBatches_spec {A} (maxConcurrent : nat) (tools : list A) :
  1 <= maxConcurrent ->
  exists batches,
    createConcurrentBatches maxConcurrent tools = Some batches /\
    concat batches = tools /\
    Forall (fun b => length b <= maxConcurrent) batches.
Proof.
  intros Hm. unfold createConcurrentBatches.
  destruct tools as [|t rest].
  - simpl. rewrite Nat.min_0_r. simpl.
    eexists. split; [reflexivity|]. split; [reflexivity|]. constructor.
  - assert (Hbs : 1 <= Nat.min maxConcurrent (length (t :: rest))) by (simpl; lia).
    destruct (Nat.min maxConcurrent (length (t :: rest)) =? 0) eqn:E;
      [apply Nat.eqb_eq in E; lia|].
    eexists. split; [reflexivity|]. split.
    + rewrite batch_loop_concat by (try exact Hbs; lia). reflexivity.
    + eapply Forall_impl; [|apply batch_loop_sizes]. intros b Hb. simpl in Hb. lia.
Qed.

(** *** [Promise.allSettled] *)

Lemma length_set_nth {A} (k : nat) (x : A) (l : list A) :
  length (set_nth k x l) = length l.
Proof.
  revert k. induction l as [|y r IH]; intros [|k]; simpl; try reflexivity.
  rewrite IH. reflexivity.
Qed.

Lemma nth_error_set_nth_same {A} (k : nat) (x : A) (l : list A) :
  k < length l -> nth_error (set_nth k x l) k = Some x.
Proof.
  revert k. induction l as [|y r IH]; intros [|k] H; simpl in *; try lia; try reflexivity.
  apply IH. lia.
Qed.

Lemma nth_error_set_nth_other {A} (k j : nat) (x : A) (l : list A) :
  j <> k -> nth_error (set_nth k x l) j = nth_error l j.
Proof.
  revert k j. induction l as [|y r IH]; intros [|k] [|j] H; simpl; try reflexivity; try lia.
  apply IH. lia.
Qed.

Section AllSettled.

Variable Q : nat -> Settled -> Prop.
Variable n : nat.

Lemma fold_slots (c : list (nat * Settled)) (acc : list (option Settled)) :
  (length acc = n /\ forall k s, nth_error acc k = Some (Some s) -> Q k s) ->
  (forall p, In p c -> Q (fst p) (snd p)) ->
  let acc' := fold_left (fun acc c => set_nth (fst c) (Some (snd c)) acc) c acc in
  (length acc' = n /\ forall k s, nth_error acc' k = Some (Some s) -> Q k s) /\
  (forall k, k < n -> (In k (map fst c) \/ exists s, nth_error acc k = Some (Some s)) ->
             exists s, nth_error acc' k = Some (Some s)).
Proof.
  revert acc. induction c as [|[k0 s0] c IH]; intros acc [Hlen HQ] Hc; simpl.
  - split; [split; assumption|]. intros k Hk [[]|H]. exact H.
  - assert (Hinv : length (set_nth k0 (Some s0) acc) = n /\
                   forall k s, nth_error (set_nth k0 (Some s0) acc) k = Some (Some s) -> Q k s).
    { split; [rewrite length_set_nth; exact Hlen|].
      intros k s Hk. destruct (Nat.eq_dec k k0) as [->|Hne].
      - destruct (Nat.lt_ge_cases k0 (length acc)) as [Hlt|Hge].
        + rewrite nth_error_set_nth_same in Hk by exact Hlt. injection Hk as <-.
          exact (Hc (k0, s0) (or_introl eq_refl)).
        + assert (Hn : nth_error (set_nth k0 (Some s0) acc) k0 = None)
            by (apply nth_error_None; rewrite length_set_nth; exact Hge).
          congruence.
      - rewrite nth_error_set_nth_other in Hk by exact Hne. exact (HQ k s Hk). }
    destruct (IH _ Hinv (fun p Hp => Hc p (or_intror Hp))) as [Hinv' Hfill].
    split; [exact Hinv'|]. intros k Hk Hor. apply Hfill; [exact Hk|].
    destruct Hor as [[Heq|Hin]|[s Hs]].
    + simpl in Heq. subst k0. right. exists s0.
      apply nth_error_set_nth_same. lia.
    + left. exact Hin.
    + destruct (Nat.eq_dec k k0) as [->|Hne].
      * right. exists s0. apply nth_error_set_nth_same. lia.
      * right. exists s. rewrite nth_error_set_nth_other by exact Hne. exact Hs.
Qed.

(** When every position [k < n] settles, [Promise.allSettled] resolves
    with a list of length [n] whose [k]-th entry is an outcome settled at
    position [k]. *)
Lemma all_settled_spec (c : list (nat * Settled)) :
  (forall k, k < n -> In k (map fst c)) ->
  (forall p, In p c -> Q (fst p) (snd p)) ->
  exists l, all_settled n c = Some l /\ length l = n /\
            forall k s, nth_error l k = Some s -> Q k s.
Proof.
  intros Hcov HQ. unfold all_settled.
  assert (H0 : length (repeat (@None Settled) n) = n /\
               forall k s, nth_error (repeat None n) k = Some (Some s) -> Q k s).
  { split; [apply repeat_length|]. intros k s Hk.
    apply nth_error_In in Hk. apply repeat_spec in Hk. discriminate Hk. }
  destruct (fold_slots c _ H0 HQ) as [[Hlen HQ'] Hfill].
  set (slots := fold_left _ c (repeat None n)) in *.
  assert (Hall : forall k, k < n -> exists s, nth_error slots k = Some (Some s)).
  { intros k Hk. apply Hfill; [exact Hk|]. left. apply Hcov. exact Hk. }
  assert (Hb : forallb (fun o => match o with Some _ => true | None => false end) slots = true).
  { apply forallb_forall. intros o Ho. apply In_nth_error in Ho as [k Hk].
    assert (Hkn : k < n) by (rewrite <- Hlen; apply nth_error_Some; congruence).
    destruct (Hall k Hkn) as [s Hs]. rewrite Hs in Hk. injection Hk as <-. reflexivity. }
  rewrite Hb. eexists. split; [reflexivity|]. split; [rewrite length_map; exact Hlen|].
  intros k s Hk. rewrite nth_error_map in Hk.
  destruct (nth_error slots k) as [[s'|]|] eqn:Hs; simpl in Hk; try discriminate Hk.
  - injection Hk as <-. exact (HQ' k s' Hs).
  - assert (Hkn : k < n) by (rewrite <- Hlen; apply nth_error_Some; congruence).
    destruct (Hall k Hkn) as [s'' Hs'']. congruence.
Qed.

End AllSettled.

(** *** Batches and calls *)

Section Runs.

Variable os : string -> list string -> Proc.
Variable dir : string.
Variable maxConcurrent : nat.
Variable domain : string.
Variable ids : nat -> string.
Variable ts : nat -> Z.

Lemma run_batch_spec (offset : nat) (batch : list string) (order : list nat) (fs : FS) :
  map fst (fst (run_batch os dir domain ids ts offset batch order fs)) = order /\
  forall p, In p (fst (run_batch os dir domain ids ts offset batch order fs)) ->
            settles_as os dir domain ids ts offset batch (fst p) (snd p).
Proof.
  unfold run_batch.
  assert (G : forall (done_ : list (nat * Settled)) fs,
    (forall p, In p done_ -> settles_as os dir domain ids ts offset batch (fst p) (snd p)) ->
    map fst (fst (fold_left (fun acc k =>
      let '(done_, fs0) := acc in
      let '(r, fs1) := executeSingleTool os dir (nth k batch EmptyString)
                         domain (ids (offset + k)) (ts (offset + k)) fs0 in
      (done_ ++ [(k, Fulfilled r)], fs1)) order (done_, fs))) = map fst done_ ++ order /\
    forall p, In p (fst (fold_left (fun acc k =>
      let '(done_, fs0) := acc in
      let '(r, fs1) := executeSingleTool os dir (nth k batch EmptyString)
                         domain (ids (offset + k)) (ts (offset + k)) fs0 in
      (done_ ++ [(k, Fulfilled r)], fs1)) order (done_, fs))) ->
      settles_as os dir domain ids ts offset batch (fst p) (snd p)).
  { induction order as [|k order IH]; intros done_ fs0 Hd; simpl.
    - split; [symmetry; apply app_nil_r|exact Hd].
    - destruct (executeSingleTool os dir (nth k batch EmptyString) domain
                  (ids (offset + k)) (ts (offset + k)) fs0) as [r fs1] eqn:He.
      destruct (IH (done_ ++ [(k, Fulfilled r)]) fs1) as [Hm Hp].
      + intros p Hin. apply in_app_or in Hin as [Hin|[<-|[]]]; [exact (Hd p Hin)|].
        exists fs0. simpl. rewrite He. reflexivity.
      + split; [|exact Hp]. rewrite Hm, map_app, <- app_assoc. reflexivity. }
  destruct (G [] fs) as [Hm Hp]; [intros p []|]. split; [exact Hm|exact Hp].
Qed.

Lemma completion_order_ok_cover (o : list nat) (m : nat) :
  completion_order_ok o m = true -> forall k, k < m -> In k o.
Proof.
  unfold completion_order_ok. intros H k Hk. apply andb_prop in H as [_ H].
  rewrite forallb_forall in H. specialize (H k (proj2 (in_seq m 0 k) (conj (Nat.le_0_l k) Hk))).
  apply existsb_exists in H as [x [Hx Heq]]. apply Nat.eqb_eq in Heq. subst. exact Hx.
Qed.

Lemma run_batches_spec (order : nat -> list nat) (batches : list (list string)) :
  forall b offset fs,
  orders_ok_from order b batches = true ->
  exists results fs',
    run_batches os dir domain ids ts order b offset batches fs = Some (results, fs') /\
    length results = length (concat batches) /\
    forall i, i < length (concat batches) ->
      exists fs0, nth_error results i =
        Some (fst (executeSingleTool os dir (nth i (concat batches) EmptyString) domain
                     (ids (offset + i)) (ts (offset + i)) fs0)).
Proof.
  induction batches as [|batch rest IH]; intros b offset fs Hok.
  - exists [], fs. split; [reflexivity|]. split; [reflexivity|]. simpl. lia.
  - simpl in Hok. apply andb_prop in Hok as [Hb Hrest]. simpl.
    destruct (run_batch os dir domain ids ts offset batch (order b) fs)
      as [completions fs1] eqn:Hrun.
    destruct (run_batch_spec offset batch (order b) fs) as [Hmap Hset].
    rewrite Hrun in Hmap, Hset. simpl in Hmap, Hset.
    destruct (all_settled_spec (settles_as os dir domain ids ts offset batch) (length batch)
                completions)
      as [l [Hl [Hlen Hq]]].
    { intros k Hk. rewrite Hmap. exact (completion_order_ok_cover _ _ Hb k Hk). }
    { exact Hset. }
    rewrite Hl.
    destruct (IH (S b) (offset + length batch) fs1 Hrest) as [results [fs2 [Hr [Hrl Hri]]]].
    rewrite Hr. eexists; eexists. split; [reflexivity|].
    rewrite length_app, length_map, Hlen, Hrl, length_app. split; [reflexivity|].
    intros i Hi. change (concat (batch :: rest)) with (batch ++ concat rest) in *.
    destruct (Nat.lt_ge_cases i (length batch)) as [Hlt|Hge].
    + rewrite nth_error_app1 by (rewrite length_map; lia).
      rewrite app_nth1 by exact Hlt. rewrite nth_error_map.
      destruct (nth_error l i) as [s|] eqn:Hs.
      * destruct (Hq i s Hs) as [fs0 ->]. exists fs0. reflexivity.
      * apply nth_error_None in Hs. lia.
    + rewrite nth_error_app2 by (rewrite length_map; lia).
      rewrite app_nth2 by exact Hge. rewrite length_map, Hlen.
      destruct (Hri (i - length batch) ltac:(lia)) as [fs0 H0].
      replace (offset + length batch + (i - length batch)) with (offset + i) in H0 by lia.
      exists fs0. exact H0.
Qed.

Lemma executeTools_entries tools order fs :
  1 <= maxConcurrent ->
  orders_ok maxConcurrent tools order = true ->
  exists ex fs',
    executeTools os dir maxConcurrent tools domain ids ts order fs = Some (ex, fs') /\
    ex_success ex = true /\ ex_error ex = None /\
    length (ex_results ex) = length tools /\
    forall i, i < length tools ->
      exists fs0, nth_error (ex_results ex) i =
        Some (fst (executeSingleTool os dir (nth i tools EmptyString) domain
                     (ids i) (ts i) fs0)).
Proof.
  intros Hm Hok. unfold orders_ok in Hok.
  destruct (createConcurrentBatches_spec maxConcurrent tools Hm) as [batches [Hc [Hcat _]]].
  rewrite Hc in Hok.
  destruct (run_batches_spec order batches 0 0 fs Hok) as [results [fs' [Hr [Hl Hi]]]].
  unfold executeTools, executeMultipleTools. rewrite Hc, Hr.
  eexists; eexists. split; [reflexivity|]. simpl.
  rewrite Hcat in Hl, Hi. split; [reflexivity|]. split; [reflexivity|].
  split; [exact Hl|]. exact Hi.
Qed.

End Runs.

(** C2: with [maxConcurrent >= 1] and any completion order of every batch,
    [executeTools] cuts [toolNames] into consecutive slices of at most
    [maxConcurrent] names and returns exactly one result per name, in the
    order of [toolNames]: [results[i].tool == toolNames[i]]. *)
Theorem executeTools_results_follow_toolNames os dir maxConcurrent tools domain ids ts
  order fs :
  1 <= maxConcurrent ->
  orders_ok maxConcurrent tools order = true ->
  exists batches ex fs',
    createConcurrentBatches maxConcurrent tools = Some batches /\
    concat batches = tools /\
    Forall (fun b => length b <= maxConcurrent) batches /\
    executeTools os dir maxConcurrent tools domain ids ts order fs = Some (ex, fs') /\
    length (ex_results ex) = length tools /\
    map tr_tool (ex_results ex) = map Some tools.
Proof.
  intros Hm Hok.
  destruct (createConcurrentBatches_spec maxConcurrent tools Hm) as [batches [Hc [Hcat Hsz]]].
  destruct (executeTools_entries os dir maxConcurrent domain ids ts tools order fs Hm Hok)
    as [ex [fs' [He [_ [_ [Hl Hi]]]]]].
  exists batches, ex, fs'. do 4 (split; [assumption|]). split; [exact Hl|].
  apply nth_error_ext. intros i. rewrite !nth_error_map.
  destruct (Nat.lt_ge_cases i (length tools)) as [Hlt|Hge].
  - destruct (Hi i Hlt) as [fs0 ->]. simpl. rewrite executeSingleTool_tool.
    rewrite (nth_error_nth' tools EmptyString Hlt). reflexivity.
  - rewrite (proj2 (nth_error_None tools i) Hge).
    rewrite (proj2 (nth_error_None (ex_results ex) i)) by lia. reflexivity.
Qed.

(** Six tools in two batches under [maxConcurrent = 5], the first batch
    settling in reverse order. *)
Lemma executeTools_results_follow_toolNames_witness :
  exists batches ex fs',
    createConcurrentBatches 5 six_tools = Some batches /\
    concat batches = six_tools /\
    Forall (fun b => length b <= 5) batches /\
    executeTools os_empty_file results_dir 5 six_tools "example.com" exec_ids exec_ts
      reverse_order [] = Some (ex, fs') /\
    length (ex_results ex) = length six_tools /\
    map tr_tool (ex_results ex) = map Some six_tools.
Proof.
  apply (executeTools_results_follow_toolNames os_empty_file results_dir 5 six_tools
           "example.com" exec_ids exec_ts reverse_order []);
    [lia | vm_compute; reflexivity].
Defined.

(** C3: with [maxConcurrent >= 1] and any completion order of every batch,
    [executeTools] returns [success: true] and no error, whatever the
    tools do; the [i]-th result is the outcome of running [toolNames[i]]
    alone (on the file system left by the tools that finished before it),
    so a failing tool only yields its own failed entry, which carries its
    error, and every other tool still runs. *)
Theorem executeTools_isolates_failures os dir maxConcurrent tools domain ids ts order fs :
  1 <= maxConcurrent ->
  orders_ok maxConcurrent tools order = true ->
  exists ex fs',
    executeTools os dir maxConcurrent tools domain ids ts order fs = Some (ex, fs') /\
    ex_success ex = true /\ ex_error ex = None /\
    length (ex_results ex) = length tools /\
    forall i, i < length tools ->
      exists fs0 r,
        r = fst (executeSingleTool os dir (nth i tools EmptyString) domain (ids i) (ts i) fs0) /\
        nth_error (ex_results ex) i = Some r /\
        tr_tool r = Some (nth i tools EmptyString) /\
        (tr_success r = false -> exists msg, tr_error r = Some msg).
Proof.
  intros Hm Hok.
  destruct (executeTools_entries os dir maxConcurrent domain ids ts tools order fs Hm Hok)
    as [ex [fs' [He [Hs [Herr [Hl Hi]]]]]].
  exists ex, fs'. split; [exact He|]. split; [exact Hs|]. split; [exact Herr|].
  split; [exact Hl|]. intros i Hlt. destruct (Hi i Hlt) as [fs0 H0].
  exists fs0. eexists. split; [reflexivity|]. split; [exact H0|].
  split; [apply executeSingleTool_tool|].
  apply executeSingleTool_failure_error.
Qed.

(** Six tools, none of them installed and one unknown: every entry fails,
    the call still succeeds. *)
Lemma executeTools_isolates_failures_witness :
  (exists ex fs',
    executeTools os_missing results_dir 5 six_tools "example.com" exec_ids exec_ts
      reverse_order [] = Some (ex, fs') /\
    ex_success ex = true /\ ex_error ex = None /\
    length (ex_results ex) = length six_tools /\
    forall i, i < length six_tools ->
      exists fs0 r,
        r = fst (executeSingleTool os_missing results_dir (nth i six_tools EmptyString)
                   "example.com" (exec_ids i) (exec_ts i) fs0) /\
        nth_error (ex_results ex) i = Some r /\
        tr_tool r = Some (nth i six_tools EmptyString) /\
        (tr_success r = false -> exists msg, tr_error r = Some msg)) /\
  option_map (fun p => (ex_success (fst p), map tr_success (ex_results (fst p))))
    (executeTools os_missing results_dir 5 six_tools "example.com" exec_ids exec_ts
       reverse_order []) = Some (true, [false; false; false; false; false; false]).
Proof.
  split; [|vm_compute; reflexivity].
  apply (executeTools_isolates_failures os_missing results_dir 5 six_tools
           "example.com" exec_ids exec_ts reverse_order []);
    [lia | vm_compute; reflexivity].
Defined.

End CoordinatorProofs.

Module SlotProofs.
Import Slots.

Lemma step_fn_step m s i s' : step_fn m s i = Some s' -> step m s s'.
Proof.
  unfold step_fn. destruct (nth_error (tasks s) i) as [p|] eqn:Hp; [|discriminate].
  destruct p; try discriminate; intros H.
  - destruct (m <=? counter s) eqn:E; injection H as <-;
      [apply st_check_full; [exact Hp|apply Nat.leb_le; exact E]
      |apply st_check_free; [exact Hp|apply Nat.leb_gt; exact E]].
  - injection H as <-. apply st_wake. exact Hp.
  - injection H as <-. apply st_increment. exact Hp.
  - injection H as <-. apply st_spawn. exact Hp.
Qed.

(** Every state [run_schedule] reaches is reachable by [step]. *)
Lemma run_schedule_reachable m s0 sched : forall s s',
  reachable m s0 s -> run_schedule m s sched = Some s' -> reachable m s0 s'.
Proof.
  induction sched as [|i r IH]; intros s s' Hr H; simpl in H.
  - injection H as <-. exact Hr.
  - destruct (step_fn m s i) as [s1|] eqn:Hs; [|discriminate].
    apply (IH s1); [|exact H]. apply (reach_step m s0 s s1 Hr). exact (step_fn_step m s i s1 Hs).
Qed.

Lemma set_nth_repeat_app (p q : phase) (k r : nat) :
  ToolExecutor.set_nth k q (repeat q k ++ repeat p (S r)) = repeat q (S k) ++ repeat p r.
Proof.
  induction k as [|k IH]; [reflexivity|]. simpl. simpl in IH. rewrite IH. reflexivity.
Qed.

Lemma nth_error_repeat_app (p q : phase) (k r : nat) :
  nth_error (repeat q k ++ repeat p (S r)) k = Some p.
Proof. rewrite nth_error_app2 by (rewrite repeat_length; lia).
  rewrite repeat_length, Nat.sub_diag. reflexivity. Qed.

(** Moving tasks [k, k+1, ...] one after another from phase [p] to [q]. *)
Lemma run_phase (m : nat) (p q : phase) (f : nat -> nat) (G : nat -> Prop) :
  (forall c tl i, nth_error tl i = Some p -> G c ->
     step_fn m {| counter := c; tasks := tl |} i =
     Some {| counter := f c; tasks := ToolExecutor.set_nth i q tl |}) ->
  (forall c, G c -> G (f c)) ->
  forall r k c, G c ->
  exists c', G c' /\
    run_schedule m {| counter := c; tasks := repeat q k ++ repeat p r |} (seq k r) =
    Some {| counter := c'; tasks := repeat q (k + r) |}.
Proof.
  intros Hstep HG r. induction r as [|r IH]; intros k c Hc.
  - exists c. split; [exact Hc|]. simpl. rewrite app_nil_r, Nat.add_0_r. reflexivity.
  - change (seq k (S r)) with (k :: seq (S k) r). cbn [run_schedule].
    rewrite (Hstep c _ k (nth_error_repeat_app p q k r) Hc).
    rewrite set_nth_repeat_app.
    destruct (IH (S k) (f c) (HG c Hc)) as [c' [Hc' Hrun]].
    exists c'. split; [exact Hc'|]. rewrite Hrun. do 3 f_equal. lia.
Qed.

Lemma running_processes_all_spawned (c n : nat) :
  running_processes {| counter := c; tasks := repeat Spawned n |} = n.
Proof.
  unfold running_processes. simpl. induction n as [|n IH]; [reflexivity|].
  simpl. rewrite IH. reflexivity.
Qed.

(** C1: the slot test and the increment are not atomic.  For every limit
    [maxConcurrent >= 1] and every number [n] of [executeSingleTool] calls
    entered together (e.g. by overlapping [executeTools] calls), some
    interleaving has all [n] external processes running at once; in
    particular two overlapping calls of five tools each under the
    configured [maxConcurrent = 5] run ten processes at once. *)
Theorem slot_check_races_past_maxConcurrent :
  (forall maxConcurrent n, 1 <= maxConcurrent ->
     exists s, reachable maxConcurrent (init n) s /\ running_processes s = n) /\
  (exists s, run_schedule 5 (init 10) two_calls_schedule = Some s /\
     reachable 5 (init 10) s /\ running_processes s = 10 /\ 5 < running_processes s).
Proof.
  split.
  - intros m n Hm.
    (* every call tests [counter < maxConcurrent] while the counter is 0 *)
    destruct (run_phase m Checking Resuming id (fun c => c = 0)
                (fun c tl i Hi Hc => ltac:(unfold step_fn; simpl; rewrite Hi, Hc;
                   destruct (m <=? 0) eqn:E; [apply Nat.leb_le in E; lia|reflexivity]))
                (fun c Hc => Hc) n 0 0 eq_refl) as [c1 [_ H1]].
    (* then every call increments the counter *)
    destruct (run_phase m Resuming Holding S (fun _ => True)
                (fun c tl i Hi _ => ltac:(unfold step_fn; simpl; rewrite Hi; reflexivity))
                (fun _ _ => I) n 0 c1 I) as [c2 [_ H2]].
    (* then every call spawns its process *)
    destruct (run_phase m Holding Spawned id (fun _ => True)
                (fun c tl i Hi _ => ltac:(unfold step_fn; simpl; rewrite Hi; reflexivity))
                (fun _ _ => I) n 0 c2 I) as [c3 [_ H3]].
    simpl in H1, H2, H3.
    exists {| counter := c3; tasks := repeat Spawned n |}.
    split; [|apply running_processes_all_spawned].
    apply (run_schedule_reachable m (init n) (seq 0 n)
             {| counter := c2; tasks := repeat Holding n |}); [|exact H3].
    apply (run_schedule_reachable m (init n) (seq 0 n)
             {| counter := c1; tasks := repeat Resuming n |}); [|exact H2].
    apply (run_schedule_reachable m (init n) (seq 0 n) (init n)); [apply reach_refl|].
    exact H1.
  - eexists. split; [vm_compute; reflexivity|].
    split; [apply (run_schedule_reachable 5 (init 10) two_calls_schedule (init 10));
            [apply reach_refl|vm_compute; reflexivity]|].
    vm_compute. split; [reflexivity|]. repeat constructor.
Qed.

End SlotProofs.

(* ------------------------------------------------------------------ *)
(** ** Further properties of the code *)

Module StringFacts.
Import JsString Js.

Lemma all_chars_forallb (p : ascii -> bool) (s : string) :
  all_chars p s = forallb p (list_ascii_of_string s).
Proof. induction s as [|c r IH]; simpl; [reflexivity|now rewrite IH]. Qed.

Lemma all_chars_impl (p q : ascii -> bool) (s : string) :
  (forall c, p c = true -> q c = true) -> all_chars p s = true -> all_chars q s = true.
Proof.
  intros H; induction s as [|c r IH]; simpl; [reflexivity|].
  intros Hc; apply andb_prop in Hc as [H1 H2]; rewrite (H c H1); simpl; auto.
Qed.

(** Every character of [s] is [sep] or lies in a piece of [s.split(sep)]. *)
Lemma all_chars_split (q : ascii -> bool) (sep : ascii) (s : string) :
  (forall l, In l (split_char sep s) -> all_chars q l = true) ->
  all_chars (fun c => q c || Ascii.eqb c sep) s = true.
Proof.
  induction s as [|c r IH]; intros H; simpl; [reflexivity|].
  simpl in H. destruct (Ascii.eqb c sep) eqn:E.
  - rewrite orb_true_r; simpl. apply IH; intros l Hl; apply H; now right.
  - destruct (split_char sep r) as [|p ps] eqn:Es.
    + specialize (H _ (or_introl eq_refl)); simpl in H.
      apply andb_prop in H as [H _]; rewrite H; simpl.
      apply IH; intros l [].
    + pose proof (H _ (or_introl eq_refl)) as Hp; simpl in Hp.
      apply andb_prop in Hp as [Hc Hp]; rewrite Hc; simpl.
      apply IH; intros l [<-|Hl]; [exact Hp|apply H; now right].
Qed.

(** The pieces of [s.split(sep)] contain no [sep]. *)
Lemma split_char_no_sep (sep : ascii) (s : string) :
  forall l, In l (split_char sep s) -> all_chars (fun c => negb (Ascii.eqb c sep)) l = true.
Proof.
  induction s as [|c r IH]; simpl; intros l Hl.
  - destruct Hl as [<-|[]]; reflexivity.
  - destruct (Ascii.eqb c sep) eqn:E.
    + destruct Hl as [<-|Hl]; [reflexivity|auto].
    + destruct (split_char sep r) as [|p ps] eqn:Es.
      * destruct Hl as [<-|[]]; simpl; rewrite E; reflexivity.
      * destruct Hl as [<-|Hl].
        -- simpl; rewrite E; simpl; apply IH; now left.
        -- apply IH; now right.
Qed.

Lemma drop_ws_suffix (l : list ascii) : exists p, l = p ++ drop_ws l.
Proof.
  induction l as [|c r IH]; simpl; [now exists []|].
  destruct (is_ws c); [destruct IH as [p Hp]; exists (c :: p); simpl; now f_equal|now exists []].
Qed.

Lemma drop_ws_head (l : list ascii) :
  match drop_ws l with [] => True | c :: _ => is_ws c = false end.
Proof.
  induction l as [|c r IH]; simpl; [exact I|].
  destruct (is_ws c) eqn:E; [exact IH|exact E].
Qed.

Lemma drop_ws_id (l : list ascii) :
  match l with [] => True | c :: _ => is_ws c = false end -> drop_ws l = l.
Proof. destruct l as [|c r]; simpl; [reflexivity|intros ->; reflexivity]. Qed.

Lemma forallb_app_inv {A} (p : A -> bool) (l1 l2 : list A) :
  forallb p (l1 ++ l2) = true -> forallb p l2 = true.
Proof. rewrite forallb_app; intros H; apply andb_prop in H; tauto. Qed.

Lemma forallb_rev {A} (p : A -> bool) (l : list A) : forallb p (rev l) = forallb p l.
Proof.
  induction l as [|x r IH]; simpl; [reflexivity|].
  rewrite forallb_app, IH; simpl; rewrite andb_true_r, andb_comm; reflexivity.
Qed.

Lemma forallb_drop_ws (p : ascii -> bool) (l : list ascii) :
  forallb p l = true -> forallb p (drop_ws l) = true.
Proof.
  destruct (drop_ws_suffix l) as [q Hq]; rewrite Hq at 1; apply forallb_app_inv.
Qed.

(** [trim] keeps a property every character of its argument has. *)
Lemma all_chars_trim (p : ascii -> bool) (s : string) :
  all_chars p s = true -> all_chars p (trim s) = true.
Proof.
  unfold trim; rewrite !all_chars_forallb, list_ascii_of_string_of_list_ascii.
  intros H; rewrite forallb_rev; apply forallb_drop_ws; rewrite forallb_rev.
  now apply forallb_drop_ws.
Qed.

(** [s.trim().trim() === s.trim()] *)
Lemma trim_idem (s : string) : trim (trim s) = trim s.
Proof.
  unfold trim; rewrite list_ascii_of_string_of_list_ascii; f_equal.
  set (T := drop_ws (list_ascii_of_string s)).
  set (U := drop_ws (rev T)).
  assert (HU : match rev U with [] => True | c :: _ => is_ws c = false end).
  { pose proof (drop_ws_head (list_ascii_of_string s)) as HT; fold T in HT.
    destruct T as [|c r] eqn:ET.
    - subst U; simpl; exact I.
    - destruct (drop_ws_suffix (rev (c :: r))) as [q Hq]; fold U in Hq.
      destruct (rev U) as [|x u] eqn:EU; [exact I|].
      assert (U = rev u ++ [x]) as HU'.
      { rewrite <- (rev_involutive U), EU; reflexivity. }
      simpl in Hq; rewrite HU', app_assoc in Hq.
      apply app_inj_tail in Hq as [_ <-]; exact HT. }
  rewrite (drop_ws_id _ HU), rev_involutive.
  assert (HU2 : match U with [] => True | c :: _ => is_ws c = false end)
    by apply drop_ws_head.
  now rewrite (drop_ws_id _ HU2).
Qed.

End StringFacts.

Module InputProofs.
Import JsString Js ToolExecutor StringFacts.

Lemma label_ok_chars (l : string) :
  label_ok l = true -> all_chars (fun c => is_alnum c || Ascii.eqb c "-") l = true.
Proof.
  unfold label_ok; intros H.
  apply andb_prop in H as [H _]; apply andb_prop in H as [_ H]; exact H.
Qed.

(** X1: a domain accepted by [validateInputs] is a non-empty string of
    letters, digits, dots and hyphens without [".."]: the only characters
    that reach the [{domain}] placeholders of the command lines. *)
Theorem validateInputs_domain_charset (tool domain : string) :
  validateInputs tool domain = inr tt ->
  domainRegex_test domain = true /\ includes domain ".." = false.
Proof.
  unfold validateInputs.
  destruct (String.eqb tool "") ; [discriminate|].
  destruct (String.eqb domain "") eqn:Ed; [discriminate|].
  destruct (validate_domainRegex domain) eqn:Ev; [|discriminate].
  destruct (malicious domain) eqn:Em; [discriminate|].
  intros _; split.
  - unfold domainRegex_test; rewrite Ed; simpl.
    apply (all_chars_impl (fun c => (is_alnum c || Ascii.eqb c "-") || Ascii.eqb c ".")).
    + intros c Hc; unfold domain_char.
      destruct (is_alnum c), (Ascii.eqb c "-"), (Ascii.eqb c "."); simpl in *;
        congruence.
    + apply all_chars_split; intros l Hl.
      apply label_ok_chars.
      unfold validate_domainRegex in Ev; rewrite forallb_forall in Ev; auto.
  - unfold malicious in Em.
    apply orb_false_elim in Em as [Em _]; apply orb_false_elim in Em as [_ Em]; exact Em.
Qed.

Lemma validateInputs_domain_charset_witness :
  validateInputs "amass" "scan-1.example.com" = inr tt /\
  domainRegex_test "scan-1.example.com" = true /\ includes "scan-1.example.com" ".." = false.
Proof.
  split; [vm_compute; reflexivity|].
  apply (validateInputs_domain_charset "amass"); vm_compute; reflexivity.
Defined.

End InputProofs.

Module ParserProofs.
Import JsString Js StringFacts ResultProcessor.

Lemma is_digit_code (a : ascii) : is_digit a = true -> 48 <= code a <= 57.
Proof.
  unfold is_digit; intros H; apply andb_prop in H as [H1 H2].
  apply Nat.leb_le in H1; apply Nat.leb_le in H2; lia.
Qed.

Lemma eqb_val (a b : ascii) (n : nat) :
  Ascii.eqb a b = true -> nat_of_ascii b = n -> nat_of_ascii a = n.
Proof. intros H; apply Ascii.eqb_eq in H; now subst. Qed.

(** An octet accepted by [25[0-5]|2[0-4][0-9]|[01]?[0-9][0-9]?] has one to
    three digits and a value of at most 255. *)
Lemma octet_ok_value (o : string) :
  octet_ok o = true ->
  1 <= String.length o <= 3 /\ exists z, digits_value o 0 = Some z /\ (0 <= z <= 255)%Z.
Proof.
  destruct o as [|a [|b [|c [|d r]]]]; simpl; try discriminate.
  - intros Ha; split; [lia|]; rewrite Ha; eexists; split; [reflexivity|].
    apply is_digit_code in Ha; unfold code in *; lia.
  - intros H; apply andb_prop in H as [Ha Hb]; rewrite Ha, Hb.
    split; [lia|]; eexists; split; [reflexivity|].
    apply is_digit_code in Ha; apply is_digit_code in Hb; unfold code in *; lia.
  - intros H; apply andb_prop in H as [H Hr]; apply andb_prop in H as [H Hc];
      apply andb_prop in H as [Ha Hb].
    rewrite Ha, Hb, Hc; split; [lia|]; eexists; split; [reflexivity|].
    apply is_digit_code in Ha; apply is_digit_code in Hb; apply is_digit_code in Hc.
    unfold code in *.
    apply orb_prop in Hr as [Hr|Hr]; [apply orb_prop in Hr as [Hr|Hr]|].
    + apply (eqb_val a "0" 48) in Hr; [lia|reflexivity].
    + apply (eqb_val a "1" 49) in Hr; [lia|reflexivity].
    + apply andb_prop in Hr as [E2 Hr]; apply (eqb_val a "2" 50) in E2; [|reflexivity].
      apply orb_prop in Hr as [Hr|Hr].
      * apply Nat.ltb_lt in Hr; lia.
      * apply andb_prop in Hr as [E5 Hr]; apply (eqb_val b "5" 53) in E5; [|reflexivity].
        apply Nat.leb_le in Hr; lia.
Qed.

(** X2: every result of [parseIPsOutput] is a dotted quad whose four parts
    are decimal numerals of one to three digits with values 0 to 255. *)
Theorem parseIPsOutput_octets (output : string) (v : jsval) :
  In v (ResultProcessor.parseIPsOutput output) ->
  exists s a b c d, v = JStr s /\ split_char "." s = [a; b; c; d] /\
    Forall (fun o => 1 <= String.length o <= 3 /\
                     exists z, digits_value o 0 = Some z /\ (0 <= z <= 255)%Z)
           [a; b; c; d].
Proof.
  unfold ResultProcessor.parseIPsOutput.
  destruct (String.eqb output "") ; [intros []|].
  intros Hv; apply in_map_iff in Hv as [s [<- Hs]].
  apply filter_In in Hs as [_ Hs]; apply andb_prop in Hs as [_ Hs].
  unfold ResultProcessor.ipRegex_test in Hs.
  destruct (split_char "." s) as [|a [|b [|c [|d [|e r]]]]] eqn:E; try discriminate.
  apply andb_prop in Hs as [Hs Hd]; apply andb_prop in Hs as [Hs Hc];
    apply andb_prop in Hs as [Ha Hb].
  exists s, a, b, c, d; split; [reflexivity|split; [exact E|]].
  repeat (constructor; [apply octet_ok_value; assumption|]); constructor.
Qed.

Lemma parseIPsOutput_octets_witness :
  In (JStr "10.0.255.1") (ResultProcessor.parseIPsOutput "10.0.255.1") /\
  exists s a b c d, JStr "10.0.255.1" = JStr s /\ split_char "." s = [a; b; c; d] /\
    Forall (fun o => 1 <= String.length o <= 3 /\
                     exists z, digits_value o 0 = Some z /\ (0 <= z <= 255)%Z)
           [a; b; c; d].
Proof.
  split; [vm_compute; left; reflexivity|].
  apply (parseIPsOutput_octets "10.0.255.1"); vm_compute; left; reflexivity.
Defined.

Lemma in_trimmed_lines (output l : string) :
  In l (ResultProcessor.trimmed_lines output) ->
  trim l = l /\ all_chars (fun c => negb (Ascii.eqb c nl)) l = true.
Proof.
  unfold ResultProcessor.trimmed_lines; intros H.
  apply in_map_iff in H as [x [<- Hx]].
  split; [apply trim_idem|].
  apply all_chars_trim, (split_char_no_sep nl output); exact Hx.
Qed.

(** X3: every line [ToolExecutor.parseTextOutput] returns is non-empty, has
    no leading or trailing white space ([line.trim() === line]) and
    contains no line feed. *)
Theorem parseTextOutput_lines (output line : string) :
  In line (ToolExecutor.parseTextOutput output) ->
  line <> EmptyString /\ trim line = line /\
  all_chars (fun c => negb (Ascii.eqb c nl)) line = true.
Proof.
  unfold ToolExecutor.parseTextOutput.
  destruct (String.eqb output "") ; [intros []|].
  intros H; apply filter_In in H as [H Hlen].
  apply in_trimmed_lines in H as [H1 H2].
  split; [|split; assumption].
  intros ->; discriminate.
Qed.

Lemma parseTextOutput_lines_witness :
  In "b.example.com" (ToolExecutor.parseTextOutput
                        ("  a.example.com" ++ String nl " b.example.com  ")) /\
  "b.example.com" <> EmptyString /\ trim "b.example.com" = "b.example.com" /\
  all_chars (fun c => negb (Ascii.eqb c nl)) "b.example.com" = true.
Proof.
  split; [vm_compute; right; left; reflexivity|].
  apply (parseTextOutput_lines ("  a.example.com" ++ String nl " b.example.com  ")).
  vm_compute; right; left; reflexivity.
Defined.

End ParserProofs.

Module FormatProofs.
Import JsString Js ResultTools StringFacts.

Lemma join_strings (sep : string) (ls : list string) :
  join sep (map JStr ls) = inr (String.concat sep ls).
Proof.
  induction ls as [|x r IH]; [reflexivity|].
  simpl; destruct r as [|y r']; [reflexivity|].
  simpl in IH |- *; rewrite IH; reflexivity.
Qed.

Lemma split_char_no_sep_id (sep : ascii) (x : string) :
  all_chars (fun c => negb (Ascii.eqb c sep)) x = true -> split_char sep x = [x].
Proof.
  induction x as [|c r IH]; simpl; [reflexivity|].
  intros H; apply andb_prop in H as [Hc H].
  destruct (Ascii.eqb c sep); [discriminate|]; now rewrite IH.
Qed.

Lemma split_char_app_sep (sep : ascii) (x rest : string) :
  all_chars (fun c => negb (Ascii.eqb c sep)) x = true ->
  split_char sep (x ++ String sep rest) = x :: split_char sep rest.
Proof.
  induction x as [|c r IH]; simpl; intros H.
  - now rewrite Ascii.eqb_refl.
  - apply andb_prop in H as [Hc H].
    destruct (Ascii.eqb c sep); [discriminate|]; now rewrite IH.
Qed.

(** Splitting the [join(sep)] of pieces free of [sep] gives them back. *)
Lemma split_char_concat (sep : ascii) (ls : list string) :
  ls <> [] ->
  Forall (fun l => all_chars (fun c => negb (Ascii.eqb c sep)) l = true) ls ->
  split_char sep (String.concat (String sep EmptyString) ls) = ls.
Proof.
  induction ls as [|x r IH]; intros Hne H; [congruence|].
  inversion H as [|? ? Hx Hr]; subst.
  destruct r as [|y r'].
  - apply split_char_no_sep_id; exact Hx.
  - change (String.concat (String sep EmptyString) (x :: y :: r'))
      with (x ++ String sep EmptyString ++ String.concat (String sep EmptyString) (y :: r'))%string.
    simpl append at 2; rewrite split_char_app_sep by exact Hx.
    f_equal; apply IH; [discriminate|exact Hr].
Qed.

Lemma filter_id {A} (p : A -> bool) (l : list A) :
  (forall x, In x l -> p x = true) -> filter p l = l.
Proof.
  induction l as [|x r IH]; intros H; simpl; [reflexivity|].
  rewrite (H x (or_introl eq_refl)), IH; [reflexivity|].
  intros y Hy; apply H; now right.
Qed.

Lemma parseTextOutput_strings (out : string) :
  ResultProcessor.parseTextOutput out = map JStr (ToolExecutor.parseTextOutput out).
Proof.
  unfold ResultProcessor.parseTextOutput, ToolExecutor.parseTextOutput.
  destruct (String.eqb out ""); reflexivity.
Qed.

Lemma concat_nonempty (sep : string) (x : string) (r : list string) :
  x <> EmptyString -> String.concat sep (x :: r) <> EmptyString.
Proof.
  intros Hx; destruct x as [|c x']; [congruence|].
  destruct r; simpl; discriminate.
Qed.

(** X4: results of non-empty, trimmed, single-line strings written by
    [formatResults] in any format other than [json], [csv] and [html] (so
    [txt], [text] or the default) are read back unchanged by
    [parseTextOutput], the pipeline's and the executor's. *)
Theorem formatResults_text_round_trip (JSON_stringify : list jsval -> string)
  (ref : nat) (ls : list string) (f : string) :
  Forall (fun l => l <> EmptyString /\ trim l = l /\
                   all_chars (fun c => negb (Ascii.eqb c nl)) l = true) ls ->
  ~ In (toLowerCase_latin1 f) ["json"; "csv"; "html"] ->
  exists out,
    formatResults JSON_stringify (JArr ref (map JStr ls)) (JStr f) = inr out /\
    ResultProcessor.parseTextOutput out = map JStr ls /\
    ToolExecutor.parseTextOutput out = ls.
Proof.
  intros Hls Hf.
  assert (Hjoin : formatResults JSON_stringify (JArr ref (map JStr ls)) (JStr f)
                  = inr (String.concat newline ls)).
  { unfold formatResults; simpl bind.
    destruct (String.eqb (toLowerCase_latin1 f) "json") eqn:E1.
    { apply String.eqb_eq in E1; exfalso; apply Hf; rewrite E1; left; reflexivity. }
    destruct (String.eqb (toLowerCase_latin1 f) "csv") eqn:E2.
    { apply String.eqb_eq in E2; exfalso; apply Hf; rewrite E2; right; left; reflexivity. }
    destruct (String.eqb (toLowerCase_latin1 f) "txt" || String.eqb (toLowerCase_latin1 f) "text");
      [apply join_strings|].
    destruct (String.eqb (toLowerCase_latin1 f) "html") eqn:E3.
    { apply String.eqb_eq in E3; exfalso; apply Hf; rewrite E3; right; right; left; reflexivity. }
    apply join_strings. }
  exists (String.concat newline ls); split; [exact Hjoin|].
  assert (Hlines : ToolExecutor.parseTextOutput (String.concat newline ls) = ls).
  { unfold ToolExecutor.parseTextOutput, ResultProcessor.trimmed_lines.
    destruct ls as [|x r]; [reflexivity|].
    inversion Hls as [|? ? [Hx _] _]; subst.
    pose proof (concat_nonempty newline x r Hx) as Hne; apply String.eqb_neq in Hne.
    rewrite Hne, split_char_concat; [|discriminate|].
    - rewrite map_ext_in with (g := fun l => l).
      + rewrite map_id; apply filter_id; intros l Hl.
        rewrite Forall_forall in Hls; destruct (Hls l Hl) as [Hl0 _].
        destruct l; [congruence|reflexivity].
      + intros l Hl; rewrite Forall_forall in Hls; apply (Hls l Hl).
    - eapply Forall_impl; [|exact Hls]; intros l Hl; apply Hl. }
  split; [|exact Hlines].
  rewrite parseTextOutput_strings, Hlines; reflexivity.
Qed.

Lemma formatResults_text_round_trip_witness :
  Forall (fun l => l <> EmptyString /\ trim l = l /\
                   all_chars (fun c => negb (Ascii.eqb c nl)) l = true)
         ["a.example.com"; "b.example.com"] /\
  ~ In (toLowerCase_latin1 "TXT") ["json"; "csv"; "html"] /\
  exists out,
    formatResults (fun _ => EmptyString) (JArr 0 (map JStr ["a.example.com"; "b.example.com"]))
      (JStr "TXT") = inr out /\
    ResultProcessor.parseTextOutput out = map JStr ["a.example.com"; "b.example.com"] /\
    ToolExecutor.parseTextOutput out = ["a.example.com"; "b.example.com"].
Proof.
  assert (H1 : Forall (fun l => l <> EmptyString /\ trim l = l /\
                   all_chars (fun c => negb (Ascii.eqb c nl)) l = true)
         ["a.example.com"; "b.example.com"]).
  { repeat constructor; try discriminate. }
  assert (H2 : ~ In (toLowerCase_latin1 "TXT") ["json"; "csv"; "html"]).
  { vm_compute; intros [H|[H|[H|[]]]]; discriminate. }
  split; [exact H1|split; [exact H2|]].
  exact (formatResults_text_round_trip (fun _ => EmptyString) 0 _ "TXT" H1 H2).
Defined.

End FormatProofs.

Module SortFacts.
Import Js Pipeline.

Lemma insert_by_perm {A} (cmp : A -> A -> Z) (x : A) (l : list A) :
  Permutation (insert_by cmp x l) (x :: l).
Proof.
  induction l as [|y r IH]; simpl; [reflexivity|].
  destruct (0 <? cmp y x)%Z; [reflexivity|].
  rewrite IH; apply perm_swap.
Qed.

Lemma fold_insert_perm {A} (cmp : A -> A -> Z) (l acc : list A) :
  Permutation (fold_left (fun acc x => insert_by cmp x acc) l acc) (l ++ acc).
Proof.
  revert acc; induction l as [|x r IH]; intros acc; simpl; [reflexivity|].
  rewrite IH, insert_by_perm; apply Permutation_sym, Permutation_middle.
Qed.

(** [sort] returns a permutation of the array. *)
Lemma sort_by_perm {A} (cmp : A -> A -> Z) (l : list A) :
  Permutation (sort_by cmp l) l.
Proof. unfold sort_by; rewrite fold_insert_perm, app_nil_r; reflexivity. Qed.

Section Sorting.
Context {A : Type} (P : A -> Prop) (R : A -> A -> Prop) (cmp : A -> A -> Z).
Hypothesis cmp_gt : forall a b, P a -> P b -> (0 < cmp a b)%Z -> R b a.
Hypothesis cmp_le : forall a b, P a -> P b -> (cmp a b <= 0)%Z -> R a b.

Lemma insert_by_hdrel (y x : A) (l : list A) :
  R y x -> HdRel R y l -> HdRel R y (insert_by cmp x l).
Proof.
  intros Hyx Hl; destruct l as [|z r]; simpl; [constructor; exact Hyx|].
  destruct (0 <? cmp z x)%Z; constructor; [exact Hyx|inversion Hl; assumption].
Qed.

Lemma insert_by_sorted (x : A) (l : list A) :
  P x -> Forall P l -> Sorted R l -> Sorted R (insert_by cmp x l).
Proof.
  intros Hx; induction l as [|y r IH]; intros HP HS; simpl.
  - repeat constructor.
  - inversion HP as [|? ? Hy Hr]; subst.
    inversion HS as [|? ? Hsr Hhd]; subst.
    destruct (0 <? cmp y x)%Z eqn:E.
    + apply Z.ltb_lt in E.
      constructor; [exact HS|constructor; exact (cmp_gt y x Hy Hx E)].
    + apply Z.ltb_ge in E.
      constructor; [exact (IH Hr Hsr)|].
      apply insert_by_hdrel; [exact (cmp_le y x Hy Hx E)|exact Hhd].
Qed.

(** [sort] with a comparator whose sign agrees with [R] returns an array
    sorted by [R]. *)
Lemma sort_by_sorted (l : list A) : Forall P l -> Sorted R (sort_by cmp l).
Proof.
  unfold sort_by; intros Hl.
  assert (H : forall acc, Forall P acc -> Sorted R acc ->
                Sorted R (fold_left (fun acc x => insert_by cmp x acc) l acc)).
  { induction l as [|x r IH]; intros acc Hacc HS; simpl; [exact HS|].
    inversion Hl as [|? ? Hx Hr]; subst.
    apply (IH Hr).
    - apply Forall_forall; intros y Hy.
      apply (Permutation_in _ (insert_by_perm cmp x acc)) in Hy as [<-|Hy];
        [exact Hx|rewrite Forall_forall in Hacc; auto].
    - apply insert_by_sorted; assumption. }
  apply H; constructor.
Qed.

End Sorting.

Lemma insert_by_map {A B} (f : A -> B) (cmp : B -> B -> Z) (x : A) (l : list A) :
  insert_by cmp (f x) (map f l) = map f (insert_by (fun a b => cmp (f a) (f b)) x l).
Proof.
  induction l as [|y r IH]; simpl; [reflexivity|].
  destruct (0 <? cmp (f y) (f x))%Z; simpl; [reflexivity|now rewrite IH].
Qed.

Lemma sort_by_map {A B} (f : A -> B) (cmp : B -> B -> Z) (l : list A) :
  sort_by cmp (map f l) = map f (sort_by (fun a b => cmp (f a) (f b)) l).
Proof.
  unfold sort_by.
  assert (H : forall acc, fold_left (fun acc x => insert_by cmp x acc) (map f l) (map f acc)
              = map f (fold_left (fun acc x => insert_by (fun a b => cmp (f a) (f b)) x acc) l acc)).
  { induction l as [|x r IH]; intros acc; simpl; [reflexivity|].
    rewrite insert_by_map; apply IH. }
  apply (H []).
Qed.

Lemma in_firstn {A} (n : nat) (l : list A) (x : A) : In x (firstn n l) -> In x l.
Proof.
  revert l; induction n as [|n IH]; intros [|y r]; simpl; try tauto.
  intros [<-|H]; [now left|right; now apply IH].
Qed.

Lemma nodup_firstn {A} (n : nat) (l : list A) : NoDup l -> NoDup (firstn n l).
Proof.
  revert l; induction n as [|n IH]; intros l H; [constructor|].
  destruct l as [|y r]; [constructor|]; simpl.
  inversion H as [|? ? Hy Hr]; subst.
  constructor; [|now apply IH].
  intros Hin; apply Hy; now apply in_firstn in Hin.
Qed.

Lemma perm_filter_split {A} (f g : A -> bool) (l : list A) :
  (forall x, g x = negb (f x)) -> Permutation (filter f l ++ filter g l) l.
Proof.
  intros Hg; induction l as [|x r IH]; simpl; [reflexivity|].
  rewrite Hg; destruct (f x); simpl.
  - now apply perm_skip.
  - rewrite <- Permutation_middle; now apply perm_skip.
Qed.

End SortFacts.

Module PipelineExtraProofs.
Import JsString Js ResultProcessor Pipeline PipelineProofs SortFacts.

Lemma mapM_keyed (l : list jsval) (keyed : list (string * jsval)) :
  mapM (fun v => s <- ToString v ;; ret (s, v)) l = inr keyed -> map snd keyed = l.
Proof.
  revert keyed; induction l as [|x r IH]; intros keyed H; simpl in H.
  - injection H as <-; reflexivity.
  - destruct (ToString x) as [e|s]; simpl in H; [discriminate|].
    destruct (mapM _ r) as [e|keyed'] eqn:E; simpl in H; [discriminate|].
    injection H as <-; simpl; f_equal; now apply IH.
Qed.

(** X5: [sortResults] returns a permutation of its input, whatever the
    output type. *)
Theorem sortResults_permutation (localeCompare : string -> string -> Z)
  (results : list jsval) (outputType : jsval) (sorted : list jsval) :
  sortResults localeCompare results outputType = inr sorted ->
  Permutation sorted results.
Proof.
  unfold sortResults.
  destruct (is_str outputType "domains").
  { intros H; injection H as <-; apply sort_by_perm. }
  destruct (is_str outputType "ips").
  { intros H; injection H as <-; apply sort_by_perm. }
  unfold default_sort.
  pose proof (perm_filter_split (fun v => match v with JUndef => false | _ => true end)
                (fun v => match v with JUndef => true | _ => false end) results)
    as Hsplit.
  assert (Hneg : forall x, (fun v => match v with JUndef => true | _ => false end) x =
                  negb ((fun v => match v with JUndef => false | _ => true end) x))
    by (intros []; reflexivity).
  specialize (Hsplit Hneg).
  destruct (filter (fun v => match v with JUndef => false | _ => true end) results)
    as [|a [|b r]] eqn:Ed.
  - intros H; injection H as <-; exact Hsplit.
  - intros H; injection H as <-; exact Hsplit.
  - intros H; apply bind_inr in H as [keyed [Hk H]]; injection H as <-.
    eapply Permutation_trans; [|exact Hsplit]; apply Permutation_app_tail.
    rewrite <- (mapM_keyed _ _ Hk); apply Permutation_map, sort_by_perm.
Qed.

Lemma sortResults_permutation_witness :
  sortResults code_unit_compare [JStr "b"; JUndef; JNum 10; JStr "a"] (JStr "text")
    = inr [JNum 10; JStr "a"; JStr "b"; JUndef] /\
  Permutation [JNum 10; JStr "a"; JStr "b"; JUndef] [JStr "b"; JUndef; JNum 10; JStr "a"].
Proof.
  split; [vm_compute; reflexivity|].
  apply (sortResults_permutation code_unit_compare _ (JStr "text")).
  vm_compute; reflexivity.
Defined.

(** X6: for the output type [domains], [sortResults] orders strings by
    non-decreasing length, whatever [localeCompare] does on equal
    lengths. *)
Theorem sortResults_domains_by_length (localeCompare : string -> string -> Z)
  (ls : list string) :
  exists sorted,
    sortResults localeCompare (map JStr ls) (JStr "domains") = inr (map JStr sorted) /\
    Permutation sorted ls /\
    Sorted (fun x y => String.length x <= String.length y) sorted.
Proof.
  exists (sort_by (fun a b => domains_cmp localeCompare (JStr a) (JStr b)) ls).
  split; [exact (f_equal inr (sort_by_map JStr (domains_cmp localeCompare) ls))|].
  split; [apply sort_by_perm|].
  apply (sort_by_sorted (fun _ => True)); [| |apply Forall_forall; trivial].
  - intros a b _ _; unfold domains_cmp.
    destruct (String.length a =? String.length b) eqn:E; simpl.
    + apply Nat.eqb_eq in E; lia.
    + lia.
  - intros a b _ _; unfold domains_cmp.
    destruct (String.length a =? String.length b) eqn:E; simpl.
    + apply Nat.eqb_eq in E; lia.
    + lia.
Qed.

Lemma sameValueZero_refl (v : jsval) : sameValueZero v v = true.
Proof.
  destruct v; simpl; try reflexivity.
  - apply Bool.eqb_reflx.
  - apply Z.eqb_refl.
  - apply String.eqb_refl.
  - apply Nat.eqb_refl.
  - apply Nat.eqb_refl.
Qed.

Lemma dedup_props (l acc : list jsval) :
  NoDup acc ->
  NoDup (fold_left set_add l acc) /\
  (forall x, In x (fold_left set_add l acc) -> In x acc \/ In x l).
Proof.
  revert acc; induction l as [|y r IH]; intros acc Hacc; simpl.
  - split; [exact Hacc|auto].
  - assert (Hs : NoDup (set_add acc y)).
    { unfold set_add; destruct (existsb (sameValueZero y) acc) eqn:E; [exact Hacc|].
      apply NoDup_app; [exact Hacc|repeat constructor; intros []|].
      intros a Ha [Hya|[]]; rewrite <- Hya in Ha.
      assert (existsb (sameValueZero y) acc = true)
        by (apply existsb_exists; exists y; split; [exact Ha|apply sameValueZero_refl]).
      congruence. }
    destruct (IH _ Hs) as [H1 H2]; split; [exact H1|].
    intros x Hx; destruct (H2 x Hx) as [Hin|Hin]; [|tauto].
    unfold set_add in Hin; destruct (existsb (sameValueZero y) acc); [tauto|].
    apply in_app_or in Hin as [Hin|[<-|[]]]; tauto.
Qed.

Lemma truncate_firstn (l : list jsval) (maxResults : jsval) (l' : list jsval) :
  truncate l maxResults = inr l' -> exists n, l' = firstn n l.
Proof.
  unfold truncate; destruct (truthy maxResults).
  2: { intros H; injection H as <-; exists (length l); symmetry; apply firstn_all. }
  intros H; apply bind_inr in H as [n [_ H]].
  destruct n as [k|].
  2: { injection H as <-; exists (length l); symmetry; apply firstn_all. }
  destruct (k <? Z.of_nat (length l))%Z.
  2: { injection H as <-; exists (length l); symmetry; apply firstn_all. }
  apply bind_inr in H as [n' [_ H]]; injection H as <-.
  unfold slice_to; eexists; reflexivity.
Qed.

Lemma truncate_bound (l : list jsval) (k : Z) (l' : list jsval) :
  (0 < k)%Z -> truncate l (JNum k) = inr l' -> (Z.of_nat (length l') <= k)%Z.
Proof.
  intros Hk; unfold truncate; simpl truthy.
  replace (negb (k =? 0)%Z) with true by (symmetry; apply negb_true_iff, Z.eqb_neq; lia).
  simpl bind.
  destruct (k <? Z.of_nat (length l))%Z eqn:E; simpl bind.
  - intros H; injection H as <-; unfold slice_to.
    replace (k <? 0)%Z with false by (symmetry; apply Z.ltb_ge; lia).
    rewrite length_firstn; lia.
  - intros H; injection H as <-; apply Z.ltb_ge in E; lia.
Qed.

Lemma filterM_in {A} (p : A -> Exc bool) (l l' : list A) (x : A) :
  filterM p l = inr l' -> In x l' -> p x = inr true.
Proof.
  revert l'; induction l as [|y r IH]; intros l' H Hx; simpl in H.
  - injection H as <-; destruct Hx.
  - destruct (p y) as [e|b] eqn:Ey; simpl in H; [discriminate|].
    destruct (filterM p r) as [e|r'] eqn:Er; simpl in H; [discriminate|].
    injection H as <-.
    destruct b; [destruct Hx as [<-|Hx]; [exact Ey|]|]; now apply (IH r').
Qed.

(** Every result [validateResults] keeps passes it on its own. *)
Lemma validateResults_keep (results kept : list jsval) (outputType domain : jsval) :
  validateResults results outputType domain = inr kept ->
  forall x, In x kept -> validateResults [x] outputType domain = inr [x].
Proof.
  unfold validateResults.
  destruct (is_str outputType "domains").
  { intros H x Hx; pose proof (filterM_in _ _ _ _ H Hx) as Hp.
    simpl; rewrite Hp; reflexivity. }
  destruct (is_str outputType "urls");
    [|destruct (is_str outputType "emails");
      [|destruct (is_str outputType "ips")]];
    intros H x Hx; injection H as <-; apply filter_In in Hx as [_ Hx];
    simpl; rewrite Hx; reflexivity.
Qed.

(** The stages of the [try] body that produced a non-empty result. *)
Lemma process_body_stages JSON_parse localeCompare tool rawOutput domain
  outputType maxResults deduplicate validate sort r :
  process_body JSON_parse localeCompare tool rawOutput domain outputType maxResults
    deduplicate validate sort = inr r ->
  pr_results r = [] \/
  exists raw parsed validated sorted,
    rawOutput = JStr raw /\
    parse_by_type JSON_parse outputType raw domain = inr parsed /\
    (if truthy validate then validateResults parsed outputType domain
     else ret parsed) = inr validated /\
    (if truthy sort then
       sortResults localeCompare
         (if truthy deduplicate then deduplicateResults validated else validated) outputType
     else ret (if truthy deduplicate then deduplicateResults validated else validated))
      = inr sorted /\
    truncate sorted maxResults = inr (pr_results r).
Proof.
  unfold process_body; destruct rawOutput; try (intros H; injection H as <-; now left).
  destruct (String.eqb s "") ; [intros H; injection H as <-; now left|].
  intros H; right.
  apply bind_inr in H as [r1 [H1 H]].
  apply bind_inr in H as [r2 [H2 H]].
  apply bind_inr in H as [r3 [H3 H]].
  apply bind_inr in H as [r4 [H4 H]].
  injection H as <-; simpl.
  exists s, r1, r2, r3; repeat split; assumption.
Qed.

(** A stage that either sorts or keeps its input keeps its elements. *)
Lemma sort_stage_perm localeCompare (b : bool) (l : list jsval) outputType sorted :
  (if b then sortResults localeCompare l outputType else ret l) = inr sorted ->
  Permutation sorted l.
Proof.
  destruct b; [apply sortResults_permutation|intros H; injection H as <-; reflexivity].
Qed.

(** X7: when [maxResults] (10000 if omitted) is a positive number, the
    result of [processResults] holds at most [maxResults] entries. *)
Theorem processResults_count_le_maxResults (JSON_parse : string -> option jsval)
  (localeCompare : string -> string -> Z) (tool : string) (rawOutput domain options : jsval)
  (k : Z) (r : PipelineResult) :
  options <> JNull ->
  with_default (get_prop options "maxResults") (JNum 10000) = JNum k ->
  (0 < k)%Z ->
  processResults JSON_parse localeCompare tool rawOutput domain options = inr r ->
  pr_count r = length (pr_results r) /\ (Z.of_nat (pr_count r) <= k)%Z.
Proof.
  intros Hnn Hmax Hk.
  rewrite (processResults_unfold _ _ _ _ _ _ Hnn), Hmax.
  destruct (process_body _ _ _ _ _ _ _ _ _ _) as [msg|r0] eqn:Hb; simpl.
  { intros H; injection H as <-; simpl; split; [reflexivity|lia]. }
  intros H; injection H as <-.
  split; [eapply process_body_count; exact Hb|].
  rewrite (process_body_count _ _ _ _ _ _ _ _ _ _ _ Hb).
  destruct (process_body_stages _ _ _ _ _ _ _ _ _ _ _ Hb)
    as [He|[raw [p [v [s [_ [_ [_ [_ Ht]]]]]]]]].
  - rewrite He; simpl; lia.
  - exact (truncate_bound _ _ _ Hk Ht).
Qed.

Lemma processResults_count_le_maxResults_witness :
  JObj 0 [("maxResults", JNum 2); ("outputType", JStr "text")] <> JNull /\
  with_default (get_prop (JObj 0 [("maxResults", JNum 2); ("outputType", JStr "text")])
                  "maxResults") (JNum 10000) = JNum 2 /\
  (0 < 2)%Z /\
  processResults (fun _ => None) code_unit_compare "subfinder"
    (JStr ("c.example.com" ++ String nl ("a.example.com" ++ String nl "b.example.com")))
    (JStr "example.com")
    (JObj 0 [("maxResults", JNum 2); ("outputType", JStr "text")]) = inr
    {| pr_tool := "subfinder"; pr_domain := JStr "example.com";
       pr_results := [JStr "a.example.com"; JStr "b.example.com"];
       pr_count := 2; pr_outputType := Some (JStr "text"); pr_processed := true;
       pr_error := None |} /\
  2 = length [JStr "a.example.com"; JStr "b.example.com"] /\ (Z.of_nat 2 <= 2)%Z.
Proof.
  assert (H1 : JObj 0 [("maxResults", JNum 2); ("outputType", JStr "text")] <> JNull)
    by discriminate.
  assert (H2 : with_default (get_prop (JObj 0 [("maxResults", JNum 2); ("outputType", JStr "text")])
                  "maxResults") (JNum 10000) = JNum 2) by reflexivity.
  assert (H3 : (0 < 2)%Z) by lia.
  assert (H4 : processResults (fun _ => None) code_unit_compare "subfinder"
    (JStr ("c.example.com" ++ String nl ("a.example.com" ++ String nl "b.example.com")))
    (JStr "example.com")
    (JObj 0 [("maxResults", JNum 2); ("outputType", JStr "text")]) = inr
    {| pr_tool := "subfinder"; pr_domain := JStr "example.com";
       pr_results := [JStr "a.example.com"; JStr "b.example.com"];
       pr_count := 2; pr_outputType := Some (JStr "text"); pr_processed := true;
       pr_error := None |}) by (vm_compute; reflexivity).
  split; [exact H1|split; [exact H2|split; [exact H3|split; [exact H4|]]]].
  exact (processResults_count_le_maxResults _ _ _ _ _ _ 2 _ H1 H2 H3 H4).
Defined.

Lemma in_dedup_stage (b : bool) (l : list jsval) (x : jsval) :
  In x (if b then deduplicateResults l else l) -> In x l.
Proof.
  destruct b; [|tauto]; unfold deduplicateResults; intros H.
  destruct (dedup_props l [] (NoDup_nil _)) as [_ H2].
  destruct (H2 x H) as [[]|Hx]; exact Hx.
Qed.

(** X8: when [validate] is on (the default), every result of
    [processResults] passes [validateResults] for the output type on its
    own: deduplication, sorting and truncation only keep validated
    entries. *)
Theorem processResults_results_validated (JSON_parse : string -> option jsval)
  (localeCompare : string -> string -> Z) (tool : string) (rawOutput domain options : jsval)
  (r : PipelineResult) :
  options <> JNull ->
  truthy (with_default (get_prop options "validate") (JBool true)) = true ->
  processResults JSON_parse localeCompare tool rawOutput domain options = inr r ->
  forall x, In x (pr_results r) ->
    validateResults [x] (with_default (get_prop options "outputType") (JStr "domains"))
      domain = inr [x].
Proof.
  intros Hnn Hval.
  rewrite (processResults_unfold _ _ _ _ _ _ Hnn).
  destruct (process_body _ _ _ _ _ _ _ _ _ _) as [msg|r0] eqn:Hb; simpl;
    intros H; injection H as <-; [intros x []|].
  destruct (process_body_stages _ _ _ _ _ _ _ _ _ _ _ Hb)
    as [He|[raw [p [v [s [_ [_ [Hv [Hs Ht]]]]]]]]]; [rewrite He; intros x []|].
  rewrite Hval in Hv; intros x Hx.
  destruct (truncate_firstn _ _ _ Ht) as [n Hn]; rewrite Hn in Hx.
  apply in_firstn in Hx.
  apply (Permutation_in _ (sort_stage_perm _ _ _ _ _ Hs)) in Hx.
  apply in_dedup_stage in Hx.
  exact (validateResults_keep _ _ _ _ Hv x Hx).
Qed.

Lemma processResults_results_validated_witness :
  JObj 0 [("outputType", JStr "ips")] <> JNull /\
  truthy (with_default (get_prop (JObj 0 [("outputType", JStr "ips")]) "validate")
            (JBool true)) = true /\
  processResults (fun _ => None) code_unit_compare "nmap"
    (JStr ("10.0.0.1" ++ String nl "300.1.1.1")) (JStr "example.com")
    (JObj 0 [("outputType", JStr "ips")]) = inr
    {| pr_tool := "nmap"; pr_domain := JStr "example.com";
       pr_results := [JStr "10.0.0.1"];
       pr_count := 1; pr_outputType := Some (JStr "ips"); pr_processed := true;
       pr_error := None |} /\
  validateResults [JStr "10.0.0.1"]
    (with_default (get_prop (JObj 0 [("outputType", JStr "ips")]) "outputType") (JStr "domains"))
    (JStr "example.com") = inr [JStr "10.0.0.1"].
Proof.
  assert (H1 : JObj 0 [("outputType", JStr "ips")] <> JNull) by discriminate.
  assert (H2 : truthy (with_default (get_prop (JObj 0 [("outputType", JStr "ips")]) "validate")
            (JBool true)) = true) by reflexivity.
  assert (H3 : processResults (fun _ => None) code_unit_compare "nmap"
    (JStr ("10.0.0.1" ++ String nl "300.1.1.1")) (JStr "example.com")
    (JObj 0 [("outputType", JStr "ips")]) = inr
    {| pr_tool := "nmap"; pr_domain := JStr "example.com";
       pr_results := [JStr "10.0.0.1"];
       pr_count := 1; pr_outputType := Some (JStr "ips"); pr_processed := true;
       pr_error := None |}) by (vm_compute; reflexivity).
  split; [exact H1|split; [exact H2|split; [exact H3|]]].
  apply (processResults_results_validated _ _ _ _ _ _ _ H1 H2 H3).
  left; reflexivity.
Defined.

(** X9: when [deduplicate] is on (the default), the results of
    [processResults] contain no value twice. *)
Theorem processResults_deduplicated_nodup (JSON_parse : string -> option jsval)
  (localeCompare : string -> string -> Z) (tool : string) (rawOutput domain options : jsval)
  (r : PipelineResult) :
  options <> JNull ->
  truthy (with_default (get_prop options "deduplicate") (JBool true)) = true ->
  processResults JSON_parse localeCompare tool rawOutput domain options = inr r ->
  NoDup (pr_results r).
Proof.
  intros Hnn Hdd.
  rewrite (processResults_unfold _ _ _ _ _ _ Hnn).
  destruct (process_body _ _ _ _ _ _ _ _ _ _) as [msg|r0] eqn:Hb; simpl;
    intros H; injection H as <-; [constructor|].
  destruct (process_body_stages _ _ _ _ _ _ _ _ _ _ _ Hb)
    as [He|[raw [p [v [s [_ [_ [_ [Hs Ht]]]]]]]]]; [rewrite He; constructor|].
  rewrite Hdd in Hs.
  destruct (truncate_firstn _ _ _ Ht) as [n Hn]; rewrite Hn.
  apply nodup_firstn.
  apply (Permutation_NoDup (Permutation_sym (sort_stage_perm _ _ _ _ _ Hs))).
  unfold deduplicateResults; apply (dedup_props v [] (NoDup_nil _)).
Qed.

Lemma processResults_deduplicated_nodup_witness :
  JObj 0 [("outputType", JStr "text")] <> JNull /\
  truthy (with_default (get_prop (JObj 0 [("outputType", JStr "text")]) "deduplicate")
            (JBool true)) = true /\
  processResults (fun _ => None) code_unit_compare "subfinder"
    (JStr ("b" ++ String nl ("a" ++ String nl "b"))) (JStr "example.com")
    (JObj 0 [("outputType", JStr "text")]) = inr
    {| pr_tool := "subfinder"; pr_domain := JStr "example.com";
       pr_results := [JStr "a"; JStr "b"];
       pr_count := 2; pr_outputType := Some (JStr "text"); pr_processed := true;
       pr_error := None |} /\
  NoDup [JStr "a"; JStr "b"].
Proof.
  assert (H1 : JObj 0 [("outputType", JStr "text")] <> JNull) by discriminate.
  assert (H2 : truthy (with_default (get_prop (JObj 0 [("outputType", JStr "text")]) "deduplicate")
            (JBool true)) = true) by reflexivity.
  assert (H3 : processResults (fun _ => None) code_unit_compare "subfinder"
    (JStr ("b" ++ String nl ("a" ++ String nl "b"))) (JStr "example.com")
    (JObj 0 [("outputType", JStr "text")]) = inr
    {| pr_tool := "subfinder"; pr_domain := JStr "example.com";
       pr_results := [JStr "a"; JStr "b"];
       pr_count := 2; pr_outputType := Some (JStr "text"); pr_processed := true;
       pr_error := None |}) by (vm_compute; reflexivity).
  split; [exact H1|split; [exact H2|split; [exact H3|]]].
  exact (processResults_deduplicated_nodup _ _ _ _ _ _ _ H1 H2 H3).
Defined.

End PipelineExtraProofs.

Module DomainParserProofs.
Import JsString Js ToolExecutor SortFacts.

Lemma code_unit_compare_antisym (a b : string) :
  (0 < Pipeline.code_unit_compare a b)%Z -> (Pipeline.code_unit_compare b a <= 0)%Z.
Proof.
  revert b; induction a as [|x a IH]; intros [|y b]; simpl; try lia.
  destruct (code x <? code y) eqn:E1; [lia|].
  destruct (code y <? code x) eqn:E2.
  - intros _; simpl; lia.
  - apply IH.
Qed.

Lemma first_occurrences_props (l acc : list string) :
  NoDup acc ->
  NoDup (fold_left (fun acc x => if existsb (String.eqb x) acc then acc else acc ++ [x]) l acc) /\
  (forall x, In x (fold_left (fun acc x => if existsb (String.eqb x) acc then acc else acc ++ [x]) l acc)
             -> In x acc \/ In x l).
Proof.
  revert acc; induction l as [|y r IH]; intros acc Hacc; simpl.
  - split; [exact Hacc|auto].
  - set (acc' := if existsb (String.eqb y) acc then acc else acc ++ [y]).
    assert (Hs : NoDup acc').
    { subst acc'; destruct (existsb (String.eqb y) acc) eqn:E; [exact Hacc|].
      apply NoDup_app; [exact Hacc|repeat constructor; intros []|].
      intros a Ha [Hya|[]]; rewrite <- Hya in Ha.
      assert (existsb (String.eqb y) acc = true)
        by (apply existsb_exists; exists y; split; [exact Ha|apply String.eqb_refl]).
      congruence. }
    destruct (IH _ Hs) as [H1 H2]; split; [exact H1|].
    intros x Hx; destruct (H2 x Hx) as [Hin|Hin]; [|tauto].
    subst acc'; destruct (existsb (String.eqb y) acc); [tauto|].
    apply in_app_or in Hin as [Hin|[<-|[]]]; tauto.
Qed.

(** X10: the domains [ToolExecutor.parseDomainsOutput] returns are distinct,
    sorted in code-unit order, and each one passes the checks of the line
    filter: it contains a dot and the base domain (or ends with
    ["." + baseDomain]), is longer than three characters, matches
    [/^[a-zA-Z0-9.-]+$/] and neither starts nor ends with a dot. *)
Theorem parseDomainsOutput_sorted_unique_valid (output baseDomain : string) :
  NoDup (parseDomainsOutput output baseDomain) /\
  Sorted (fun a b => (Pipeline.code_unit_compare a b <= 0)%Z)
         (parseDomainsOutput output baseDomain) /\
  Forall (fun d => includes d "." = true /\
                   (includes d baseDomain || endsWith d ("." ++ baseDomain)) = true /\
                   3 < String.length d /\ domainRegex_test d = true /\
                   startsWith d "." = false /\ endsWith d "." = false)
         (parseDomainsOutput output baseDomain).
Proof.
  unfold parseDomainsOutput.
  destruct (String.eqb output "") ; [repeat constructor|].
  set (cands := map (fun line => clean_domain (extract_domain line baseDomain))
                    (filter (keep_domain_line baseDomain) (ResultProcessor.trimmed_lines output))).
  destruct (first_occurrences_props cands [] (NoDup_nil _)) as [Hnd Hin].
  fold (first_occurrences cands) in Hnd, Hin.
  pose proof (sort_by_perm Pipeline.code_unit_compare (first_occurrences cands)) as Hp.
  split; [exact (Permutation_NoDup (Permutation_sym Hp) Hnd)|].
  split.
  - apply (sort_by_sorted (fun _ => True)); [| |apply Forall_forall; trivial].
    + intros a b _ _ H; apply code_unit_compare_antisym, H.
    + intros a b _ _ H; exact H.
  - apply Forall_forall; intros d Hd.
    apply (Permutation_in _ Hp), Hin in Hd as [[]|Hd].
    subst cands; apply in_map_iff in Hd as [line [<- Hl]].
    apply filter_In in Hl as [_ Hk].
    unfold keep_domain_line in Hk.
    destruct (String.eqb line "" || startsWith line "#" || startsWith line "//"
              || startsWith line ";") ; [discriminate|].
    destruct (existsb (includes line) noise_tokens) ; [discriminate|].
    set (d := clean_domain (extract_domain line baseDomain)) in *.
    apply andb_prop in Hk as [Hk H6]; apply andb_prop in Hk as [Hk H5];
      apply andb_prop in Hk as [Hk H4]; apply andb_prop in Hk as [Hk H3];
      apply andb_prop in Hk as [H1 H2].
    apply negb_true_iff in H5; apply negb_true_iff in H6; apply Nat.ltb_lt in H3.
    repeat split; assumption.
Qed.

End DomainParserProofs.

Module BatchProofs.
Import ToolExecutor.

Lemma ceil_step (m bs : nat) :
  1 <= bs -> 1 <= m ->
  (m + bs - 1) / bs = 1 + (m - bs + bs - 1) / bs.
Proof.
  intros Hbs Hm.
  destruct (Nat.le_gt_cases m bs) as [Hle|Hgt].
  - replace (m - bs) with 0 by lia.
    replace (m + bs - 1) with ((m - 1) + 1 * bs) by lia.
    rewrite Nat.div_add by lia.
    rewrite (Nat.div_small (m - 1)) by lia.
    rewrite (Nat.div_small (0 + bs - 1)) by lia. lia.
  - replace (m + bs - 1) with ((m - bs + bs - 1) + 1 * bs) by lia.
    rewrite Nat.div_add by lia. lia.
Qed.

Lemma batch_loop_shape {A} (fuel i bs : nat) (tools : list A) :
  1 <= bs -> length tools - i < fuel ->
  length (batch_loop fuel i bs tools) = (length tools - i + bs - 1) / bs /\
  Forall (fun b => b <> []) (batch_loop fuel i bs tools) /\
  Forall (fun b => length b = bs) (removelast (batch_loop fuel i bs tools)).
Proof.
  revert i; induction fuel as [|fuel IH]; intros i Hbs Hf; [lia|]; simpl.
  destruct (i <? length tools) eqn:Hi.
  - apply Nat.ltb_lt in Hi.
    assert (Hlen : length (slice i (i + bs) tools) = Nat.min bs (length tools - i)).
    { unfold slice; rewrite length_firstn, length_skipn.
      replace (i + bs - i) with bs by lia; reflexivity. }
    destruct (IH (i + bs) Hbs ltac:(lia)) as [H1 [H2 H3]].
    split; [|split].
    + simpl; rewrite H1, (ceil_step (length tools - i) bs) by lia.
      replace (length tools - (i + bs)) with (length tools - i - bs) by lia; reflexivity.
    + constructor; [|exact H2].
      intros He; rewrite He in Hlen; simpl in Hlen; lia.
    + destruct (batch_loop fuel (i + bs) bs tools) as [|b r] eqn:Eb; [constructor|].
      assert (Hnext : i + bs < length tools).
      { destruct fuel; [discriminate|]; simpl in Eb.
        destruct (i + bs <? length tools) eqn:E; [now apply Nat.ltb_lt|discriminate]. }
      change (removelast (slice i (i + bs) tools :: b :: r))
        with (slice i (i + bs) tools :: removelast (b :: r)).
      constructor; [lia|exact H3].
  - apply Nat.ltb_ge in Hi.
    replace (length tools - i) with 0 by lia.
    split; [rewrite Nat.div_small by lia; reflexivity|split; constructor].
Qed.

(** X11: with [maxConcurrent >= 1] and [n >= 1] tools,
    [createConcurrentBatches] makes [ceil(n / b)] batches of the tools in
    order, where [b = min(maxConcurrent, n)]: none is empty and all but the
    last hold exactly [b] tools. *)
Theorem createConcurrentBatches_shape {A} (maxConcurrent : nat) (tools : list A) :
  1 <= maxConcurrent -> tools <> [] ->
  exists batches,
    createConcurrentBatches maxConcurrent tools = Some batches /\
    concat batches = tools /\
    length batches =
      (length tools + Nat.min maxConcurrent (length tools) - 1)
        / Nat.min maxConcurrent (length tools) /\
    Forall (fun b => b <> []) batches /\
    Forall (fun b => length b = Nat.min maxConcurrent (length tools)) (removelast batches).
Proof.
  intros Hm Hne.
  assert (Hn : 1 <= length tools) by (destruct tools; [congruence|simpl; lia]).
  unfold createConcurrentBatches.
  replace (Nat.min maxConcurrent (length tools) =? 0) with false
    by (symmetry; apply Nat.eqb_neq; lia).
  simpl andb; cbv iota.
  eexists; split; [reflexivity|].
  destruct (batch_loop_shape (S (length tools)) 0
              (Nat.min maxConcurrent (length tools)) tools ltac:(lia) ltac:(lia))
    as [H1 [H2 H3]].
  split; [|split; [rewrite H1, Nat.sub_0_r; reflexivity|split; assumption]].
  rewrite CoordinatorProofs.batch_loop_concat by lia; reflexivity.
Qed.

Lemma createConcurrentBatches_shape_witness :
  1 <= 2 /\ [1; 2; 3; 4; 5] <> [] /\
  createConcurrentBatches 2 [1; 2; 3; 4; 5] = Some [[1; 2]; [3; 4]; [5]] /\
  concat [[1; 2]; [3; 4]; [5]] = [1; 2; 3; 4; 5] /\
  length [[1; 2]; [3; 4]; [5]] = (5 + Nat.min 2 5 - 1) / Nat.min 2 5 /\
  Forall (fun b : list nat => b <> []) [[1; 2]; [3; 4]; [5]] /\
  Forall (fun b : list nat => length b = Nat.min 2 5) (removelast [[1; 2]; [3; 4]; [5]]).
Proof.
  assert (H1 : 1 <= 2) by lia.
  assert (H2 : [1; 2; 3; 4; 5] <> []) by discriminate.
  split; [exact H1|split; [exact H2|]].
  destruct (createConcurrentBatches_shape 2 [1; 2; 3; 4; 5] H1 H2) as [b [Hb H]].
  vm_compute in Hb; injection Hb as <-; split; [reflexivity|exact H].
Defined.

End BatchProofs.

Module PrototypeKeyProofs.
Import JsString Js ToolExecutor.

Lemma lookup_prototype_key (tool : string) :
  In tool object_prototype_keys -> lookup_tool tool toolConfigs = None.
Proof.
  intros H; repeat (destruct H as [<-|H]; [vm_compute; reflexivity|]); destruct H.
Qed.

(** X12: a tool name that is a key of [Object.prototype] (["constructor"],
    ["toString"], ["__proto__"], ...) passes [getToolConfiguration] with
    an empty configuration instead of failing with ["Unknown tool"]; once
    [validateInputs] accepts the call, [executeSingleTool] spawns nothing,
    leaves the files alone and fails with the TypeError of
    [undefined.map]. *)
Theorem executeSingleTool_prototype_key_tool (os : string -> list string -> Proc)
  (results_dir tool domain executionId : string) (timestamp : Z) (fs : FS) :
  In tool object_prototype_keys ->
  validateInputs tool domain = inr tt ->
  getToolConfiguration tool = inr empty_spec /\
  (forall ctx, runTool os empty_spec ctx fs = (inl undefined_map_error, ctx, fs, [])) /\
  executeSingleTool os results_dir tool domain executionId timestamp fs =
    ({| tr_success := false; tr_tool := Some tool; tr_domain := Some domain;
        tr_results := []; tr_count := None; tr_rawOutput := None;
        tr_error := Some undefined_map_error |}, fs).
Proof.
  intros Hk Hv.
  assert (Hc : getToolConfiguration tool = inr empty_spec).
  { unfold getToolConfiguration; rewrite (lookup_prototype_key _ Hk).
    replace (existsb (String.eqb tool) object_prototype_keys) with true; [reflexivity|].
    symmetry; apply existsb_exists; exists tool; split; [exact Hk|apply String.eqb_refl]. }
  split; [exact Hc|split; [intros ctx; reflexivity|]].
  unfold executeSingleTool; rewrite Hc, Hv; reflexivity.
Qed.

Lemma executeSingleTool_prototype_key_tool_witness :
  In "constructor" object_prototype_keys /\
  validateInputs "constructor" "example.com" = inr tt /\
  getToolConfiguration "constructor" = inr empty_spec /\
  (forall ctx, runTool Scenarios.os_missing empty_spec ctx [] =
               (inl undefined_map_error, ctx, [], [])) /\
  executeSingleTool Scenarios.os_missing Scenarios.results_dir "constructor" "example.com"
    "e1" 1 [] =
    ({| tr_success := false; tr_tool := Some "constructor"; tr_domain := Some "example.com";
        tr_results := []; tr_count := None; tr_rawOutput := None;
        tr_error := Some undefined_map_error |}, []).
Proof.
  assert (H1 : In "constructor" object_prototype_keys) by (left; reflexivity).
  assert (H2 : validateInputs "constructor" "example.com" = inr tt) by (vm_compute; reflexivity).
  split; [exact H1|split; [exact H2|]].
  exact (executeSingleTool_prototype_key_tool Scenarios.os_missing Scenarios.results_dir
           "constructor" "example.com" "e1" 1 [] H1 H2).
Defined.

End PrototypeKeyProofs.

Module CountProofs.
Import JsString Js ResultTools.

Lemma lookup_set_field (k k' : string) (v : jsval) (o : obj) :
  lookup_field k (set_field k' v o) =
  if String.eqb k k' then Some v else lookup_field k o.
Proof.
  induction o as [|[k0 v0] r IH]; simpl.
  - destruct (String.eqb k k'); reflexivity.
  - destruct (String.eqb k' k0) eqn:E.
    + apply String.eqb_eq in E; subst k0; simpl.
      destruct (String.eqb k k'); reflexivity.
    + simpl; destruct (String.eqb k k0) eqn:E0; rewrite ?IH.
      * apply String.eqb_eq in E0; subst k0.
        destruct (String.eqb k k') eqn:E1; [|reflexivity].
        apply String.eqb_eq in E1; subst k'; rewrite String.eqb_refl in E; discriminate.
      * reflexivity.
Qed.

Lemma not_proto_inherited (k : string) :
  ~ In k ToolExecutor.object_prototype_keys -> inherited_string k = None.
Proof.
  intros H; unfold inherited_string.
  destruct (String.eqb k "__proto__") eqn:E1.
  { apply String.eqb_eq in E1; subst; exfalso; apply H; right; left; reflexivity. }
  destruct (String.eqb k "constructor") eqn:E2.
  { apply String.eqb_eq in E2; subst; exfalso; apply H; left; reflexivity. }
  destruct (existsb (String.eqb k) ToolExecutor.object_prototype_keys) eqn:E3; [|reflexivity].
  apply existsb_exists in E3 as [k' [Hk' E3]]; apply String.eqb_eq in E3; subst; contradiction.
Qed.

Lemma digit_head_not_proto (d : ascii) (r : string) :
  is_digit d = true -> ~ In (String d r) ToolExecutor.object_prototype_keys.
Proof.
  intros Hd Hk.
  repeat (destruct Hk as [Hk|Hk];
          [injection Hk as Hk _; rewrite <- Hk in Hd; vm_compute in Hd; discriminate|]).
  destruct Hk.
Qed.

(** [bump] on a key [Object.prototype] does not have counts up from 0. *)
Lemma bump_count (o : obj) (k k' : string) (c : nat) :
  ~ In k' ToolExecutor.object_prototype_keys ->
  lookup_field k' o = (if c =? 0 then None else Some (JNum (Z.of_nat c))) ->
  lookup_field k (bump o k') =
  if String.eqb k k' then Some (JNum (Z.of_nat (S c))) else lookup_field k o.
Proof.
  intros Hk Hc; unfold bump.
  rewrite Hc, (not_proto_inherited _ Hk).
  destruct (String.eqb k' "__proto__") eqn:Ep.
  { apply String.eqb_eq in Ep; subst; exfalso; apply Hk; right; left; reflexivity. }
  rewrite lookup_set_field; destruct (String.eqb k k'); [|reflexivity].
  destruct c; simpl; [reflexivity|].
  do 2 f_equal; lia.
Qed.

(** The counts of [obj[key] = (obj[key] || 0) + 1] over the keys [okey x]
    of the elements that have one. *)
Lemma count_fold_spec (okey : string -> option string) (xs : list string) :
  (forall x k, In x xs -> okey x = Some k -> ~ In k ToolExecutor.object_prototype_keys) ->
  forall k,
    lookup_field k (fold_left (fun o x => match okey x with Some k => bump o k | None => o end)
                      xs []) =
    let c := length (filter (fun x => match okey x with
                                      | Some k' => String.eqb k' k
                                      | None => false end) xs) in
    if c =? 0 then None else Some (JNum (Z.of_nat c)).
Proof.
  induction xs as [|x r IH] using rev_ind; intros Hok k; [reflexivity|].
  rewrite fold_left_app; simpl fold_left.
  assert (IH' := IH ltac:(intros y k' Hy; apply Hok; apply in_or_app; now left)).
  rewrite filter_app, length_app; simpl filter.
  destruct (okey x) as [kx|] eqn:Ex.
  - rewrite (bump_count _ k kx
               (length (filter (fun x => match okey x with
                                         | Some k' => String.eqb k' kx
                                         | None => false end) r)));
      [|apply (Hok x); [apply in_or_app; right; now left|exact Ex]|apply IH'].
    rewrite IH'; simpl.
    destruct (String.eqb k kx) eqn:E.
    + apply String.eqb_eq in E; subst kx; rewrite String.eqb_refl, Nat.add_1_r; reflexivity.
    + replace (String.eqb kx k) with false
        by (symmetry; rewrite String.eqb_sym; exact E).
      simpl; rewrite Nat.add_0_r; reflexivity.
  - rewrite IH'; simpl; rewrite Nat.add_0_r; reflexivity.
Qed.

Lemma digits_rev_head (f : nat) (n : Z) (acc : string) :
  (match acc with String d _ => is_digit d | EmptyString => false end) = true ->
  (match digits_rev f n acc with String d _ => is_digit d | EmptyString => false end) = true.
Proof.
  revert n acc; induction f as [|f IH]; intros n acc H; simpl; [exact H|].
  assert (Hd : is_digit (ascii_of_nat (48 + Z.to_nat (n mod 10))) = true).
  { unfold is_digit, code.
    assert (Z.to_nat (n mod 10) < 10).
    { destruct (Z.le_gt_cases 0 n).
      - pose proof (Z.mod_pos_bound n 10 ltac:(lia)); lia.
      - pose proof (Z.mod_pos_bound n 10 ltac:(lia)); lia. }
    rewrite nat_ascii_embedding by lia.
    apply andb_true_intro; split; apply Nat.leb_le; lia. }
  destruct (n / 10 =? 0)%Z; [exact Hd|apply IH; exact Hd].
Qed.

Lemma Z_to_string_nat_head (n : nat) :
  (match Z_to_string (Z.of_nat n) with String d _ => is_digit d | EmptyString => false end)
  = true.
Proof.
  unfold Z_to_string.
  replace (Z.of_nat n <? 0)%Z with false by (symmetry; apply Z.ltb_ge; lia).
  simpl digits_rev; set (m := Z.of_nat n).
  assert (Hd : is_digit (ascii_of_nat (48 + Z.to_nat (m mod 10))) = true).
  { unfold is_digit, code.
    assert (Z.to_nat (m mod 10) < 10) by (pose proof (Z.mod_pos_bound m 10 ltac:(lia)); lia).
    rewrite nat_ascii_embedding by lia.
    apply andb_true_intro; split; apply Nat.leb_le; lia. }
  destruct (m / 10 =? 0)%Z; [exact Hd|apply digits_rev_head; exact Hd].
Qed.

Lemma level_of_not_proto (d : string) :
  ~ In (level_of d) ToolExecutor.object_prototype_keys.
Proof.
  unfold level_of.
  pose proof (Z_to_string_nat_head (length (split_char "." d))) as H.
  destruct (Z_to_string _) as [|c r]; [discriminate|].
  apply digit_head_not_proto, H.
Qed.

(** X13: [getSubdomainLevels(domains)] maps each level [n] (as the key
    [String(n)]) to the number of domains with [n] dot-separated parts,
    and has no other key. *)
Theorem getSubdomainLevels_counts (domains : list string) (k : string) :
  lookup_field k (getSubdomainLevels domains) =
  match length (filter (fun d => String.eqb (level_of d) k) domains) with
  | 0 => None
  | c => Some (JNum (Z.of_nat c))
  end.
Proof.
  unfold getSubdomainLevels, count_into.
  rewrite (count_fold_spec (fun d => Some (level_of d)) domains).
  - simpl; destruct (length _); reflexivity.
  - intros x k' _ H; injection H as <-; apply level_of_not_proto.
Qed.

Lemma first_port_digits (u p : string) :
  first_port u = Some p ->
  (match p with String d _ => is_digit d | EmptyString => false end) = true.
Proof.
  induction u as [|c r IH]; simpl; [discriminate|].
  destruct (Ascii.eqb c ":").
  - destruct (ResultProcessor.take_while is_digit r) as [ds rest] eqn:Et; simpl.
    destruct ds as [|d ds'].
    + exact IH.
    + intros H; injection H as <-.
      destruct r as [|c' r']; simpl in Et; [discriminate|].
      destruct (is_digit c') eqn:Ec; [|discriminate].
      destruct (ResultProcessor.take_while is_digit r'); injection Et as <- _; exact Ec.
  - exact IH.
Qed.

(** X14: [getPorts(urls)] maps each port [p] to the number of URLs whose
    first [:digits] match is [p], and has no other key. *)
Theorem getPorts_counts (urls : list string) (k : string) :
  lookup_field k (getPorts urls) =
  match length (filter (fun u => match first_port u with
                                 | Some p => String.eqb p k
                                 | None => false end) urls) with
  | 0 => None
  | c => Some (JNum (Z.of_nat c))
  end.
Proof.
  unfold getPorts.
  rewrite (count_fold_spec first_port urls).
  - simpl; destruct (length _); reflexivity.
  - intros x k' _ H; apply first_port_digits in H.
    destruct k' as [|d r]; [discriminate|]; apply digit_head_not_proto, H.
Qed.

(** X15: when no URL's [url.split(':')[0]] is a key of [Object.prototype],
    [getProtocols(urls)] maps each protocol to the number of URLs that
    have it, and has no other key. *)
Theorem getProtocols_counts (urls : list string) (k : string) :
  (forall u, In u urls -> ~ In (protocol_of u) ToolExecutor.object_prototype_keys) ->
  lookup_field k (getProtocols urls) =
  match length (filter (fun u => String.eqb (protocol_of u) k) urls) with
  | 0 => None
  | c => Some (JNum (Z.of_nat c))
  end.
Proof.
  intros Hu; unfold getProtocols, count_into.
  rewrite (count_fold_spec (fun u => Some (protocol_of u)) urls).
  - simpl; destruct (length _); reflexivity.
  - intros x k' Hx H; injection H as <-; apply Hu, Hx.
Qed.

Lemma getProtocols_counts_witness :
  (forall u, In u ["https://a.example.com"; "http://b.example.com"; "https://c.example.com"] ->
             ~ In (protocol_of u) ToolExecutor.object_prototype_keys) /\
  lookup_field "https"
    (getProtocols ["https://a.example.com"; "http://b.example.com"; "https://c.example.com"])
  = Some (JNum 2).
Proof.
  assert (H : forall u, In u ["https://a.example.com"; "http://b.example.com";
                              "https://c.example.com"] ->
             ~ In (protocol_of u) ToolExecutor.object_prototype_keys).
  { intros u Hu; repeat (destruct Hu as [<-|Hu];
      [vm_compute; intros Hk; repeat (destruct Hk as [Hk|Hk]; [discriminate|]); exact Hk|]);
    destruct Hu. }
  split; [exact H|].
  rewrite (getProtocols_counts _ "https" H); reflexivity.
Defined.

End CountProofs.

Module AnalysisProofs.
Import JsString Js ResultTools SpecDefs DedupProofs.

Lemma after_sound (l s : list string) (y : string) :
  In y (first_occurrences_after s l) -> In y l.
Proof.
  revert s; induction l as [|x r IH]; intros s.
  - unfold first_occurrences_after; simpl; intros [].
  - rewrite after_cons; intros H; apply in_app_or in H as [H|H].
    + destruct (existsb (String.eqb x) s); [destruct H|].
      destruct H as [<-|[]]; left; reflexivity.
    + right; exact (IH _ H).
Qed.

Lemma after_complete (l s : list string) (y : string) :
  In y l -> In y s \/ In y (first_occurrences_after s l).
Proof.
  revert s; induction l as [|x r IH]; intros s Hy; [destruct Hy|].
  rewrite after_cons.
  assert (Hx : In x s \/ In x ((if existsb (String.eqb x) s then [] else [x]) ++
                               first_occurrences_after (s ++ [x]) r)).
  { destruct (existsb (String.eqb x) s) eqn:E.
    - left; apply existsb_exists in E as [z [Hz Ez]].
      apply String.eqb_eq in Ez; subst; exact Hz.
    - right; left; reflexivity. }
  destruct Hy as [<-|Hy]; [exact Hx|].
  destruct (IH (s ++ [x]) Hy) as [H|H].
  - apply in_app_or in H as [H|[<-|[]]]; [left; exact H|exact Hx].
  - right; apply in_or_app; right; exact H.
Qed.

(** X16: for an array [rs], [totalCount] is its length, [uniqueCount] the
    number of distinct values in it, and [uniqueCount + duplicateCount]
    is [totalCount] (so [duplicateCount] never underflows). *)
Theorem analyzeResults_counts (rs : list string) (outputType : jsval) :
  an_totalCount (analyzeResults (Some rs) outputType) = length rs /\
  an_uniqueCount (analyzeResults (Some rs) outputType) +
  an_duplicateCount (analyzeResults (Some rs) outputType) = length rs /\
  exists u, NoDup u /\ (forall x, In x u <-> In x rs) /\
            an_uniqueCount (analyzeResults (Some rs) outputType) = length u.
Proof.
  unfold analyzeResults; cbn [an_totalCount an_uniqueCount an_duplicateCount].
  rewrite dedup_strings, length_map.
  set (u := first_occurrences_spec rs).
  assert (Hnd : NoDup u) by apply (after_props rs []).
  assert (Hiff : forall x, In x u <-> In x rs).
  { intros x; split; [apply after_sound|].
    intros H; destruct (after_complete rs [] x H) as [[]|H']; exact H'. }
  assert (Hle : length u <= length rs)
    by (apply NoDup_incl_length; [exact Hnd|intros x; apply Hiff]).
  split; [reflexivity|split; [lia|]].
  exists u; split; [exact Hnd|split; [exact Hiff|reflexivity]].
Qed.

Lemma fold_min_spec (l : list nat) (x : nat) :
  (forall y, In y (x :: l) -> fold_left Nat.min l x <= y) /\ In (fold_left Nat.min l x) (x :: l).
Proof.
  revert x; induction l as [|a r IH]; intros x; simpl.
  - split; [intros y [<-|[]]; lia|left; reflexivity].
  - destruct (IH (Nat.min x a)) as [Hle Hin]; split.
    + intros y [<-|[<-|Hy]].
      * specialize (Hle _ (or_introl eq_refl)); lia.
      * specialize (Hle _ (or_introl eq_refl)); lia.
      * apply Hle; right; exact Hy.
    + destruct Hin as [Hin|Hin]; [|right; right; exact Hin].
      rewrite <- Hin; destruct (Nat.min_dec x a) as [E|E]; rewrite E; auto.
Qed.

Lemma fold_max_spec (l : list nat) (x : nat) :
  (forall y, In y (x :: l) -> y <= fold_left Nat.max l x) /\ In (fold_left Nat.max l x) (x :: l).
Proof.
  revert x; induction l as [|a r IH]; intros x; simpl.
  - split; [intros y [<-|[]]; lia|left; reflexivity].
  - destruct (IH (Nat.max x a)) as [Hle Hin]; split.
    + intros y [<-|[<-|Hy]].
      * specialize (Hle _ (or_introl eq_refl)); lia.
      * specialize (Hle _ (or_introl eq_refl)); lia.
      * apply Hle; right; exact Hy.
    + destruct Hin as [Hin|Hin]; [|right; right; exact Hin].
      rewrite <- Hin; destruct (Nat.max_dec x a) as [E|E]; rewrite E; auto.
Qed.

Lemma fold_add_bounds (l : list nat) (acc lo hi : nat) :
  (forall y, In y l -> lo <= y <= hi) ->
  acc + length l * lo <= fold_left Nat.add l acc <= acc + length l * hi.
Proof.
  revert acc; induction l as [|a r IH]; intros acc H; simpl; [lia|].
  assert (Ha := H a (or_introl eq_refl)).
  assert (IH' := IH (acc + a) (fun y Hy => H y (or_intror Hy))); lia.
Qed.

(** X17: for a non-empty array [rs], [minLength] and [maxLength] are the
    length of a shortest and of a longest element, and
    [minLength <= averageLength <= maxLength]. *)
Theorem analyzeResults_length_bounds (rs : list string) (outputType : jsval) :
  rs <> [] ->
  an_minLength (analyzeResults (Some rs) outputType) <=
  an_averageLength (analyzeResults (Some rs) outputType) <=
  an_maxLength (analyzeResults (Some rs) outputType) /\
  (forall r, In r rs ->
     an_minLength (analyzeResults (Some rs) outputType) <= String.length r <=
     an_maxLength (analyzeResults (Some rs) outputType)) /\
  (exists r, In r rs /\ String.length r = an_minLength (analyzeResults (Some rs) outputType)) /\
  (exists r, In r rs /\ String.length r = an_maxLength (analyzeResults (Some rs) outputType)).
Proof.
  destruct rs as [|r0 rest]; [intros H; contradiction H; reflexivity|intros _].
  unfold analyzeResults; cbn [an_minLength an_maxLength an_averageLength].
  replace (0 <? length (r0 :: rest)) with true by (symmetry; apply Nat.ltb_lt; simpl; lia).
  unfold list_min, list_max, round_div; simpl map.
  set (lens := map String.length rest).
  destruct (fold_min_spec lens (String.length r0)) as [Hmin Hmin_in].
  destruct (fold_max_spec lens (String.length r0)) as [Hmax Hmax_in].
  set (mn := fold_left Nat.min lens (String.length r0)) in *.
  set (mx := fold_left Nat.max lens (String.length r0)) in *.
  assert (Hall : forall r, In r (r0 :: rest) -> mn <= String.length r <= mx).
  { intros r Hr; split; [apply Hmin|apply Hmax];
      (destruct Hr as [<-|Hr]; [left; reflexivity|right; apply in_map, Hr]). }
  assert (Hb : forall y, In y (String.length r0 :: lens) -> mn <= y <= mx)
    by (intros y Hy; split; [apply Hmin, Hy|apply Hmax, Hy]).
  pose proof (fold_add_bounds (String.length r0 :: lens) 0 mn mx Hb) as Hs.
  simpl fold_left in *; simpl length in *; rewrite ?Nat.add_0_l in *.
  set (s := fold_left Nat.add lens (String.length r0)) in *.
  assert (Hlen : length lens = length rest) by apply length_map.
  set (n := S (length rest)).
  split; [split|split; [exact Hall|split]].
  - apply Nat.div_le_lower_bound; [lia|].
    unfold n; rewrite <- Hlen; nia.
  - assert (Hlt : (2 * s + n) / (2 * n) < S mx).
    { apply Nat.Div0.div_lt_upper_bound. unfold n; rewrite <- Hlen.
      destruct Hs as [_ Hs]; set (m := length lens) in *; nia. }
    lia.
  - destruct Hmin_in as [E|E]; [exists r0; split; [left; reflexivity|exact E]|].
    apply in_map_iff in E as [r [E Hr]]; exists r; split; [right; exact Hr|exact E].
  - destruct Hmax_in as [E|E]; [exists r0; split; [left; reflexivity|exact E]|].
    apply in_map_iff in E as [r [E Hr]]; exists r; split; [right; exact Hr|exact E].
Qed.

Lemma analyzeResults_length_bounds_witness :
  ["a.example.com"; "www.example.com"; "b.io"] <> [] /\
  an_minLength (analyzeResults (Some ["a.example.com"; "www.example.com"; "b.io"]) JUndef) <=
  an_averageLength (analyzeResults (Some ["a.example.com"; "www.example.com"; "b.io"]) JUndef) <=
  an_maxLength (analyzeResults (Some ["a.example.com"; "www.example.com"; "b.io"]) JUndef).
Proof.
  split; [discriminate|].
  apply (analyzeResults_length_bounds ["a.example.com"; "www.example.com"; "b.io"] JUndef).
  discriminate.
Defined.

End AnalysisProofs.

Module TopProofs.
Import JsString Js ResultTools SortFacts CountProofs.

Lemma lookup_In (k : string) (v : jsval) (l : obj) :
  lookup_field k l = Some v -> In (k, v) l.
Proof.
  induction l as [|[k' v'] r IH]; simpl; [discriminate|].
  destruct (String.eqb k k') eqn:E.
  - apply String.eqb_eq in E; subst; intros H; injection H as <-; left; reflexivity.
  - intros H; right; exact (IH H).
Qed.

Lemma In_lookup (k : string) (v : jsval) (l : obj) :
  NoDup (map fst l) -> In (k, v) l -> lookup_field k l = Some v.
Proof.
  induction l as [|[k' v'] r IH]; simpl; [intros _ []|].
  intros Hnd H; inversion Hnd as [|? ? Hk' Hr]; subst.
  destruct H as [H|H].
  - injection H as -> ->; rewrite String.eqb_refl; reflexivity.
  - destruct (String.eqb k k') eqn:E; [|exact (IH Hr H)].
    apply String.eqb_eq in E; subst; exfalso; apply Hk'.
    apply (in_map fst) in H; exact H.
Qed.

Lemma lookup_None (k : string) (l : obj) :
  lookup_field k l = None <-> ~ In k (map fst l).
Proof.
  induction l as [|[k' v'] r IH]; simpl; [tauto|].
  destruct (String.eqb k k') eqn:E.
  - apply String.eqb_eq in E; subst; split; [discriminate|intros H; exfalso; apply H; now left].
  - apply String.eqb_neq in E; rewrite IH; split.
    + intros H [H'|H']; [congruence|tauto].
    + intros H H'; apply H; now right.
Qed.

Lemma lookup_perm (k : string) (l l' : obj) :
  NoDup (map fst l) -> Permutation l l' -> lookup_field k l = lookup_field k l'.
Proof.
  intros Hnd Hp.
  assert (Hnd' : NoDup (map fst l'))
    by (apply (Permutation_NoDup (Permutation_map fst Hp)), Hnd).
  destruct (lookup_field k l) as [v|] eqn:E.
  - symmetry; apply In_lookup; [exact Hnd'|].
    apply (Permutation_in _ Hp), lookup_In, E.
  - symmetry; apply lookup_None; apply lookup_None in E.
    intros H; apply E.
    apply (Permutation_in _ (Permutation_map fst (Permutation_sym Hp))), H.
Qed.

Lemma lookup_app (k : string) (l1 l2 : obj) :
  lookup_field k (l1 ++ l2) =
  match lookup_field k l1 with Some v => Some v | None => lookup_field k l2 end.
Proof.
  induction l1 as [|[k' v'] r IH]; simpl; [reflexivity|].
  destruct (String.eqb k k'); [reflexivity|exact IH].
Qed.

Lemma set_field_keys (k : string) (v : jsval) (o : obj) :
  NoDup (map fst o) ->
  NoDup (map fst (set_field k v o)) /\
  (forall k', In k' (map fst (set_field k v o)) <-> k' = k \/ In k' (map fst o)).
Proof.
  induction o as [|[k0 v0] r IH]; simpl; intros Hnd.
  - split; [constructor; [intros []|constructor]|intros k'; split; intros [H|[]]; left; congruence].
  - inversion Hnd as [|? ? Hk0 Hr]; subst.
    destruct (String.eqb k k0) eqn:E.
    + apply String.eqb_eq in E; subst; simpl; split; [exact Hnd|intros k'; split; intros H; repeat destruct H as [H|H]; subst; auto].
    + apply String.eqb_neq in E; destruct (IH Hr) as [Hnd' Hin]; simpl; split.
      * constructor; [|exact Hnd']. rewrite Hin; intros [H|H]; [congruence|contradiction].
      * intros k'; rewrite Hin; tauto.
Qed.

Lemma set_field_absent (k : string) (v : jsval) (o : obj) :
  ~ In k (map fst o) -> set_field k v o = o ++ [(k, v)].
Proof.
  induction o as [|[k0 v0] r IH]; simpl; intros H; [reflexivity|].
  destruct (String.eqb k k0) eqn:E.
  - apply String.eqb_eq in E; subst; exfalso; apply H; now left.
  - f_equal; apply IH; intros H'; apply H; now right.
Qed.

Lemma bump_keys (o : obj) (k : string) :
  NoDup (map fst o) -> NoDup (map fst (bump o k)).
Proof.
  intros Hnd; unfold bump; destruct (String.eqb k "__proto__"); [exact Hnd|].
  apply set_field_keys, Hnd.
Qed.

Lemma count_into_keys (key : string -> string) (xs : list string) :
  NoDup (map fst (count_into key xs)).
Proof.
  unfold count_into.
  assert (H : forall acc, NoDup (map fst acc) ->
                NoDup (map fst (fold_left (fun o x => bump o (key x)) xs acc))).
  { induction xs as [|x r IH]; intros acc Hacc; simpl; [exact Hacc|].
    apply IH, bump_keys, Hacc. }
  apply H; constructor.
Qed.

Lemma object_entries_perm (o : obj) : Permutation (object_entries o) o.
Proof.
  unfold object_entries.
  eapply Permutation_trans; [|apply (perm_filter_split is_index_key
                                       (fun kv => negb (is_index_key kv)))];
    [|intros; reflexivity].
  apply Permutation_app_tail, sort_by_perm.
Qed.

(** [{ ...acc, [key]: value }] over entries with fresh keys. *)
Lemma spread_fold (l acc : obj) :
  NoDup (map fst acc) -> NoDup (map fst l) ->
  (forall k, In k (map fst l) -> ~ In k (map fst acc)) ->
  NoDup (map fst (fold_left (fun acc kv => set_field (fst kv) (snd kv) (object_entries acc)) l acc)) /\
  length (fold_left (fun acc kv => set_field (fst kv) (snd kv) (object_entries acc)) l acc)
  = length acc + length l /\
  (forall k, lookup_field k (fold_left (fun acc kv => set_field (fst kv) (snd kv)
                                                      (object_entries acc)) l acc) =
             match lookup_field k acc with Some v => Some v | None => lookup_field k l end).
Proof.
  revert acc; induction l as [|[k v] r IH]; intros acc Hacc Hl Hfresh; simpl.
  - split; [exact Hacc|split; [lia|]].
    intros k; destruct (lookup_field k acc); reflexivity.
  - inversion Hl as [|? ? Hkr Hr]; subst.
    assert (Hp := object_entries_perm acc).
    assert (Hkacc : ~ In k (map fst acc)) by (apply Hfresh; now left).
    assert (Hke : ~ In k (map fst (object_entries acc))).
    { intros H; apply Hkacc.
      apply (Permutation_in _ (Permutation_map fst Hp)), H. }
    rewrite (set_field_absent _ _ _ Hke).
    assert (Hnde : NoDup (map fst (object_entries acc)))
      by (apply (Permutation_NoDup (Permutation_map fst (Permutation_sym Hp))), Hacc).
    assert (Hacc' : NoDup (map fst (object_entries acc ++ [(k, v)]))).
    { rewrite map_app; apply NoDup_app; [exact Hnde|repeat constructor; intros []|].
      intros a Ha [Hk|[]]; simpl in Hk; subst a; contradiction. }
    assert (Hfresh' : forall k', In k' (map fst r) ->
                       ~ In k' (map fst (object_entries acc ++ [(k, v)]))).
    { intros k' Hk' H; rewrite map_app in H; apply in_app_or in H as [H|[H|[]]].
      - apply (Hfresh k'); [now right|].
        apply (Permutation_in _ (Permutation_map fst Hp)), H.
      - simpl in H; subst k'; contradiction. }
    destruct (IH _ Hacc' Hr Hfresh') as [Hnd [Hlen Hlk]].
    split; [exact Hnd|split].
    + rewrite Hlen, length_app, (Permutation_length Hp); simpl; lia.
    + intros k0; rewrite Hlk, lookup_app.
      rewrite <- (lookup_perm k0 _ _ Hacc (Permutation_sym Hp)).
      destruct (lookup_field k0 acc) as [w|] eqn:E; [reflexivity|].
      simpl; destruct (String.eqb k0 k) eqn:Ek; [reflexivity|].
      destruct (lookup_field k0 r); reflexivity.
Qed.

Lemma strongly_sorted_app {A} (R : A -> A -> Prop) (l1 l2 : list A) :
  StronglySorted R (l1 ++ l2) -> forall a b, In a l1 -> In b l2 -> R a b.
Proof.
  induction l1 as [|x r IH]; simpl; intros H a b Ha Hb; [destruct Ha|].
  inversion H as [|? ? Hs Hf]; subst.
  destruct Ha as [<-|Ha].
  - rewrite Forall_forall in Hf; apply Hf, in_or_app; right; exact Hb.
  - exact (IH Hs a b Ha Hb).
Qed.


Section Top.
Variable key : string -> string.
Variable xs : list string.
Hypothesis key_ok : forall x, In x xs -> ~ In (key x) ToolExecutor.object_prototype_keys.

Local Notation cnt k := (length (filter (fun x => String.eqb (key x) k) xs)).
Local Notation count_ge :=
  (fun a b : string * jsval => exists x y, snd a = JNum x /\ snd b = JNum y /\ (y <= x)%Z).

Lemma count_into_lookup (k : string) :
  lookup_field k (count_into key xs) =
  if cnt k =? 0 then None else Some (JNum (Z.of_nat (cnt k))).
Proof.
  unfold count_into.
  apply (count_fold_spec (fun x => Some (key x)) xs).
  intros x k' Hx H; injection H as <-; apply key_ok, Hx.
Qed.

Lemma count_into_entry (k : string) (v : jsval) :
  In (k, v) (count_into key xs) -> v = JNum (Z.of_nat (cnt k)) /\ 0 < cnt k.
Proof.
  intros H; apply In_lookup in H; [|apply count_into_keys].
  rewrite count_into_lookup in H.
  destruct (cnt k =? 0) eqn:E; [discriminate|].
  apply Nat.eqb_neq in E; injection H as <-; split; [reflexivity|lia].
Qed.

Lemma count_into_member (x : string) :
  In x xs -> In (key x, JNum (Z.of_nat (cnt (key x)))) (count_into key xs).
Proof.
  intros Hx; apply lookup_In; rewrite count_into_lookup.
  assert (Hc : 0 < cnt (key x)).
  { destruct (filter (fun y => String.eqb (key y) (key x)) xs) eqn:E.
    - assert (Hin : In x (filter (fun y => String.eqb (key y) (key x)) xs))
        by (apply filter_In; split; [exact Hx|apply String.eqb_refl]).
      rewrite E in Hin; destruct Hin.
    - simpl; lia. }
  destruct (cnt (key x) =? 0) eqn:E; [apply Nat.eqb_eq in E; lia|reflexivity].
Qed.

Lemma top_entries_spec :
  length (top_entries (count_into key xs)) <= 10 /\
  (forall k v, lookup_field k (top_entries (count_into key xs)) = Some v ->
     v = JNum (Z.of_nat (cnt k)) /\ In k (map key xs)) /\
  (forall x, In x xs -> lookup_field (key x) (top_entries (count_into key xs)) = None ->
     length (top_entries (count_into key xs)) = 10 /\
     forall k v, lookup_field k (top_entries (count_into key xs)) = Some v ->
       cnt (key x) <= cnt k).
Proof.
  set (o := count_into key xs).
  set (S := Pipeline.sort_by count_desc (object_entries o)).
  assert (HpS : Permutation S o).
  { eapply Permutation_trans; [apply sort_by_perm|apply object_entries_perm]. }
  assert (HndS : NoDup (map fst S))
    by (apply (Permutation_NoDup (Permutation_map fst (Permutation_sym HpS))),
               count_into_keys).
  assert (HnumS : forall kv, In kv S -> snd kv = JNum (Z.of_nat (cnt (fst kv))) /\ 0 < cnt (fst kv)).
  { intros [k v] H; apply (Permutation_in _ HpS) in H; exact (count_into_entry k v H). }
  assert (Hsorted : StronglySorted count_ge S).
  { apply Sorted_StronglySorted.
    - intros a b c [x1 [y1 [Ha1 [Hb1 H1]]]] [x2 [y2 [Hb2 [Hc2 H2]]]].
      rewrite Hb1 in Hb2; injection Hb2 as <-.
      exists x1, y2; split; [exact Ha1|split; [exact Hc2|lia]].
    - apply (sort_by_sorted (fun kv => exists z, snd kv = JNum z)).
      + intros a b [x Ha] [y Hb] H; unfold count_desc in H; rewrite Ha, Hb in H; simpl in H.
        exists y, x; split; [exact Hb|split; [exact Ha|lia]].
      + intros a b [x Ha] [y Hb] H; unfold count_desc in H; rewrite Ha, Hb in H; simpl in H.
        exists x, y; split; [exact Ha|split; [exact Hb|lia]].
      + apply Forall_forall; intros kv Hkv.
        apply (Permutation_in _ (object_entries_perm o)) in Hkv.
        destruct kv as [k v]; destruct (count_into_entry k v Hkv) as [-> _].
        eexists; reflexivity. }
  set (K := firstn 10 S).
  assert (HndK : NoDup (map fst K)) by (unfold K; rewrite <- firstn_map; apply nodup_firstn, HndS).
  destruct (spread_fold K [] ltac:(constructor) HndK ltac:(intros k _ [])) as [_ [Hlen Hlk]].
  simpl in Hlk, Hlen.
  change (fold_left (fun acc kv => set_field (fst kv) (snd kv) (object_entries acc)) K [])
    with (top_entries o) in Hlk, Hlen.
  assert (HlenK : length K <= 10) by (unfold K; rewrite length_firstn; lia).
  split; [lia|split].
  - intros k v H; rewrite Hlk in H.
    apply lookup_In in H; apply in_firstn in H.
    destruct (HnumS _ H) as [Hv Hc]; simpl in Hv, Hc; split; [exact Hv|].
    destruct (filter (fun x => String.eqb (key x) k) xs) as [|y ys] eqn:E; [simpl in Hc; lia|].
    assert (Hy : In y (filter (fun x => String.eqb (key x) k) xs)) by (rewrite E; now left).
    apply filter_In in Hy as [Hy Hyk]; apply String.eqb_eq in Hyk.
    rewrite <- Hyk; apply in_map, Hy.
  - intros x Hx Hnone; rewrite Hlk in Hnone.
    assert (HxS := Permutation_in _ (Permutation_sym HpS) (count_into_member x Hx)).
    set (ex := (key x, JNum (Z.of_nat (cnt (key x))))) in HxS.
    assert (HnK : ~ In ex K).
    { intros H; apply In_lookup in H; [|exact HndK]; simpl in H; congruence. }
    assert (HxD : In ex (skipn 10 S)).
    { rewrite <- (firstn_skipn 10 S) in HxS; apply in_app_or in HxS as [H|H];
        [contradiction|exact H]. }
    assert (Hge := strongly_sorted_app count_ge K (skipn 10 S)
                     ltac:(unfold K; rewrite firstn_skipn; exact Hsorted)).
    split.
    + rewrite Hlen; unfold K; rewrite length_firstn.
      assert (10 < length S).
      { destruct (Nat.le_gt_cases (length S) 10) as [Hle|]; [|assumption].
        rewrite skipn_all2 in HxD by exact Hle; destruct HxD. }
      lia.
    + intros k v H; rewrite Hlk in H; apply lookup_In in H.
      destruct (Hge _ _ H HxD) as [a [b [Ha [Hb Hab]]]].
      destruct (HnumS _ (in_firstn _ _ _ H)) as [Hv _]; simpl in Ha, Hv, Hb.
      rewrite Hv in Ha; injection Ha as <-; injection Hb as <-; lia.
Qed.

End Top.

(** X18: when no domain's last dot-separated part is a key of
    [Object.prototype], [getTopLevelDomains(domains)] has at most 10 keys;
    each key is the TLD of some domain and maps to the number of domains
    with that TLD; and a TLD is left out only when 10 keys are kept, all
    with counts at least its own. *)
Theorem getTopLevelDomains_top10 (domains : list string) :
  (forall d, In d domains -> ~ In (tld_of d) ToolExecutor.object_prototype_keys) ->
  length (getTopLevelDomains domains) <= 10 /\
  (forall k v, lookup_field k (getTopLevelDomains domains) = Some v ->
     v = JNum (Z.of_nat (length (filter (fun d => String.eqb (tld_of d) k) domains))) /\
     In k (map tld_of domains)) /\
  (forall d, In d domains -> lookup_field (tld_of d) (getTopLevelDomains domains) = None ->
     length (getTopLevelDomains domains) = 10 /\
     forall k v, lookup_field k (getTopLevelDomains domains) = Some v ->
       length (filter (fun d' => String.eqb (tld_of d') (tld_of d)) domains) <=
       length (filter (fun d' => String.eqb (tld_of d') k) domains)).
Proof. intros H; exact (top_entries_spec tld_of domains H). Qed.

Lemma getTopLevelDomains_top10_witness :
  (forall d, In d ["a.example.com"; "b.example.org"; "c.example.com"] ->
             ~ In (tld_of d) ToolExecutor.object_prototype_keys) /\
  length (getTopLevelDomains ["a.example.com"; "b.example.org"; "c.example.com"]) <= 10.
Proof.
  assert (H : forall d, In d ["a.example.com"; "b.example.org"; "c.example.com"] ->
             ~ In (tld_of d) ToolExecutor.object_prototype_keys).
  { intros d Hd; repeat (destruct Hd as [<-|Hd];
      [vm_compute; intros Hk; repeat (destruct Hk as [Hk|Hk]; [discriminate|]); exact Hk|]);
    destruct Hd. }
  split; [exact H|apply (getTopLevelDomains_top10 _ H)].
Defined.

(** X19: when no IP's first three dot-separated parts (joined by [.]) form a
    key of [Object.prototype], [getSubnets(ips)] has at most 10 keys; each
    key is the subnet of some IP and maps to the number of IPs in it; and
    a subnet is left out only when 10 keys are kept, all with counts at
    least its own. *)
Theorem getSubnets_top10 (ips : list string) :
  (forall ip, In ip ips -> ~ In (subnet_of ip) ToolExecutor.object_prototype_keys) ->
  length (getSubnets ips) <= 10 /\
  (forall k v, lookup_field k (getSubnets ips) = Some v ->
     v = JNum (Z.of_nat (length (filter (fun ip => String.eqb (subnet_of ip) k) ips))) /\
     In k (map subnet_of ips)) /\
  (forall ip, In ip ips -> lookup_field (subnet_of ip) (getSubnets ips) = None ->
     length (getSubnets ips) = 10 /\
     forall k v, lookup_field k (getSubnets ips) = Some v ->
       length (filter (fun ip' => String.eqb (subnet_of ip') (subnet_of ip)) ips) <=
       length (filter (fun ip' => String.eqb (subnet_of ip') k) ips)).
Proof. intros H; exact (top_entries_spec subnet_of ips H). Qed.

Lemma getSubnets_top10_witness :
  (forall ip, In ip ["10.0.0.1"; "10.0.0.2"; "192.168.1.7"] ->
              ~ In (subnet_of ip) ToolExecutor.object_prototype_keys) /\
  length (getSubnets ["10.0.0.1"; "10.0.0.2"; "192.168.1.7"]) <= 10.
Proof.
  assert (H : forall ip, In ip ["10.0.0.1"; "10.0.0.2"; "192.168.1.7"] ->
              ~ In (subnet_of ip) ToolExecutor.object_prototype_keys).
  { intros d Hd; repeat (destruct Hd as [<-|Hd];
      [vm_compute; intros Hk; repeat (destruct Hk as [Hk|Hk]; [discriminate|]); exact Hk|]);
    destruct Hd. }
  split; [exact H|apply (getSubnets_top10 _ H)].
Defined.

End TopProofs.

Module FilterProofs.
Import JsString Js ResultTools.

Lemma filterM_filter {A} (p : A -> Exc bool) (l l' : list A) :
  filterM p l = inr l' ->
  l' = filter (fun x => match p x with inr b => b | inl _ => false end) l.
Proof.
  revert l'; induction l as [|y r IH]; intros l' H; simpl in H.
  - injection H as <-; reflexivity.
  - destruct (p y) as [e|b] eqn:Ey; simpl in H; [discriminate|].
    destruct (filterM p r) as [e|r'] eqn:Er; simpl in H; [discriminate|].
    injection H as <-; simpl; rewrite Ey, (IH r' eq_refl); destruct b; reflexivity.
Qed.

Lemma filter_true_id {A} (l : list A) : filter (fun _ => true) l = l.
Proof. induction l as [|x r IH]; simpl; [reflexivity|rewrite IH; reflexivity]. Qed.

Lemma filter_compose {A} (f g : A -> bool) (l : list A) :
  filter f (filter g l) = filter (fun x => g x && f x) l.
Proof.
  induction l as [|x r IH]; simpl; [reflexivity|].
  destruct (g x); simpl; [destruct (f x); simpl; rewrite IH|rewrite IH]; reflexivity.
Qed.

Section Regexps.
Variable RegExp_i : jsval -> Exc (string -> bool).

Lemma exclude_all_spec (ps : list jsval) (l l' : list string) :
  exclude_all RegExp_i ps l = inr l' ->
  (exists keep, l' = filter keep l) /\
  (forall p re, In p ps -> RegExp_i p = inr re -> forall r, In r l' -> re r = false).
Proof.
  revert l; induction ps as [|p ps IH]; intros l H; simpl in H.
  - injection H as <-; split; [exists (fun _ => true); symmetry; apply filter_true_id|intros p re []].
  - destruct (RegExp_i p) as [e|re0] eqn:Ep; simpl in H; [discriminate|].
    destruct (IH _ H) as [[keep Hk] Hex]; split.
    + exists (fun x => negb (re0 x) && keep x); rewrite Hk; apply filter_compose.
    + intros p' re [<-|Hp] Hre r Hr; [|exact (Hex p' re Hp Hre r Hr)].
      rewrite Ep in Hre; injection Hre as <-.
      rewrite Hk in Hr; apply filter_In in Hr as [Hr _]; apply filter_In in Hr as [_ Hr].
      destruct (re0 r); [discriminate|reflexivity].
Qed.

Lemma some_match_true (ps : list jsval) (r : string) :
  some_match RegExp_i ps r = inr true ->
  exists p re, In p ps /\ RegExp_i p = inr re /\ re r = true.
Proof.
  induction ps as [|p ps IH]; simpl; [discriminate|].
  destruct (RegExp_i p) as [e|re] eqn:Ep; simpl; [discriminate|].
  destruct (re r) eqn:Er.
  - intros _; exists p, re; auto.
  - intros H; destruct (IH H) as [p' [re' [Hp [Hre Hr]]]]; exists p', re'; auto.
Qed.

End Regexps.

Lemma get_prop_default (c : jsval) (k : string) :
  get_prop (Pipeline.with_default c (JObj 0 [])) k = get_prop c k.
Proof. destruct c; reflexivity. Qed.

(** X20: when [filterResults(rs, criteria)] returns, its result keeps a
    subsequence of [rs] (the elements that pass one predicate, in their
    order, with their multiplicity), and each kept element satisfies every
    criterion given: it matches [pattern]; it is at least [minLength] and
    at most [maxLength] long when these are non-zero numbers; it matches
    no [exclude] pattern and some [include] pattern when these are
    arrays. *)
Theorem filterResults_kept (RegExp_i : jsval -> Exc (string -> bool))
  (rs : list string) (criteria : jsval) (out : list string) :
  filterResults RegExp_i (Some rs) criteria = inr out ->
  (exists keep, out = filter keep rs) /\
  (forall re, truthy (get_prop criteria "pattern") = true ->
     RegExp_i (get_prop criteria "pattern") = inr re -> forall r, In r out -> re r = true) /\
  (forall k, get_prop criteria "minLength" = JNum k -> k <> 0%Z ->
     forall r, In r out -> (k <= Z.of_nat (String.length r))%Z) /\
  (forall k, get_prop criteria "maxLength" = JNum k -> k <> 0%Z ->
     forall r, In r out -> (Z.of_nat (String.length r) <= k)%Z) /\
  (forall ref ps p re, get_prop criteria "exclude" = JArr ref ps -> In p ps ->
     RegExp_i p = inr re -> forall r, In r out -> re r = false) /\
  (forall ref ps, get_prop criteria "include" = JArr ref ps ->
     forall r, In r out -> exists p re, In p ps /\ RegExp_i p = inr re /\ re r = true).
Proof.
  intros H; unfold filterResults in H.
  assert (Hc : match criteria with JNull => False | _ => True end)
    by (destruct criteria; try exact I; discriminate).
  assert (Hg : forall k, get_prop (Pipeline.with_default criteria (JObj 0 [])) k =
                         get_prop criteria k) by apply get_prop_default.
  replace (match criteria with
           | JNull => throw "Cannot read properties of null (reading 'pattern')"
           | _ => _ end)
    with (let c := Pipeline.with_default criteria (JObj 0 []) in
          f1 <- (if truthy (get_prop c "pattern")
                 then re <- RegExp_i (get_prop c "pattern") ;; ret (filter re rs)
                 else ret rs) ;;
          f2 <- (if truthy (get_prop c "minLength")
                 then filterM (length_at_least (get_prop c "minLength")) f1
                 else ret f1) ;;
          f3 <- (if truthy (get_prop c "maxLength")
                 then filterM (length_at_most (get_prop c "maxLength")) f2
                 else ret f2) ;;
          f4 <- (match get_prop c "exclude" with
                 | JArr _ ps => exclude_all RegExp_i ps f3
                 | _ => ret f3
                 end) ;;
          match get_prop c "include" with
          | JArr _ ps => filterM (some_match RegExp_i ps) f4
          | _ => ret f4
          end) in H by (destruct criteria; try reflexivity; contradiction).
  cbv zeta in H; rewrite !Hg in H.
  apply PipelineProofs.bind_inr in H as [f1 [H1 H]].
  apply PipelineProofs.bind_inr in H as [f2 [H2 H]].
  apply PipelineProofs.bind_inr in H as [f3 [H3 H]].
  apply PipelineProofs.bind_inr in H as [f4 [H4 H5]].
  (* each stage keeps a filter of its input *)
  assert (S1 : (exists keep, f1 = filter keep rs) /\
               (forall re, truthy (get_prop criteria "pattern") = true ->
                  RegExp_i (get_prop criteria "pattern") = inr re ->
                  forall r, In r f1 -> re r = true)).
  { destruct (truthy (get_prop criteria "pattern")) eqn:Et.
    - apply PipelineProofs.bind_inr in H1 as [re0 [Hre0 H1]]; injection H1 as <-.
      split; [exists re0; reflexivity|].
      intros re _ Hre r Hr; rewrite Hre0 in Hre; injection Hre as <-.
      apply filter_In in Hr as [_ Hr]; exact Hr.
    - injection H1 as <-; split; [exists (fun _ => true); symmetry; apply filter_true_id|].
      intros re Hf; discriminate Hf. }
  assert (S2 : (exists keep, f2 = filter keep f1) /\
               (forall k, get_prop criteria "minLength" = JNum k -> k <> 0%Z ->
                  forall r, In r f2 -> (k <= Z.of_nat (String.length r))%Z)).
  { destruct (truthy (get_prop criteria "minLength")) eqn:Et.
    - split; [eexists; exact (filterM_filter _ _ _ H2)|].
      intros k Hk _ r Hr; pose proof (PipelineExtraProofs.filterM_in _ _ _ _ H2 Hr) as Hl.
      rewrite Hk in Hl; unfold length_at_least in Hl; simpl in Hl.
      injection Hl as Hl; apply Z.leb_le, Hl.
    - injection H2 as <-; split; [exists (fun _ => true); symmetry; apply filter_true_id|].
      intros k Hk Hk0; rewrite Hk in Et; simpl in Et.
      destruct (k =? 0)%Z eqn:E; [apply Z.eqb_eq in E; contradiction|discriminate]. }
  assert (S3 : (exists keep, f3 = filter keep f2) /\
               (forall k, get_prop criteria "maxLength" = JNum k -> k <> 0%Z ->
                  forall r, In r f3 -> (Z.of_nat (String.length r) <= k)%Z)).
  { destruct (truthy (get_prop criteria "maxLength")) eqn:Et.
    - split; [eexists; exact (filterM_filter _ _ _ H3)|].
      intros k Hk _ r Hr; pose proof (PipelineExtraProofs.filterM_in _ _ _ _ H3 Hr) as Hl.
      rewrite Hk in Hl; unfold length_at_most in Hl; simpl in Hl.
      injection Hl as Hl; apply Z.leb_le, Hl.
    - injection H3 as <-; split; [exists (fun _ => true); symmetry; apply filter_true_id|].
      intros k Hk Hk0; rewrite Hk in Et; simpl in Et.
      destruct (k =? 0)%Z eqn:E; [apply Z.eqb_eq in E; contradiction|discriminate]. }
  assert (S4 : (exists keep, f4 = filter keep f3) /\
               (forall ref ps p re, get_prop criteria "exclude" = JArr ref ps -> In p ps ->
                  RegExp_i p = inr re -> forall r, In r f4 -> re r = false)).
  { destruct (get_prop criteria "exclude") eqn:Ee;
      try (injection H4 as <-; split; [exists (fun _ => true); symmetry; apply filter_true_id|];
           intros ? ? ? ? Hf; discriminate Hf).
    destruct (exclude_all_spec RegExp_i _ _ _ H4) as [Hk Hex]; split; [exact Hk|].
    intros ref' ps' p re Heq; injection Heq as <- <-; exact (Hex p re). }
  assert (S5 : (exists keep, out = filter keep f4) /\
               (forall ref ps, get_prop criteria "include" = JArr ref ps ->
                  forall r, In r out -> exists p re, In p ps /\ RegExp_i p = inr re /\ re r = true)).
  { destruct (get_prop criteria "include") eqn:Ei;
      try (injection H5 as <-; split; [exists (fun _ => true); symmetry; apply filter_true_id|];
           intros ? ? Hf; discriminate Hf).
    split; [eexists; exact (filterM_filter _ _ _ H5)|].
    intros ref' ps' Heq r Hr; injection Heq as <- <-.
    apply some_match_true, (PipelineExtraProofs.filterM_in _ _ _ _ H5 Hr). }
  destruct S1 as [[k1 E1] P1], S2 as [[k2 E2] P2], S3 as [[k3 E3] P3],
           S4 as [[k4 E4] P4], S5 as [[k5 E5] P5].
  assert (Hsub : forall r, In r out -> In r f4 /\ In r f3 /\ In r f2 /\ In r f1).
  { intros r Hr.
    assert (R4 : In r f4) by (rewrite E5 in Hr; apply filter_In in Hr; apply Hr).
    assert (R3 : In r f3) by (rewrite E4 in R4; apply filter_In in R4; apply R4).
    assert (R2 : In r f2) by (rewrite E3 in R3; apply filter_In in R3; apply R3).
    assert (R1 : In r f1) by (rewrite E2 in R2; apply filter_In in R2; apply R2).
    auto. }
  split; [|split; [|split; [|split; [|split]]]].
  - exists (fun x => k1 x && (k2 x && (k3 x && (k4 x && k5 x)))).
    rewrite E5, E4, E3, E2, E1, !filter_compose; reflexivity.
  - intros re Ht Hre r Hr; apply (P1 re Ht Hre), Hsub, Hr.
  - intros k Hk Hk0 r Hr; apply (P2 k Hk Hk0), Hsub, Hr.
  - intros k Hk Hk0 r Hr; apply (P3 k Hk Hk0), Hsub, Hr.
  - intros ref ps p re He Hp Hre r Hr; apply (P4 ref ps p re He Hp Hre), Hsub, Hr.
  - exact P5.
Qed.

Lemma filterResults_kept_witness :
  filterResults (fun _ => inr (fun _ => true)) (Some ["a.io"; "b"])
    (JObj 1 [("minLength", JNum 4)]) = inr ["a.io"] /\
  (exists keep, ["a.io"] = filter keep ["a.io"; "b"]).
Proof.
  assert (H : filterResults (fun _ => inr (fun _ => true)) (Some ["a.io"; "b"])
                (JObj 1 [("minLength", JNum 4)]) = inr ["a.io"]) by reflexivity.
  split; [exact H|apply (filterResults_kept _ _ _ _ H)].
Defined.

End FilterProofs.

Module ProcessProofs.
Import ProcessTable ProcessEvents.

Local Notation Inv st :=
  ((forall p, In p (timers st) -> In p (killed st) \/ In p (exited st)) /\
   Forall (fun s => snd s = "SIGTERM") (signals st)).

Lemma mem_In (p : nat) (l : list nat) : mem p l = true <-> In p l.
Proof.
  unfold mem; rewrite existsb_exists; split.
  - intros [q [Hq E]]; apply Nat.eqb_eq in E; subst; exact Hq.
  - intros H; exists p; split; [exact H|apply Nat.eqb_refl].
Qed.

(** What [send] and [killProcess] keep: processes stay killed and exited. *)
Lemma send_mono (st : Executor) (pid : nat) (sig : string) :
  activeProcesses (send st pid sig) = activeProcesses st /\
  exited (send st pid sig) = exited st /\
  (forall p, In p (killed st) -> In p (killed (send st pid sig))) /\
  (In pid (killed (send st pid sig)) \/ In pid (exited st)).
Proof.
  unfold send; destruct (mem pid (exited st)) eqn:E; simpl.
  - split; [reflexivity|split; [reflexivity|split; [auto|right; apply mem_In, E]]].
  - split; [reflexivity|split; [reflexivity|split; [auto|left; left; reflexivity]]].
Qed.

Lemma killProcess_mono (st : Executor) (pid : nat) :
  activeProcesses (killProcess st pid) = activeProcesses st /\
  exited (killProcess st pid) = exited st /\
  (forall p, In p (killed st) -> In p (killed (killProcess st pid))) /\
  (In pid (killed (killProcess st pid)) \/ In pid (exited st)).
Proof.
  unfold killProcess; destruct (mem pid (killed st)) eqn:E.
  - split; [reflexivity|split; [reflexivity|split; [auto|left; apply mem_In, E]]].
  - destruct (send_mono st pid "SIGTERM") as [H1 [H2 [H3 H4]]]; simpl; auto.
Qed.

Lemma send_inv (st : Executor) (pid : nat) :
  Inv st -> Inv (send st pid "SIGTERM").
Proof.
  intros [Ht Hs]; unfold send; destruct (mem pid (exited st)); [split; assumption|simpl].
  split.
  - intros p Hp; destruct (Ht p Hp); [left; right|right]; assumption.
  - apply Forall_app; split; [exact Hs|repeat constructor].
Qed.

Lemma killProcess_inv (st : Executor) (pid : nat) :
  Inv st -> Inv (killProcess st pid).
Proof.
  intros HI; unfold killProcess; destruct (mem pid (killed st)); [exact HI|].
  destruct (send_inv st pid HI) as [Ht Hs]; simpl; split; [|exact Hs].
  intros p Hp; apply in_app_or in Hp as [Hp|[<-|[]]]; [exact (Ht p Hp)|].
  destruct (send_mono st pid "SIGTERM") as [_ [He [_ Hk]]]; rewrite He; exact Hk.
Qed.

Lemma set_active_inv (st : Executor) (a : list (string * Entry)) :
  Inv st -> Inv (set_active st a).
Proof. intros HI; exact HI. Qed.

Lemma fire_timer_inv (st : Executor) : Inv st -> Inv (fire_timer st).
Proof.
  intros [Ht Hs]; unfold fire_timer.
  destruct (timers st) as [|pid rest] eqn:Et; [split; [rewrite Et; exact Ht|exact Hs]|].
  assert (Hrest : forall p, In p rest -> In p (killed st) \/ In p (exited st))
    by (intros p Hp; apply Ht; right; exact Hp).
  unfold send, mkExecutor; simpl.
  destruct (mem pid (killed st)) eqn:Ek; simpl; [split; assumption|].
  destruct (mem pid (exited st)) eqn:Ee; simpl; [split; assumption|].
  exfalso; destruct (Ht pid (or_introl eq_refl)) as [H|H]; apply mem_In in H; congruence.
Qed.

Lemma killExecution_inv (st : Executor) (id : string) :
  Inv st -> Inv (killExecution st id).
Proof.
  intros HI; unfold killExecution; destruct (map_get id (activeProcesses st)); [|exact HI].
  apply set_active_inv, killProcess_inv, HI.
Qed.

Lemma cleanup_inv (now : Z) (st : Executor) :
  Inv st -> Inv (cleanupStaleProcesses now st).
Proof.
  intros HI; unfold cleanupStaleProcesses.
  assert (H : forall l s, Inv s ->
            Inv (fold_left (fun s ie => if (staleThreshold <? now - en_startTime (snd ie))%Z
                                        then killExecution s (fst ie) else s) l s)).
  { induction l as [|ie r IH]; intros s Hs; simpl; [exact Hs|].
    apply IH; destruct (staleThreshold <? now - en_startTime (snd ie))%Z;
      [apply killExecution_inv|]; exact Hs. }
  apply H, HI.
Qed.

Lemma killAll_inv (st : Executor) : Inv st -> Inv (killAllProcesses st).
Proof.
  intros HI; unfold killAllProcesses.
  assert (H : forall l s, Inv s -> Inv (fold_left (fun s (ie : string * Entry) => killProcess s (en_process (snd ie))) l s)).
  { induction l as [|ie r IH]; intros s Hs; simpl; [exact Hs|apply IH, killProcess_inv, Hs]. }
  exact (H _ _ HI).
Qed.

Lemma step_inv (st : Executor) (ev : Event) : Inv st -> Inv (step st ev).
Proof.
  destruct ev; simpl; intros HI.
  - exact HI.
  - exact HI.
  - apply killProcess_inv, HI.
  - apply send_inv, HI.
  - apply fire_timer_inv, HI.
  - destruct HI as [Ht Hs]; split; [|exact Hs].
    intros p Hp; destruct (Ht p Hp); [left|right; right]; assumption.
  - apply killExecution_inv, HI.
  - apply cleanup_inv, HI.
  - apply killAll_inv, HI.
  - exact HI.
Qed.

(** X21: from the executor the constructor builds, whatever sequence of
    registrations, deletions, timeouts (of [runTool] and of [spawn]),
    [killTimeout] timers, exits, [killExecution], [cleanupStaleProcesses]
    and [killAllProcesses] calls happens, every signal delivered is
    [SIGTERM]: the [SIGKILL] fallback of [killProcess] is never delivered,
    since delivering [SIGTERM] sets [process.killed] (and a process that
    has exited takes no signal). *)
Theorem killProcess_never_sigkill (maxConcurrent : nat) (evs : list Event) :
  Forall (fun s => snd s = "SIGTERM") (signals (run (initialExecutor maxConcurrent) evs)).
Proof.
  assert (H : forall evs st, Inv st -> Inv (run st evs)).
  { induction evs0 as [|ev r IH]; intros st HI; simpl; [exact HI|apply IH, step_inv, HI]. }
  apply (H evs (initialExecutor maxConcurrent)).
  split; [intros p []|constructor].
Qed.

(** [cleanupStaleProcesses] on a map with distinct keys. *)
Lemma cleanup_fold (now : Z) (l pre : list (string * Entry)) (st : Executor) :
  activeProcesses st = pre ++ l -> NoDup (map fst (pre ++ l)) ->
  activeProcesses (fold_left (fun s ie =>
                     if (staleThreshold <? now - en_startTime (snd ie))%Z
                     then killExecution s (fst ie) else s) l st) =
  pre ++ filter (fun ie => negb (staleThreshold <? now - en_startTime (snd ie))%Z) l /\
  exited (fold_left (fun s ie =>
            if (staleThreshold <? now - en_startTime (snd ie))%Z
            then killExecution s (fst ie) else s) l st) = exited st /\
  (forall p, In p (killed st) ->
     In p (killed (fold_left (fun s ie =>
                     if (staleThreshold <? now - en_startTime (snd ie))%Z
                     then killExecution s (fst ie) else s) l st))) /\
  (forall ie, In ie l -> (staleThreshold <? now - en_startTime (snd ie))%Z = true ->
     In (en_process (snd ie))
        (killed (fold_left (fun s ie =>
                   if (staleThreshold <? now - en_startTime (snd ie))%Z
                   then killExecution s (fst ie) else s) l st)) \/
     In (en_process (snd ie)) (exited st)).
Proof.
  revert pre st; induction l as [|[id e] r IH]; intros pre st Ha Hnd; simpl.
  - rewrite app_nil_r in Ha |- *; split; [exact Ha|split; [reflexivity|split; [auto|intros ie []]]].
  - rewrite map_app in Hnd; simpl in Hnd.
    apply NoDup_remove in Hnd as [Hnd Hid].
    rewrite <- map_app in Hnd, Hid.
    destruct (staleThreshold <? now - en_startTime e)%Z eqn:Es; simpl.
    + (* the entry is stale: it is killed and deleted *)
      assert (Hget : map_get id (activeProcesses st) = Some e).
      { rewrite Ha; clear -Hid; induction pre as [|[k v] pre IHp]; simpl.
        - rewrite String.eqb_refl; reflexivity.
        - simpl in Hid; destruct (String.eqb id k) eqn:E.
          + apply String.eqb_eq in E; subst; exfalso; apply Hid; left; reflexivity.
          + apply IHp; intros H; apply Hid; right; exact H. }
      set (st1 := killExecution st id).
      destruct (killProcess_mono st (en_process e)) as [Ka [Ke [Kk Kp]]].
      assert (Ha1 : activeProcesses st1 = pre ++ r).
      { unfold st1, killExecution; rewrite Hget; simpl; rewrite Ka, Ha.
        unfold map_delete; rewrite filter_app; simpl; rewrite String.eqb_refl; simpl.
        rewrite !(FormatProofs.filter_id); [reflexivity| |].
        - intros [k v] Hk; simpl; apply negb_true_iff, String.eqb_neq; intros ->.
          apply Hid; rewrite map_app; apply in_or_app; right; apply (in_map fst) in Hk; exact Hk.
        - intros [k v] Hk; simpl; apply negb_true_iff, String.eqb_neq; intros ->.
          apply Hid; rewrite map_app; apply in_or_app; left; apply (in_map fst) in Hk; exact Hk. }
      assert (He1 : exited st1 = exited st)
        by (unfold st1, killExecution; rewrite Hget; exact Ke).
      assert (Hk1 : forall p, In p (killed st) -> In p (killed st1))
        by (unfold st1, killExecution; rewrite Hget; exact Kk).
      assert (Hp1 : In (en_process e) (killed st1) \/ In (en_process e) (exited st))
        by (unfold st1, killExecution; rewrite Hget; exact Kp).
      destruct (IH pre st1 Ha1 Hnd) as [A [B [C D]]].
      split; [exact A|split; [rewrite B; exact He1|split]].
      * intros p Hp; apply C, Hk1, Hp.
      * intros ie [<-|Hie] Hst.
        -- simpl; destruct Hp1 as [Hp1|Hp1]; [left; apply C, Hp1|right; exact Hp1].
        -- rewrite <- He1; apply D; assumption.
    + (* the entry is kept *)
      assert (Ha1 : activeProcesses st = (pre ++ [(id, e)]) ++ r) by (rewrite <- app_assoc; exact Ha).
      assert (Hnd1 : NoDup (map fst ((pre ++ [(id, e)]) ++ r))).
      { rewrite <- app_assoc; simpl; rewrite map_app; simpl.
        apply (proj2 (NoDup_Add (Add_app id (map fst pre) (map fst r)))).
        rewrite <- map_app; split; [exact Hnd|exact Hid]. }
      destruct (IH (pre ++ [(id, e)]) st Ha1 Hnd1) as [A [B [C D]]].
      split; [rewrite A, <- app_assoc; reflexivity|split; [exact B|split; [exact C|]]].
      intros ie [<-|Hie] Hst; [simpl in Hst; congruence|apply D; assumption].
Qed.

(** X22: on a process table with distinct execution ids (as a [Map] has),
    [cleanupStaleProcesses] at time [now] removes exactly the entries
    older than [timeout + 60000] ms, keeping the others in order, and
    each removed entry's process has been killed (or had already
    exited). *)
Theorem cleanupStaleProcesses_removes_stale (now : Z) (st : Executor) :
  NoDup (map fst (activeProcesses st)) ->
  activeProcesses (cleanupStaleProcesses now st) =
  filter (fun ie => negb (staleThreshold <? now - en_startTime (snd ie))%Z) (activeProcesses st) /\
  (forall ie, In ie (activeProcesses st) ->
     (staleThreshold <? now - en_startTime (snd ie))%Z = true ->
     In (en_process (snd ie)) (killed (cleanupStaleProcesses now st)) \/
     In (en_process (snd ie)) (exited st)).
Proof.
  intros Hnd; unfold cleanupStaleProcesses.
  destruct (cleanup_fold now (activeProcesses st) [] st eq_refl Hnd) as [A [_ [_ D]]].
  split; [exact A|exact D].
Qed.

Lemma cleanupStaleProcesses_removes_stale_witness :
  NoDup (map fst (activeProcesses
    (mkExecutor [("a", {| en_process := 1; en_tool := "amass"; en_domain := "example.com";
                          en_startTime := 0 |});
                 ("b", {| en_process := 2; en_tool := "subfinder"; en_domain := "example.com";
                          en_startTime := 300000 |})] [] [] [] [] true 2 5))) /\
  activeProcesses (cleanupStaleProcesses 400000
    (mkExecutor [("a", {| en_process := 1; en_tool := "amass"; en_domain := "example.com";
                          en_startTime := 0 |});
                 ("b", {| en_process := 2; en_tool := "subfinder"; en_domain := "example.com";
                          en_startTime := 300000 |})] [] [] [] [] true 2 5)) =
  [("b", {| en_process := 2; en_tool := "subfinder"; en_domain := "example.com";
            en_startTime := 300000 |})].
Proof.
  assert (H : NoDup (map fst (activeProcesses
    (mkExecutor [("a", {| en_process := 1; en_tool := "amass"; en_domain := "example.com";
                          en_startTime := 0 |});
                 ("b", {| en_process := 2; en_tool := "subfinder"; en_domain := "example.com";
                          en_startTime := 300000 |})] [] [] [] [] true 2 5))))
    by (simpl; constructor; [intros [H|[]]; discriminate H|constructor; [intros []|constructor]]).
  split; [exact H|].
  rewrite (proj1 (cleanupStaleProcesses_removes_stale 400000 _ H)); reflexivity.
Defined.

(** X23: after [killAllProcesses] the process table is empty (so
    [getStats().activeProcesses] is 0), and every process that was in the
    table has been killed (or had already exited). *)
Theorem killAllProcesses_clears (st : Executor) :
  activeProcesses (killAllProcesses st) = [] /\
  stats_activeProcesses (getStats (killAllProcesses st)) = 0 /\
  (forall ie, In ie (activeProcesses st) ->
     In (en_process (snd ie)) (killed (killAllProcesses st)) \/
     In (en_process (snd ie)) (exited st)).
Proof.
  split; [reflexivity|split; [reflexivity|]].
  unfold killAllProcesses; simpl.
  assert (H : forall l s,
            exited (fold_left (fun s (ie : string * Entry) => killProcess s (en_process (snd ie))) l s) = exited s /\
            (forall p, In p (killed s) ->
               In p (killed (fold_left (fun s (ie : string * Entry) => killProcess s (en_process (snd ie))) l s))) /\
            (forall ie, In ie l ->
               In (en_process (snd ie))
                  (killed (fold_left (fun s (ie : string * Entry) => killProcess s (en_process (snd ie))) l s)) \/
               In (en_process (snd ie)) (exited s))).
  { induction l as [|ie0 r IH]; intros s; simpl.
    - split; [reflexivity|split; [auto|intros ie []]].
    - destruct (killProcess_mono s (en_process (snd ie0))) as [_ [Ke [Kk Kp]]].
      destruct (IH (killProcess s (en_process (snd ie0)))) as [A [B C]].
      rewrite Ke in A, C; split; [exact A|split; [intros p Hp; apply B, Kk, Hp|]].
      intros ie [<-|Hie]; [|apply C, Hie].
      destruct Kp as [Kp|Kp]; [left; apply B, Kp|right; exact Kp]. }
  intros ie Hie; destruct (H (activeProcesses st) st) as [_ [_ C]]; apply C, Hie.
Qed.

Lemma send_interval (st : Executor) (pid : nat) (sig : string) :
  cleanupInterval (send st pid sig) = cleanupInterval st.
Proof. unfold send; destruct (mem pid (exited st)); reflexivity. Qed.

Lemma killProcess_interval (st : Executor) (pid : nat) :
  cleanupInterval (killProcess st pid) = cleanupInterval st.
Proof.
  unfold killProcess; destruct (mem pid (killed st)); [reflexivity|].
  simpl; apply send_interval.
Qed.

Lemma killExecution_interval (st : Executor) (id : string) :
  cleanupInterval (killExecution st id) = cleanupInterval st.
Proof.
  unfold killExecution; destruct (map_get id (activeProcesses st)); [|reflexivity].
  simpl; apply killProcess_interval.
Qed.

Lemma fire_timer_interval (st : Executor) :
  cleanupInterval (fire_timer st) = cleanupInterval st.
Proof.
  unfold fire_timer; destruct (timers st) as [|pid rest]; [reflexivity|].
  destruct (mem pid _); [reflexivity|]; rewrite send_interval; reflexivity.
Qed.

Lemma cleanup_interval (now : Z) (st : Executor) :
  cleanupInterval (cleanupStaleProcesses now st) = cleanupInterval st.
Proof.
  unfold cleanupStaleProcesses; generalize (activeProcesses st) as l; revert st.
  intros st l; revert st; induction l as [|ie r IH]; intros s; simpl; [reflexivity|].
  rewrite IH; destruct (staleThreshold <? now - en_startTime (snd ie))%Z;
    [apply killExecution_interval|reflexivity].
Qed.

Lemma step_interval (st : Executor) (ev : Event) :
  cleanupInterval (step st ev) =
  match ev with
  | EvStartCleanup => true
  | EvKillAll => false
  | _ => cleanupInterval st
  end.
Proof.
  destruct ev; simpl; try reflexivity.
  - apply killProcess_interval.
  - apply send_interval.
  - apply fire_timer_interval.
  - apply killExecution_interval.
  - apply cleanup_interval.
Qed.

Lemma app_cons_last {A : Type} (l1 l2 l : list A) (a e : A) :
  l1 ++ a :: l2 = l ++ [e] ->
  (l2 = [] /\ a = e /\ l1 = l) \/ (exists l2', l2 = l2' ++ [e] /\ l = l1 ++ a :: l2').
Proof.
  intros H; destruct l2 as [|x r] using rev_ind.
  - apply app_inj_tail in H as [-> ->]; left; auto.
  - right; exists r; rewrite app_comm_cons, app_assoc in H.
    apply app_inj_tail in H as [<- ->]; split; reflexivity.
Qed.

Lemma run_interval (st : Executor) (evs : list Event) :
  cleanupInterval (run st evs) = true <->
  (cleanupInterval st = true /\ ~ In EvKillAll evs) \/
  (exists evs1 evs2, evs = evs1 ++ EvStartCleanup :: evs2 /\ ~ In EvKillAll evs2).
Proof.
  induction evs as [|e l IH] using rev_ind.
  - simpl; split; [intros H; left; split; [exact H|intros []]|].
    intros [[H _]|[evs1 [evs2 [H _]]]]; [exact H|].
    destruct evs1; discriminate H.
  - unfold run in *; rewrite fold_left_app; simpl; rewrite step_interval.
    assert (Hsplit : forall P : list Event -> Prop,
              (exists evs1 evs2, l ++ [e] = evs1 ++ EvStartCleanup :: evs2 /\ P evs2) ->
              (e = EvStartCleanup /\ P []) \/
              (exists evs1 evs2, l = evs1 ++ EvStartCleanup :: evs2 /\ P (evs2 ++ [e]))).
    { intros P [evs1 [evs2 [H HP]]]; symmetry in H.
      destruct (app_cons_last _ _ _ _ _ H) as [[-> [<- _]]|[l2 [-> ->]]];
        [left; auto|right; exists evs1, l2; auto]. }
    destruct e.
    10: { split; [intros _; right; exists l, []; split; [reflexivity|intros []]|reflexivity]. }
    9: { split; [discriminate|].
         intros [[_ H]|H]; [exfalso; apply H, in_or_app; right; left; reflexivity|].
         destruct (Hsplit (fun evs2 => ~ In EvKillAll evs2) H)
           as [[He _]|[evs1 [evs2 [_ Hn]]]]; [discriminate He|].
         exfalso; apply Hn, in_or_app; right; left; reflexivity. }
    all: rewrite IH; split;
      [ intros [[H1 H2]|[evs1 [evs2 [H1 H2]]]];
        [ left; split; [exact H1|intros Hin; apply in_app_or in Hin as [Hin|[Hin|[]]];
                                  [exact (H2 Hin)|discriminate Hin]]
        | right; exists evs1; eexists; split; [rewrite H1, <- app_assoc; reflexivity|];
          intros Hin; apply in_app_or in Hin as [Hin|[Hin|[]]]; [exact (H2 Hin)|discriminate Hin]]
      | intros [[H1 H2]|H];
        [ left; split; [exact H1|intros Hin; apply H2, in_or_app; left; exact Hin]
        | destruct (Hsplit (fun evs2 => ~ In EvKillAll evs2) H)
            as [[He _]|[evs1 [evs2 [H1 H2]]]]; [discriminate He|];
          right; exists evs1, evs2; split; [exact H1|];
          intros Hin; apply H2, in_or_app; left; exact Hin]].
Qed.

(** X26: from the executor the constructor builds, whatever events happen
    ([startProcessCleanup] at most once, as [initializeExecutor] calls it),
    the cleanup interval runs exactly when [startProcessCleanup] has run
    and no [killAllProcesses] came after it.  A [killAllProcesses] call
    that comes before the start, while [ensureDirectories()] is still
    pending, does not keep the interval from starting. *)
Theorem cleanupInterval_runs (m : nat) (evs : list Event) :
  length (filter is_start_cleanup evs) <= 1 ->
  cleanupInterval (run (initialExecutor m) evs) = true <->
  exists evs1 evs2, evs = evs1 ++ EvStartCleanup :: evs2 /\ ~ In EvKillAll evs2.
Proof.
  intros _; rewrite run_interval; simpl.
  split; [intros [[H _]|H]; [discriminate H|exact H]|intros H; right; exact H].
Qed.

(** [killAllProcesses()] before [ensureDirectories()] resolves: the
    interval starts afterwards and runs. *)
Lemma cleanupInterval_runs_witness :
  length (filter is_start_cleanup [EvKillAll; EvStartCleanup]) <= 1 /\
  cleanupInterval (run (initialExecutor 5) [EvKillAll; EvStartCleanup]) = true.
Proof.
  assert (H : length (filter is_start_cleanup [EvKillAll; EvStartCleanup]) <= 1)
    by (simpl; lia).
  split; [exact H|].
  apply (proj2 (cleanupInterval_runs 5 [EvKillAll; EvStartCleanup] H)).
  exists [EvKillAll], []; split; [reflexivity|intros []].
Defined.

End ProcessProofs.

Module ScanProofs.
Import JsString Js ResultProcessor StringFacts.

Lemma all_chars_app (p : ascii -> bool) (a b : string) :
  all_chars p (a ++ b) = all_chars p a && all_chars p b.
Proof. induction a as [|c r IH]; simpl; [reflexivity|rewrite IH, andb_assoc; reflexivity]. Qed.

Lemma trim_no_ws (s : string) :
  all_chars (fun c => negb (is_ws c)) s = true -> trim s = s.
Proof.
  intros H; unfold trim; rewrite all_chars_forallb in H.
  assert (Hd : forall l, forallb (fun c => negb (is_ws c)) l = true -> drop_ws l = l).
  { intros [|c r] Hl; [reflexivity|apply drop_ws_id; simpl in Hl].
    destruct (is_ws c); [discriminate|reflexivity]. }
  rewrite (Hd _ H), Hd by (rewrite forallb_rev; exact H).
  rewrite rev_involutive; apply string_of_list_ascii_of_string.
Qed.

Lemma take_nonws_spec (s : string) :
  s = (fst (take_nonws s) ++ snd (take_nonws s))%string /\
  all_chars (fun c => negb (is_ws c)) (fst (take_nonws s)) = true.
Proof.
  induction s as [|c r IH]; simpl; [split; reflexivity|].
  destruct (is_ws c) eqn:E; simpl; [split; reflexivity|].
  destruct (take_nonws r) as [run rest]; simpl in *; destruct IH as [IH1 IH2].
  split; [rewrite <- IH1; reflexivity|rewrite E, IH2; reflexivity].
Qed.

Lemma try_url_spec (s m rest : string) :
  try_url s = Some (m, rest) ->
  exists scheme run, m = (scheme ++ run)%string /\
    (scheme = "https://" \/ scheme = "http://") /\ run <> EmptyString /\
    all_chars (fun c => negb (is_ws c)) run = true.
Proof.
  assert (A : forall scheme,
    (if String.prefix scheme s then
       let (run, rest) := take_nonws (substring (String.length scheme) (String.length s) s) in
       if String.eqb run "" then None else Some ((scheme ++ run)%string, rest)
     else None) = Some (m, rest) ->
    exists run, m = (scheme ++ run)%string /\ run <> EmptyString /\
                all_chars (fun c => negb (is_ws c)) run = true).
  { intros scheme; destruct (String.prefix scheme s); [|discriminate].
    pose proof (take_nonws_spec (substring (String.length scheme) (String.length s) s))
      as [_ Hr].
    destruct (take_nonws _) as [run rest0]; simpl in Hr.
    destruct (String.eqb run "") eqn:E; [discriminate|].
    intros H; injection H as <- _; exists run; split; [reflexivity|split; [|exact Hr]].
    intros ->; discriminate E. }
  unfold try_url.
  destruct (if String.prefix "https://" s then _ else None) as [[m0 r0]|] eqn:E1.
  - intros H; injection H as -> ->.
    destruct (A "https://" E1) as [run [H1 H2]]; exists "https://", run; auto.
  - intros H; destruct (A "http://" H) as [run [H1 H2]]; exists "http://", run; auto.
Qed.

Lemma url_scan_spec (fuel : nat) (s m : string) :
  In m (url_scan fuel s) -> exists s' rest, try_url s' = Some (m, rest).
Proof.
  revert s; induction fuel as [|f IH]; intros s; simpl; [intros []|].
  destruct s as [|c r]; [intros []|].
  destruct (try_url (String c r)) as [[m0 rest]|] eqn:E.
  - intros [<-|H]; [exists (String c r), rest; exact E|exact (IH _ H)].
  - apply IH.
Qed.

(** X24: every result of [parseUrlsOutput] is [http://] or [https://]
    followed by a non-empty run of characters that are not white space,
    and is shorter than 2048 characters. *)
Theorem parseUrlsOutput_shape (output : string) (v : jsval) :
  In v (parseUrlsOutput output) ->
  exists scheme run, v = JStr (scheme ++ run) /\
    (scheme = "https://" \/ scheme = "http://") /\ run <> EmptyString /\
    all_chars (fun c => negb (is_ws c)) run = true /\
    String.length (scheme ++ run) < 2048.
Proof.
  unfold parseUrlsOutput; destruct (String.eqb output ""); [intros []|].
  intros H; apply in_map_iff in H as [u [<- Hu]].
  apply filter_In in Hu as [Hu Hlen]; apply andb_prop in Hlen as [_ Hlen].
  apply Nat.ltb_lt in Hlen.
  apply in_map_iff in Hu as [m [Hm Hin]].
  destruct (url_scan_spec _ _ _ Hin) as [s' [rest Hs]].
  destruct (try_url_spec _ _ _ Hs) as [scheme [run [-> [Hsch [Hne Hws]]]]].
  assert (Hall : all_chars (fun c => negb (is_ws c)) (scheme ++ run) = true).
  { rewrite all_chars_app, Hws, andb_true_r.
    destruct Hsch as [->| ->]; reflexivity. }
  rewrite (trim_no_ws _ Hall) in Hm; subst u.
  exists scheme, run; auto.
Qed.

Lemma parseUrlsOutput_shape_witness :
  In (JStr "https://a.example.com/x") (parseUrlsOutput "see https://a.example.com/x now") /\
  String.length "https://a.example.com/x" < 2048.
Proof.
  assert (H : In (JStr "https://a.example.com/x")
                 (parseUrlsOutput "see https://a.example.com/x now")) by (vm_compute; auto).
  split; [exact H|].
  destruct (parseUrlsOutput_shape _ _ H) as [scheme [run [Hv [_ [_ [_ Hl]]]]]].
  injection Hv as ->; exact Hl.
Defined.

Lemma take_while_spec (p : ascii -> bool) (s : string) :
  s = (fst (take_while p s) ++ snd (take_while p s))%string /\
  all_chars p (fst (take_while p s)) = true.
Proof.
  induction s as [|c r IH]; simpl; [split; reflexivity|].
  destruct (p c) eqn:E; simpl; [|split; reflexivity].
  destruct (take_while p r) as [run rest]; simpl in *; destruct IH as [IH1 IH2].
  split; [rewrite <- IH1; reflexivity|rewrite E, IH2; reflexivity].
Qed.

Lemma substring_0_full (m : nat) (s : string) :
  String.length s <= m -> substring 0 m s = s.
Proof.
  revert m; induction s as [|c r IH]; intros [|m] H; simpl in *; try reflexivity; [lia|].
  rewrite IH by lia; reflexivity.
Qed.

Lemma substring_0_app (a b : string) (m : nat) :
  substring 0 (String.length a + m) (a ++ b) = (a ++ substring 0 m b)%string.
Proof. induction a as [|c r IH]; simpl; [reflexivity|rewrite IH; reflexivity]. Qed.

Lemma append_empty_r (s : string) : (s ++ EmptyString)%string = s.
Proof. induction s as [|c r IH]; simpl; [reflexivity|rewrite IH; reflexivity]. Qed.

Lemma substring_0_zero (s : string) : substring 0 0 s = EmptyString.
Proof. destruct s; reflexivity. Qed.

Lemma get_split (q : nat) (h : string) (c : ascii) :
  String.get q h = Some c ->
  exists a b, h = (a ++ String c b)%string /\ String.length a = q /\
    forall m, String.length h <= S q + m -> substring (S q) m h = b.
Proof.
  revert h; induction q as [|q IH]; intros [|x h'] H; simpl in H; try discriminate.
  - injection H as <-; exists EmptyString, h'; split; [reflexivity|split; [reflexivity|]].
    intros m Hm; simpl; apply substring_0_full; simpl in Hm; lia.
  - destruct (IH h' H) as [a [b [E [La Hs]]]].
    exists (String x a), b; split; [rewrite E; reflexivity|split; [simpl; lia|]].
    intros m Hm; simpl; apply Hs; simpl in Hm; lia.
Qed.

Lemma host_end_spec (h : string) (p e : nat) :
  host_end h p = Some e ->
  exists q, 1 <= q /\ String.get q h = Some "."%char /\
    2 <= String.length (fst (take_while is_alpha (substring (S q) (String.length h) h))) /\
    e = S q + String.length (fst (take_while is_alpha (substring (S q) (String.length h) h))).
Proof.
  induction p as [|q IH]; intros H; [discriminate|].
  cbn [host_end] in H.
  destruct (String.get (S q) h) as [c|] eqn:Eg.
  - destruct (Ascii.eqb c ".") eqn:Ec.
    + destruct (2 <=? String.length (fst (take_while is_alpha
                     (substring (S (S q)) (String.length h) h)))) eqn:Ek.
      * injection H as <-; exists (S q).
        apply Ascii.eqb_eq in Ec; subst c; apply Nat.leb_le in Ek.
        split; [lia|split; [exact Eg|split; [exact Ek|reflexivity]]].
      * exact (IH H).
    + exact (IH H).
  - exact (IH H).
Qed.

Lemma try_email_spec (s m rest : string) :
  try_email s = Some (m, rest) ->
  exists loc pre tld, m = (loc ++ "@" ++ pre ++ "." ++ tld)%string /\
    loc <> EmptyString /\ all_chars local_char loc = true /\
    pre <> EmptyString /\ all_chars domain_char pre = true /\
    2 <= String.length tld /\ all_chars is_alpha tld = true.
Proof.
  unfold try_email.
  pose proof (take_while_spec local_char s) as [_ Hloc].
  destruct (take_while local_char s) as [loc r0]; simpl in Hloc.
  destruct loc as [|l0 loc']; [discriminate|].
  destruct r0 as [|at_ r]; [discriminate|].
  destruct (Ascii.eqb at_ "@"); [|discriminate].
  pose proof (take_while_spec domain_char r) as [_ Hh].
  destruct (take_while domain_char r) as [h hrest]; simpl in Hh.
  destruct (host_end h (String.length h - 1)) as [e|] eqn:He; [|discriminate].
  intros H; injection H as <- _.
  destruct (host_end_spec _ _ _ He) as [q [Hq [Hg [Hk ->]]]].
  destruct (get_split _ _ _ Hg) as [a [b [Eh [La Hb]]]].
  rewrite (Hb (String.length h)) in Hk |- * by lia.
  pose proof (take_while_spec is_alpha b) as [Eb Htld].
  set (tld := fst (take_while is_alpha b)) in *.
  exists (String l0 loc'), a, tld.
  assert (Hsub : substring 0 (S q + String.length tld) h = (a ++ "." ++ tld)%string).
  { rewrite Eh, <- La.
    replace (S (String.length a) + String.length tld)
      with (String.length a + S (String.length tld)) by lia.
    rewrite substring_0_app; simpl; f_equal; f_equal.
    rewrite Eb at 1; replace (String.length tld) with (String.length tld + 0) by lia.
    rewrite substring_0_app, substring_0_zero; apply append_empty_r. }
  rewrite Hsub.
  assert (Hpre : all_chars domain_char h = true) by exact Hh.
  rewrite Eh, all_chars_app in Hpre; apply andb_prop in Hpre as [Hpre _].
  split; [reflexivity|].
  split; [discriminate|split; [exact Hloc|]].
  split; [intros ->; simpl in La; lia|split; [exact Hpre|split; [exact Hk|exact Htld]]].
Qed.

Lemma email_scan_spec (fuel : nat) (s m : string) :
  In m (email_scan fuel s) -> exists s' rest, try_email s' = Some (m, rest).
Proof.
  revert s; induction fuel as [|f IH]; intros s; simpl; [intros []|].
  destruct s as [|c r]; [intros []|].
  destruct (try_email (String c r)) as [[m0 rest]|] eqn:E.
  - intros [<-|H]; [exists (String c r), rest; exact E|exact (IH _ H)].
  - apply IH.
Qed.

Ltac all_ascii :=
  let c := fresh "c" in
  intros c; destruct c as [[] [] [] [] [] [] [] []]; vm_compute; congruence.

Lemma is_ws_lower (c : ascii) : is_ws c = false -> is_ws (lower_char c) = false.
Proof. revert c; all_ascii. Qed.

Lemma local_char_not_ws (c : ascii) : local_char c = true -> negb (is_ws c) = true.
Proof. revert c; all_ascii. Qed.

Lemma domain_char_not_ws (c : ascii) : domain_char c = true -> negb (is_ws c) = true.
Proof. revert c; all_ascii. Qed.

Lemma is_alpha_not_ws (c : ascii) : is_alpha c = true -> negb (is_ws c) = true.
Proof. revert c; all_ascii. Qed.

Lemma toLowerCase_not_ws (s : string) :
  all_chars (fun c => negb (is_ws c)) s = true ->
  all_chars (fun c => negb (is_ws c)) (toLowerCase s) = true.
Proof.
  induction s as [|c r IH]; simpl; [reflexivity|].
  intros H; apply andb_prop in H as [H1 H2].
  rewrite IH by exact H2; rewrite is_ws_lower; [reflexivity|].
  destruct (is_ws c); [discriminate|reflexivity].
Qed.

Lemma toLowerCase_length (s : string) : String.length (toLowerCase s) = String.length s.
Proof. induction s as [|c r IH]; simpl; [reflexivity|rewrite IH; reflexivity]. Qed.

(** X25: every result of [parseEmailsOutput] is the lower-cased text of a
    match [local@host.tld]: a non-empty local part of characters
    [a-zA-Z0-9._%+-], a non-empty host of characters [a-zA-Z0-9.-], a dot,
    and two or more letters; the match is shorter than 320 characters. *)
Theorem parseEmailsOutput_shape (output : string) (v : jsval) :
  In v (parseEmailsOutput output) ->
  exists loc pre tld,
    v = JStr (toLowerCase (loc ++ "@" ++ pre ++ "." ++ tld)) /\
    loc <> EmptyString /\ all_chars local_char loc = true /\
    pre <> EmptyString /\ all_chars domain_char pre = true /\
    2 <= String.length tld /\ all_chars is_alpha tld = true /\
    String.length (loc ++ "@" ++ pre ++ "." ++ tld) < 320.
Proof.
  unfold parseEmailsOutput; destruct (String.eqb output ""); [intros []|].
  intros H; apply in_map_iff in H as [u [<- Hu]].
  apply filter_In in Hu as [Hu Hlen]; apply andb_prop in Hlen as [_ Hlen].
  apply Nat.ltb_lt in Hlen.
  apply in_map_iff in Hu as [m [Hm Hin]].
  destruct (email_scan_spec _ _ _ Hin) as [s' [rest Hs]].
  destruct (try_email_spec _ _ _ Hs)
    as [loc [pre [tld [-> [Hl0 [Hl1 [Hp0 [Hp1 [Ht0 Ht1]]]]]]]]].
  assert (Hall : all_chars (fun c => negb (is_ws c))
                   (loc ++ "@" ++ pre ++ "." ++ tld) = true).
  { rewrite !all_chars_app; simpl.
    rewrite (all_chars_impl _ _ _ local_char_not_ws Hl1),
            (all_chars_impl _ _ _ domain_char_not_ws Hp1),
            (all_chars_impl _ _ _ is_alpha_not_ws Ht1); reflexivity. }
  rewrite (trim_no_ws _ (toLowerCase_not_ws _ Hall)) in Hm; subst u.
  rewrite toLowerCase_length in Hlen.
  exists loc, pre, tld; repeat split; assumption.
Qed.

Lemma parseEmailsOutput_shape_witness :
  In (JStr "bob@mail.example.com") (parseEmailsOutput "contact: Bob@Mail.Example.com.") /\
  String.length "Bob@Mail.Example.com" < 320.
Proof.
  assert (H : In (JStr "bob@mail.example.com")
                 (parseEmailsOutput "contact: Bob@Mail.Example.com.")) by (vm_compute; auto).
  split; [exact H|].
  destruct (parseEmailsOutput_shape _ _ H)
    as [loc [pre [tld [_ [_ [_ [_ [_ [_ [_ Hl]]]]]]]]]].
  vm_compute; lia.
Defined.

End ScanProofs.

Module FallbackProofs.
Import JsString Js ToolExecutor Scenarios.

(** X27: when a tool's own binary cannot be started and its fallback does
    start a process, [executeSingleTool] does not wait for the fallback:
    the failed primary's [close] settles [runTool], so with no output file
    yet the execution succeeds with no results, [count] 0 and an empty raw
    output, and the fallback's process is left running. *)
Theorem executeSingleTool_fallback_output_lost os dir tool domain id ts fs cfg u cmd args
    errno msg fb :
  getToolConfiguration tool = inr cfg ->
  validateInputs tool domain = inr u ->
  spec_command cfg = Some cmd ->
  processCommandArgs (spec_args cfg) domain
    (ctx_outputFile (createExecutionContext dir tool domain id ts)) id = inr args ->
  os cmd args = SpawnError errno msg ->
  spec_fallback cfg = Some fb ->
  starts_process os (merge_spec cfg fb)
    (set_fallbackAttempted (createExecutionContext dir tool domain id ts)) = true ->
  fs_read fs (ctx_outputFile (createExecutionContext dir tool domain id ts)) = None ->
  let r := fst (executeSingleTool os dir tool domain id ts fs) in
  tr_success r = true /\ tr_results r = [] /\ tr_count r = Some 0 /\
  tr_rawOutput r = Some EmptyString /\ tr_error r = None /\
  length (snd (runTool os cfg (createExecutionContext dir tool domain id ts) fs)) = 2.
Proof.
  intros Hcfg Hval Hcmd Hargs Hos Hfb Hstart Hfs.
  assert (Hrun : exists ctx' tr,
    runTool os cfg (createExecutionContext dir tool domain id ts) fs =
      (inr {| ro_code := errno; ro_stdout := EmptyString; ro_output := EmptyString;
              ro_outputFile := ctx_outputFile (createExecutionContext dir tool domain id ts) |},
       ctx', fs, (cmd, args) :: tr) /\ length tr = 1).
  { set (ctx := createExecutionContext dir tool domain id ts) in *.
    assert (Hatt : ctx_fallbackAttempted ctx = false) by reflexivity.
    assert (Hd : ctx_domain ctx = domain) by reflexivity.
    assert (Hi : ctx_executionId ctx = id) by reflexivity.
    rewrite <- Hd, <- Hi in Hargs. clearbody ctx.
    unfold runTool. cbn [runTool_fuel].
    rewrite Hargs, Hcmd, Hos, Hfb, Hatt. cbn [negb].
    rewrite Hstart. unfold starts_process in Hstart.
    rewrite RunnerProofs.processCommandArgs_set_fallbackAttempted in Hstart.
    simpl.
    destruct (processCommandArgs (spec_args (merge_spec cfg fb)) (ctx_domain ctx)
                (ctx_outputFile ctx) (ctx_executionId ctx)) as [e|args2] eqn:Ea;
      [discriminate Hstart|].
    destruct (spec_command (merge_spec cfg fb)) as [cmd2|] eqn:Ec; [|discriminate Hstart].
    destruct (os cmd2 args2) as [e2 m2|code out file|file] eqn:Eo; [discriminate Hstart| |];
      rewrite Hfs; do 2 eexists; split; reflexivity. }
  destruct Hrun as [ctx' [tr [Hrun Htr]]].
  cbv zeta; rewrite Hrun; cbn [snd length]; rewrite Htr.
  unfold executeSingleTool; rewrite Hcfg, Hval; cbv zeta; rewrite Hrun.
  unfold processResults; rewrite Hcfg; simpl.
  destruct (spec_outputType cfg) as [o|]; [destruct (String.eqb o "domains")|];
    simpl; repeat split.
Qed.

(** [nslookup] on a host with [sh] but without [nslookup]: the [dig]
    fallback runs, yet the execution reports no results. *)
Lemma executeSingleTool_fallback_output_lost_witness :
  let r := fst (executeSingleTool os_only_sh results_dir "nslookup" "example.com" "e1" 1 []) in
  tr_success r = true /\ tr_results r = [] /\ tr_count r = Some 0 /\
  tr_rawOutput r = Some EmptyString /\ tr_error r = None /\
  length (snd (runTool os_only_sh (cfg_of "nslookup")
                 (createExecutionContext results_dir "nslookup" "example.com" "e1" 1) [])) = 2.
Proof.
  apply (executeSingleTool_fallback_output_lost os_only_sh results_dir "nslookup" "example.com"
           "e1" 1 [] (cfg_of "nslookup") tt "nslookup" ["example.com"] (-2)%Z
           "spawn nslookup ENOENT" (fallback_of "nslookup"));
    vm_compute; reflexivity.
Defined.


End FallbackProofs.
